(** * Job matching service: a shallow embedding of [jobMatchingService.js]

    The development follows the source file function by function:
    [calculateJobCategoryMatch], [calculateLocationMatch],
    [calculateRemoteMatch], [calculateSkillsMatch],
    [calculateExperienceMatch], [calculateJobTypeMatch], the aggregate
    [calculateJobMatchScore] and the batch operation [getMatchedJobs].

    Conventions of the embedding:
    - a JavaScript number is a [number]: an exact rational kept in
      lowest terms, an infinity or NaN.  The rounding of binary64
      arithmetic and the sign of zero are not modelled; the arithmetic
      of the skills score is given in binary64 as well
      ([skills_score_binary64]);
    - a JavaScript string is a [string] of bytes; [toLowerCase] folds the
      letters A-Z and leaves every other byte as it is;
    - a property that may be absent is an [option]; [None] is
      [undefined];
    - objects that the code mutates in place live in an explicit store:
      [calculateJobMatchScore_st] and [getMatchedJobs_st] re-state the
      two exported functions with allocation, reads and writes, and are
      related to the pure ones.

    Further parts of the code follow the matchers: [getMatchStatistics],
    the helpers [sortByJobRelevance] and [extractKeyRequirements] and
    the skill lists of [generatePersonalizedResumeForJob], and the
    [JobStore] of [jobScraperService.js], whose [getAllJobs] supplies
    the job collection. *)

From Stdlib Require Import String Ascii List ZArith QArith Qround Lia Lqa.
From Stdlib Require Import Sorting.Sorted.
From Stdlib Require PrimFloat Uint63.
From stdpp Require Import base option list strings pretty gmap.

Local Open Scope string_scope.
Local Open Scope Z_scope.
Local Open Scope list_scope.

(** ** JavaScript numbers *)

Inductive number : Type :=
  | Fin (q : Q)            (* a finite value *)
  | Inf (negative : bool)  (* +Infinity and -Infinity *)
  | NaN.

Definition of_Z (z : Z) : number := Fin (inject_Z z).
Definition of_nat (n : nat) : number := of_Z (Z.of_nat n).

Definition Qis_zero (q : Q) : bool := Qeq_bool q 0.
Definition Qis_neg (q : Q) : bool := negb (Qle_bool 0 q).

(** [a + b] *)
Definition num_add (a b : number) : number :=
  match a, b with
  | NaN, _ | _, NaN => NaN
  | Fin x, Fin y => Fin (Qred (x + y))
  | Fin _, Inf n | Inf n, Fin _ => Inf n
  | Inf n, Inf m => if Bool.eqb n m then Inf n else NaN
  end.

(** [a * b] *)
Definition num_mul (a b : number) : number :=
  match a, b with
  | NaN, _ | _, NaN => NaN
  | Fin x, Fin y => Fin (Qred (x * y))
  | Fin x, Inf n | Inf n, Fin x =>
      if Qis_zero x then NaN else Inf (xorb n (Qis_neg x))
  | Inf n, Inf m => Inf (xorb n m)
  end.

(** [a / b] *)
Definition num_div (a b : number) : number :=
  match a, b with
  | NaN, _ | _, NaN => NaN
  | Fin x, Fin y =>
      if Qis_zero y
      then (if Qis_zero x then NaN else Inf (Qis_neg x))
      else Fin (Qred (x / y))
  | Fin _, Inf _ => Fin 0
  | Inf n, Fin y => Inf (xorb n (Qis_neg y))
  | Inf _, Inf _ => NaN
  end.

Definition num_neg (a : number) : number :=
  match a with
  | Fin x => Fin (- x)
  | Inf n => Inf (negb n)
  | NaN => NaN
  end.

(** [a - b] *)
Definition num_sub (a b : number) : number := num_add a (num_neg b).

(** [a >= b]; every comparison with NaN is false. *)
Definition num_ge (a b : number) : bool :=
  match a, b with
  | NaN, _ | _, NaN => false
  | Fin x, Fin y => Qle_bool y x
  | Inf n, Inf m => implb n m
  | Inf n, Fin _ => negb n
  | Fin _, Inf m => m
  end.

(** [a > 0], as the sort uses the sign of its comparator; NaN counts
    as zero there. *)
Definition num_pos (a : number) : bool :=
  match a with
  | Fin x => negb (Qle_bool x 0)
  | Inf n => negb n
  | NaN => false
  end.

(** [Math.min(a, b)] *)
Definition Math_min (a b : number) : number :=
  match a, b with
  | NaN, _ | _, NaN => NaN
  | _, _ => if num_ge b a then a else b
  end.

(** [Math.round(a)]: the nearest integer, halves rounded up. *)
Definition Math_round (a : number) : number :=
  match a with
  | Fin x => of_Z (Qfloor (x + (1 # 2)))
  | _ => a
  end.

(** The order of numbers, for statements. *)
Definition num_le (a b : number) : Prop :=
  match a, b with
  | Fin x, Fin y => (x <= y)%Q
  | Inf n, Inf m => implb m n = true
  | Inf n, Fin _ => n = true
  | Fin _, Inf m => m = false
  | _, _ => False
  end.

(** ** JavaScript strings and arrays *)

(** A string value that may be [undefined]. *)
Definition value : Type := option string.
Definition undefined : value := None.

(** Truthiness of a string-or-undefined value: [undefined] and the
    empty string are falsy. *)
Definition truthy (v : value) : bool :=
  match v with
  | Some s => negb (String.eqb s "")
  | None => false
  end.

(** [`${v}`] *)
Definition to_str (v : value) : string := default "undefined" v.

Definition lower_ascii (c : ascii) : ascii :=
  let n := nat_of_ascii c in
  if (65 <=? n)%nat && (n <=? 90)%nat then ascii_of_nat (n + 32) else c.

(** [s.toLowerCase()] on ASCII text: the letters A-Z are folded, every
    other byte stays. *)
Fixpoint toLowerCase (s : string) : string :=
  match s with
  | EmptyString => EmptyString
  | String c s' => String (lower_ascii c) (toLowerCase s')
  end.

(** [s.includes(sub)] on strings *)
Fixpoint includes (s sub : string) : bool :=
  if String.prefix sub s then true
  else match s with
       | EmptyString => false
       | String _ s' => includes s' sub
       end.

(** [l.includes(x)] on arrays of strings *)
Definition Array_includes (l : list string) (x : string) : bool :=
  existsb (String.eqb x) l.

(** [l.join(sep)] *)
Fixpoint join (sep : string) (l : list string) : string :=
  match l with
  | [] => ""
  | [x] => x
  | x :: l' => x +:+ sep +:+ join sep l'
  end.

(** ** The data model *)

Record UserProfile : Type := {
  desiredPosition : option string;
  jobTypes : option (list string);
  currentLocation : option string;
  preferredLocations : option (list string);
  willingToRelocate : bool;
  remotePreference : option string;
  primarySkills : option (list string);
  secondarySkills : option (list string);
  experienceLevel : option string;
  yearsOfExperience : option number
}.

(** [isRemote] is true when the property is the boolean [true];
    [level] is the job's [experienceLevel]. *)
Record Job : Type := {
  title : string;
  company : string;
  location : string;
  type : string;
  category : option string;
  description : option string;
  isRemote : bool;
  level : option string;
  postedDate : string
}.

(** What a sub-matcher returns: [{ score, match, reason, issue }]. *)
Record SubMatch : Type := {
  score : number;
  match_ : bool;
  reason : value;
  issue : value
}.

(** ** [calculateJobCategoryMatch] *)

Definition categoryGroups : list (string * list string) :=
  [ ("tech", ["frontend"; "backend"; "full stack"; "fullstack"; "software";
              "developer"; "engineer"; "devops"; "mobile"; "ios"; "android";
              "react"; "node"; "python"; "java"; "web"; "data scientist";
              "data analyst"; "qa"; "quality"]);
    ("design", ["designer"; "ux"; "ui"; "graphic"; "creative"; "illustrator";
                "motion"]);
    ("finance", ["accountant"; "finance"; "financial"; "audit"; "payroll";
                 "tax"; "bookkeeper"; "controller"]);
    ("hr", ["hr"; "human resource"; "recruiter"; "recruitment";
            "talent acquisition"; "talent"]);
    ("marketing", ["marketing"; "seo"; "ppc"; "social media";
                   "content marketing"; "growth"]);
    ("sales", ["sales"; "account manager"; "business development"; "bd"]);
    ("support", ["customer support"; "customer service"; "help desk";
                 "technical support"; "virtual assistant"]);
    ("management", ["project manager"; "product manager"; "scrum master";
                    "team lead"; "operations manager"; "business analyst"]) ].

Definition compatibleCategories : list (string * list string) :=
  [ ("tech", ["tech"; "design"; "management"]);
    ("design", ["design"; "tech"; "marketing"]);
    ("finance", ["finance"]);
    ("hr", ["hr"]);
    ("marketing", ["marketing"; "design"; "sales"]);
    ("sales", ["sales"; "marketing"]);
    ("support", ["support"]);
    ("management", ["management"; "tech"]) ].

(** [table[key]] on an object literal used as a table: the own
    property [key], [None] when there is none.  Keys are category names
    and experience levels of the data model; the names that every
    object inherits ([constructor], [toString], ...) are not among
    them. *)
Fixpoint table_get {A : Type} (table : list (string * A)) (key : string)
  : option A :=
  match table with
  | [] => None
  | (k, v) :: rest => if String.eqb k key then Some v else table_get rest key
  end.

(** The [for ... of Object.entries(categoryGroups)] loop with its
    [break]: the first group one of whose keywords satisfies [test]. *)
Fixpoint first_category (test : string -> bool)
    (groups : list (string * list string)) : option string :=
  match groups with
  | [] => None
  | (category, keywords) :: rest =>
      if existsb test keywords then Some category
      else first_category test rest
  end.

Definition calculateJobCategoryMatch (userProfile : UserProfile) (job : Job)
  : SubMatch :=
  let desiredPosition := toLowerCase (default "" (desiredPosition userProfile)) in
  let jobTypes := map toLowerCase (default [] (jobTypes userProfile)) in
  let jobTitle := toLowerCase (title job) in
  let jobType := toLowerCase (type job) in
  let jobCategory := toLowerCase (default "" (category job)) in
  let userCategory :=
    first_category
      (fun kw => includes desiredPosition kw
                 || existsb (fun jt => includes jt kw) jobTypes)
      categoryGroups in
  let jobCategoryGroup :=
    first_category
      (fun kw => includes jobTitle kw || includes jobType kw
                 || includes jobCategory kw)
      categoryGroups in
  match userCategory, jobCategoryGroup with
  | Some userCategory, Some jobCategoryGroup =>
      let compatible :=
        default [userCategory] (table_get compatibleCategories userCategory) in
      if Array_includes compatible jobCategoryGroup then
        if String.eqb userCategory jobCategoryGroup then
          {| score := of_Z 20; match_ := true;
             reason := Some (type job +:+ " position matches your career path");
             issue := undefined |}
        else
          {| score := of_Z 10; match_ := true;
             reason := Some ("Related field: " +:+ type job);
             issue := undefined |}
      else
        {| score := of_Z 0; match_ := false; reason := undefined;
           issue := Some ("Job category (" +:+ jobCategoryGroup
                          +:+ ") doesn't match your desired field ("
                          +:+ userCategory +:+ ")") |}
  | _, _ =>
      {| score := of_Z 10; match_ := true; reason := Some ""; issue := undefined |}
  end.

(** ** [calculateLocationMatch] *)

(** [v === s] for a string literal [s] *)
Definition is_str (v : value) (s : string) : bool :=
  match v with
  | Some x => String.eqb x s
  | None => false
  end.

Definition calculateLocationMatch (userProfile : UserProfile) (job : Job)
  : SubMatch :=
  let jobLocation := toLowerCase (location job) in
  let userCurrentLocation := currentLocation userProfile in
  let currentLocation := toLowerCase <$> userCurrentLocation in
  let preferredLocations :=
    default [] (map toLowerCase <$> preferredLocations userProfile) in
  let remotePreference := remotePreference userProfile in
  let isRemoteJob :=
    includes jobLocation "remote"
    || includes jobLocation "hybrid"
    || isRemote job
    || default false
         ((fun d => includes (toLowerCase d) "remote") <$> description job) in
  let locationInPreferred :=
    existsb (fun loc => includes jobLocation loc) preferredLocations in
  if is_str remotePreference "remote" && negb isRemoteJob
     && negb locationInPreferred then
    {| score := of_Z 0; match_ := false; reason := undefined;
       issue := Some ("Job requires on-site presence in " +:+ location job
                      +:+ ", but you prefer remote work") |}
  else if is_str remotePreference "onsite" && isRemoteJob
          && negb (includes jobLocation "hybrid") then
    {| score := of_Z 10; match_ := false;
       reason := Some "Remote position (you prefer on-site)";
       issue := undefined |}
  else if isRemoteJob
          && (is_str remotePreference "remote"
              || is_str remotePreference "flexible"
              || is_str remotePreference "hybrid") then
    {| score := of_Z 25; match_ := true;
       reason := Some ("Remote position matching your "
                       +:+ to_str remotePreference +:+ " preference");
       issue := undefined |}
  else if locationInPreferred then
    {| score := of_Z 25; match_ := true;
       reason := Some ("Location " +:+ location job
                       +:+ " is in your preferred areas");
       issue := undefined |}
  else if truthy currentLocation
          && includes jobLocation (default "" currentLocation) then
    {| score := of_Z 20; match_ := true;
       reason := Some ("Job is in your current city ("
                       +:+ to_str userCurrentLocation +:+ ")");
       issue := undefined |}
  else if willingToRelocate userProfile then
    {| score := of_Z 15; match_ := true;
       reason :=
         Some "⚠️ Outside preferred locations, but you're open to relocation";
       issue := undefined |}
  else
    {| score := of_Z 0; match_ := false; reason := undefined;
       issue := Some ("Job location " +:+ location job
                      +:+ " doesn't match your preferences ("
                      +:+ join ", " preferredLocations +:+ ")") |}.

(** ** [calculateRemoteMatch] *)

Definition calculateRemoteMatch (userProfile : UserProfile) (job : Job)
  : SubMatch :=
  let remotePreference := remotePreference userProfile in
  let jobLocation := toLowerCase (location job) in
  let jobDescription := toLowerCase (default "" (description job)) in
  let isRemoteJob :=
    includes jobLocation "remote"
    || includes jobLocation "hybrid"
    || includes jobDescription "remote"
    || isRemote job in
  let isHybridJob :=
    includes jobLocation "hybrid" || includes jobDescription "hybrid" in
  if is_str remotePreference "remote" && isRemoteJob then
    {| score := of_Z 20; match_ := true;
       reason := Some "🏠 Fully remote position"; issue := undefined |}
  else if is_str remotePreference "hybrid" && (isHybridJob || isRemoteJob) then
    {| score := of_Z 20; match_ := true;
       reason := Some "🔄 Hybrid/flexible work arrangement";
       issue := undefined |}
  else if is_str remotePreference "flexible" then
    {| score := of_Z 15; match_ := true;
       reason := Some "✨ Flexible with work arrangement";
       issue := undefined |}
  else if is_str remotePreference "onsite" && negb isRemoteJob then
    {| score := of_Z 20; match_ := true;
       reason := Some "🏢 On-site position as preferred";
       issue := undefined |}
  else
    {| score := of_Z 10; match_ := false; reason := undefined;
       issue := undefined |}.

(** ** [calculateSkillsMatch] *)

Record SkillsMatch : Type := {
  skills_score : number;
  skills_reasons : list string;
  matchedSkills : list string
}.

(** The job text the skills are looked up in: the lower-cased title, a
    space, and the lower-cased description (empty when there is none). *)
Definition jobText (job : Job) : string :=
  let jobTitle := toLowerCase (title job) in
  let jobDescription := toLowerCase (default "" (description job)) in
  jobTitle +:+ " " +:+ jobDescription.

Definition calculateSkillsMatch (userProfile : UserProfile) (job : Job)
  : SkillsMatch :=
  let userSkills :=
    map toLowerCase
      (default [] (primarySkills userProfile)
       ++ default [] (secondarySkills userProfile)) in
  let jobText := jobText job in
  let matchedSkills :=
    List.filter (fun skill => includes jobText (toLowerCase skill)) userSkills in
  let primaryMatched :=
    List.filter (fun skill => includes jobText (toLowerCase skill))
      (default [] (primarySkills userProfile)) in
  let matchPercentage :=
    if (0 <? length userSkills)%nat
    then num_mul (num_div (of_nat (length matchedSkills))
                          (of_nat (length userSkills))) (of_Z 100)
    else of_Z 0 in
  let score :=
    Math_min (of_Z 25) (num_mul (num_div matchPercentage (of_Z 100)) (of_Z 25)) in
  let reasons : list string := [] in
  let reasons :=
    if (0 <? length primaryMatched)%nat
    then reasons ++ [pretty (length primaryMatched)
                     +:+ " of your primary skills match: "
                     +:+ join ", " (take 3 primaryMatched)]
    else reasons in
  let reasons :=
    if (length primaryMatched <? length matchedSkills)%nat
    then
      let secondaryMatched :=
        (length matchedSkills - length primaryMatched)%nat in
      reasons ++ [pretty secondaryMatched +:+ " additional skills match"]
    else reasons in
  {| skills_score := score; skills_reasons := reasons;
     matchedSkills := matchedSkills |}.

(** ** [calculateExperienceMatch] *)

Definition levelMap : list (string * list string) :=
  [ ("Internship", ["junior"]);
    ("Junior", ["junior"; "mid"]);
    ("Mid", ["junior"; "mid"; "senior"]);
    ("Senior", ["mid"; "senior"; "lead"]);
    ("Lead", ["senior"; "lead"]) ].

Definition calculateExperienceMatch (userProfile : UserProfile) (job : Job)
  : SubMatch :=
  let userLevel := experienceLevel userProfile in
  let jobLevel := level job in
  let acceptableLevels :=
    default ["mid"; "senior"] (table_get levelMap (to_str jobLevel)) in
  if match userLevel with
     | Some u => Array_includes acceptableLevels u
     | None => false
     end then
    {| score := of_Z 15; match_ := true;
       reason := Some ("Experience level matches (" +:+ to_str jobLevel
                       +:+ " position, you're " +:+ to_str userLevel +:+ ")");
       issue := undefined |}
  else if is_str userLevel "senior" && is_str jobLevel "Junior" then
    {| score := of_Z 5; match_ := false;
       reason := Some ("⚠️ You may be overqualified for this "
                       +:+ to_str jobLevel +:+ " position");
       issue := undefined |}
  else if is_str userLevel "junior" && is_str jobLevel "Senior" then
    {| score := of_Z 5; match_ := false;
       reason := Some ("⚠️ This " +:+ to_str jobLevel
                       +:+ " position may require more experience");
       issue := undefined |}
  else
    {| score := of_Z 10; match_ := true; reason := Some ""; issue := undefined |}.

(** ** [calculateJobTypeMatch] *)

Definition calculateJobTypeMatch (userProfile : UserProfile) (job : Job)
  : SubMatch :=
  let userJobTypes := map toLowerCase (default [] (jobTypes userProfile)) in
  let jobType := toLowerCase (type job) in
  if existsb (fun t => includes jobType t || includes t jobType) userJobTypes then
    {| score := of_Z 10; match_ := true;
       reason := Some (type job +:+ " matches your interests");
       issue := undefined |}
  else if Array_includes userJobTypes "full stack"
          && (includes jobType "frontend" || includes jobType "backend") then
    {| score := of_Z 8; match_ := true;
       reason := Some (type job +:+ " position (you're Full Stack)");
       issue := undefined |}
  else
    {| score := of_Z 5; match_ := false; reason := undefined;
       issue := undefined |}.

(** ** [calculateJobMatchScore] *)

Record MatchResult : Type := {
  mr_score : number;
  mr_reasons : list value;
  mr_issues : list value;
  mr_suitable : bool
}.

(** The tail of [calculateJobMatchScore], from the remote-preference
    step to the final [return], with the score [total], the [reasons] and
    [issues] accumulated so far. *)
Definition score_remaining (userProfile : UserProfile) (job : Job)
    (total : number) (reasons issues : list value) : MatchResult :=
  (* 2. Remote Preference Match *)
  let remoteScore := calculateRemoteMatch userProfile job in
  let total := num_add total (score remoteScore) in
  let reasons :=
    if match_ remoteScore then reasons ++ [reason remoteScore] else reasons in
  (* 3. Skills Match *)
  let skillsScore := calculateSkillsMatch userProfile job in
  let total := num_add total (skills_score skillsScore) in
  let reasons :=
    if (0 <? length (skills_reasons skillsScore))%nat
    then reasons ++ map Some (skills_reasons skillsScore)
    else reasons in
  (* 4. Experience Level Match *)
  let experienceScore := calculateExperienceMatch userProfile job in
  let total := num_add total (score experienceScore) in
  let reasons :=
    if match_ experienceScore then reasons ++ [reason experienceScore]
    else reasons in
  (* 5. Job Type Match *)
  let jobTypeScore := calculateJobTypeMatch userProfile job in
  let total := num_add total (score jobTypeScore) in
  let reasons :=
    if match_ jobTypeScore then reasons ++ [reason jobTypeScore]
    else reasons in
  {| mr_score := Math_round (Math_min (of_Z 100) total);
     mr_reasons := reasons;
     mr_issues := issues;
     mr_suitable := num_ge total (of_Z 40) |}.

Definition calculateJobMatchScore (userProfile : UserProfile) (job : Job)
  : MatchResult :=
  let total := of_Z 0 in
  let reasons : list value := [] in
  let issues : list value := [] in
  (* 0. Job Category Match - hard filter *)
  let categoryMatch := calculateJobCategoryMatch userProfile job in
  if negb (match_ categoryMatch) then
    {| mr_score := of_Z 0; mr_reasons := reasons;
       mr_issues := [issue categoryMatch]; mr_suitable := false |}
  else
    let total := num_add total (score categoryMatch) in
    let reasons :=
      if truthy (reason categoryMatch) then reasons ++ [reason categoryMatch]
      else reasons in
    (* 1. Location Match *)
    let locationScore := calculateLocationMatch userProfile job in
    let total := num_add total (score locationScore) in
    if match_ locationScore then
      score_remaining userProfile job total
        (reasons ++ [reason locationScore]) issues
    else if truthy (issue locationScore) then
      {| mr_score := of_Z 0; mr_reasons := reasons;
         mr_issues := issues ++ [issue locationScore]; mr_suitable := false |}
    else
      score_remaining userProfile job total reasons issues.

(** ** [getMatchedJobs] *)

(** [l.sort(compare)]: the stable sort that the language prescribes for
    a consistent comparator.  An element moves behind another exactly
    when the comparator is positive on the pair. *)
Fixpoint sort_insert {A : Type} (compare : A -> A -> number) (x : A)
    (l : list A) : list A :=
  match l with
  | [] => [x]
  | y :: l' =>
      if num_pos (compare x y) then y :: sort_insert compare x l'
      else x :: y :: l'
  end.

Fixpoint Array_sort {A : Type} (compare : A -> A -> number) (l : list A)
  : list A :=
  match l with
  | [] => []
  | x :: l' => sort_insert compare x (Array_sort compare l')
  end.

(** Truncation of a rational towards zero. *)
Definition Qtrunc (q : Q) : Z := if Qis_neg q then Qceiling q else Qfloor q.

(** [l.slice(0, end)]: [end] is truncated to an integer, NaN counts as
    0, and a negative [end] counts from the end of the array. *)
Definition Array_slice0 {A : Type} (l : list A) (end_ : number) : list A :=
  let len := Z.of_nat (length l) in
  let final :=
    match end_ with
    | NaN => 0
    | Inf true => 0
    | Inf false => len
    | Fin q =>
        let relativeEnd := Qtrunc q in
        if relativeEnd <? 0 then Z.max (len + relativeEnd) 0
        else Z.min relativeEnd len
    end in
  take (Z.to_nat final) l.

Record Options : Type := {
  minScore : option number;
  maxResults : option number;
  sortBy : option string
}.

(** [{ ...job, matchScore, matchReasons, matchIssues, suitable }] *)
Record ScoredJob : Type := {
  job_of : Job;
  matchScore : number;
  matchReasons : list value;
  matchIssues : list value;
  suitable : bool
}.

Record MatchedJobs : Type := {
  jobs : list ScoredJob;
  totalMatches : number;
  totalJobs : number;
  matchRate : number
}.

Definition score_job (userProfile : UserProfile) (job : Job) : ScoredJob :=
  let match_result := calculateJobMatchScore userProfile job in
  {| job_of := job;
     matchScore := mr_score match_result;
     matchReasons := mr_reasons match_result;
     matchIssues := mr_issues match_result;
     suitable := mr_suitable match_result |}.

Section GetMatchedJobs.

(** [new Date(s).getTime()]: the time value of a date string, NaN
    for a string that is not a date. *)
Variable Date_getTime : string -> number.

Definition compare_score (a b : ScoredJob) : number :=
  num_sub (matchScore b) (matchScore a).

Definition compare_date (a b : ScoredJob) : number :=
  num_sub (Date_getTime (postedDate (job_of b)))
          (Date_getTime (postedDate (job_of a))).

(** [allJobs] is what [getAllJobs()] returns. *)
Definition getMatchedJobs (allJobs : list Job) (userProfile : UserProfile)
    (options : Options) : MatchedJobs :=
  let minScore := default (of_Z 40) (minScore options) in
  let maxResults := default (of_Z 50) (maxResults options) in
  let sortBy := default "score" (sortBy options) in
  let jobsWithScores := map (score_job userProfile) allJobs in
  let suitableJobs :=
    List.filter (fun job => suitable job && num_ge (matchScore job) minScore)
      jobsWithScores in
  let suitableJobs :=
    if String.eqb sortBy "score"
    then Array_sort compare_score suitableJobs
    else Array_sort compare_date suitableJobs in
  let suitableJobs := Array_slice0 suitableJobs maxResults in
  {| jobs := suitableJobs;
     totalMatches := of_nat (length suitableJobs);
     totalJobs := of_nat (length allJobs);
     matchRate :=
       Math_round
         (num_mul (num_div (of_nat (length suitableJobs))
                           (of_nat (length allJobs)))
                  (of_Z 100)) |}.

End GetMatchedJobs.

(** * Notions used in the statements *)

(** A finite number between two bounds. *)
Definition fin_in (lo hi : Q) (n : number) : Prop :=
  exists q, n = Fin q /\ (lo <= q <= hi)%Q.

(** The user's skill list: the primary skills followed by the
    secondary ones. *)
Definition skill_list (p : UserProfile) : list string :=
  default [] (primarySkills p) ++ default [] (secondarySkills p).

(** A skill is matched when its lower-cased text occurs in the job
    text. *)
Definition skill_matches (j : Job) (skill : string) : bool :=
  includes (jobText j) (toLowerCase skill).

Definition matchedCount (p : UserProfile) (j : Job) : nat :=
  length (List.filter (skill_matches j) (skill_list p)).

(** The score as the code computes it, through the percentage. *)
Definition score_of_counts (m n : nat) : number :=
  let matchPercentage :=
    if (0 <? n)%nat
    then num_mul (num_div (of_nat m) (of_nat n)) (of_Z 100)
    else of_Z 0 in
  Math_min (of_Z 25) (num_mul (num_div matchPercentage (of_Z 100)) (of_Z 25)).

(** What the category step leaves in [reasons]. *)
Definition category_reasons (cat : SubMatch) : list value :=
  if truthy (reason cat) then [reason cat] else [].

(** The sum of the four component scores that [score_remaining] adds. *)
Definition remaining_sum (p : UserProfile) (j : Job) (total : number) : number :=
  num_add (num_add (num_add (num_add total
    (score (calculateRemoteMatch p j)))
    (skills_score (calculateSkillsMatch p j)))
    (score (calculateExperienceMatch p j)))
    (score (calculateJobTypeMatch p j)).

(** What a matcher contributes to [reasons]: its reason when it
    matched, nothing otherwise. *)
Definition pushed (m : SubMatch) : list value :=
  if match_ m then [reason m] else [].

(** [userProfile] with one more primary, or secondary, skill at the end
    of the list. *)
Definition add_primarySkill (skill : string) (p : UserProfile) : UserProfile :=
  {| desiredPosition := desiredPosition p;
     jobTypes := jobTypes p;
     currentLocation := currentLocation p;
     preferredLocations := preferredLocations p;
     willingToRelocate := willingToRelocate p;
     remotePreference := remotePreference p;
     primarySkills := Some (default [] (primarySkills p) ++ [skill]);
     secondarySkills := secondarySkills p;
     experienceLevel := experienceLevel p;
     yearsOfExperience := yearsOfExperience p |}.

Definition add_secondarySkill (skill : string) (p : UserProfile) : UserProfile :=
  {| desiredPosition := desiredPosition p;
     jobTypes := jobTypes p;
     currentLocation := currentLocation p;
     preferredLocations := preferredLocations p;
     willingToRelocate := willingToRelocate p;
     remotePreference := remotePreference p;
     primarySkills := primarySkills p;
     secondarySkills := Some (default [] (secondarySkills p) ++ [skill]);
     experienceLevel := experienceLevel p;
     yearsOfExperience := yearsOfExperience p |}.

(** The three reason strings that come with [match: false]. *)
Definition overqualified_reason : string :=
  "⚠️ You may be overqualified for this Junior position".
Definition underqualified_reason : string :=
  "⚠️ This Senior position may require more experience".
Definition onsite_soft_reason : string :=
  "Remote position (you prefer on-site)".

Definition cautionary_reasons : list string :=
  [overqualified_reason; underqualified_reason; onsite_soft_reason].

Definition cautionary (v : value) : Prop :=
  exists s, v = Some s /\ In s cautionary_reasons.

Definition is_digit (c : ascii) : bool :=
  (48 <=? nat_of_ascii c)%nat && (nat_of_ascii c <=? 57)%nat.

Definition head_digit (s : string) : bool :=
  match s with
  | String c _ => is_digit c
  | EmptyString => false
  end.

(** The integer a score stands for, and the integer time value of a
    job's posting date, as sort keys. *)
Definition number_key (n : number) : Z :=
  match n with
  | Fin q => Qfloor q
  | _ => 0
  end.

Definition score_key (x : ScoredJob) : Z := number_key (matchScore x).

Definition date_key (Date_getTime : string -> number) (x : ScoredJob) : Z :=
  number_key (Date_getTime (postedDate (job_of x))).

(** * Sample profiles, jobs and options *)

Definition profileA : UserProfile :=
  {| desiredPosition := Some "Frontend Developer";
     jobTypes := Some ["Frontend"];
     currentLocation := Some "Bratislava, Slovakia";
     preferredLocations := Some ["Bratislava, Slovakia"];
     willingToRelocate := false;
     remotePreference := Some "flexible";
     primarySkills := Some ["React"; "JavaScript"];
     secondarySkills := None;
     experienceLevel := Some "mid";
     yearsOfExperience := None |}.

Definition jobA : Job :=
  {| title := "Frontend Developer (React)"; company := "Acme";
     location := "Bratislava, Slovakia"; type := "Frontend";
     category := None; description := Some "React, JavaScript, HTML, CSS";
     isRemote := false; level := Some "Mid";
     postedDate := "2024-01-01T00:00:00.000Z" |}.

Definition profile_onsite : UserProfile :=
  {| desiredPosition := Some "Frontend Developer";
     jobTypes := Some ["Frontend"];
     currentLocation := Some "Bratislava, Slovakia";
     preferredLocations := Some ["Bratislava, Slovakia"];
     willingToRelocate := false;
     remotePreference := Some "onsite";
     primarySkills := Some ["React"; "JavaScript"];
     secondarySkills := None;
     experienceLevel := Some "senior";
     yearsOfExperience := None |}.

Definition profile_remote : UserProfile :=
  {| desiredPosition := Some "Frontend Developer";
     jobTypes := Some ["Frontend"];
     currentLocation := Some "Bratislava, Slovakia";
     preferredLocations := Some [];
     willingToRelocate := false;
     remotePreference := Some "remote";
     primarySkills := Some ["React"; "JavaScript"];
     secondarySkills := None;
     experienceLevel := Some "mid";
     yearsOfExperience := None |}.

Definition job_remote : Job :=
  {| title := "Frontend Developer"; company := "Acme";
     location := "Remote"; type := "Frontend";
     category := None; description := Some "React and CSS";
     isRemote := true; level := Some "Junior";
     postedDate := "2024-01-01T00:00:00.000Z" |}.

Definition job_payroll : Job :=
  {| title := "Payroll Specialist"; company := "Acme";
     location := "Bratislava, Slovakia"; type := "Finance";
     category := None; description := None;
     isRemote := false; level := Some "Mid";
     postedDate := "2024-01-02T00:00:00.000Z" |}.

Definition job_vienna : Job :=
  {| title := "Frontend Developer"; company := "Acme";
     location := "Vienna, Austria"; type := "Frontend";
     category := None; description := Some "React";
     isRemote := false; level := Some "Mid";
     postedDate := "2024-01-03T00:00:00.000Z" |}.

Definition jobA2 : Job :=
  {| title := "React Developer"; company := "Initech";
     location := "Bratislava, Slovakia"; type := "Frontend";
     category := None; description := Some "React";
     isRemote := false; level := Some "Mid";
     postedDate := "2024-01-05T00:00:00.000Z" |}.

Definition options_one : Options :=
  {| minScore := None; maxResults := Some (of_Z 1); sortBy := None |}.

Definition no_dates : string -> number := fun _ => NaN.

(** * The two exported functions over an explicit store

    Objects that the code creates or updates in place are cells of a
    store: the arrays [reasons] and [issues] that [push] extends, the
    copies [{ ...job, matchScore, ... }], and the arrays that [map],
    [filter] and [slice] create and [sort] reorders in place.  The user
    profile, the jobs and the array returned by [getAllJobs()] are
    cells too.  The sub-matchers only read properties of the profile
    and of the job; they are applied to the two objects as read from
    the store. *)

Definition addr : Type := positive.

Inductive object : Type :=
  | OProfile (p : UserProfile)
  | OJob (j : Job)
  | OStrings (l : list value)   (* an array of strings *)
  | OScored (j : Job) (matchScore : number) (matchReasons matchIssues : addr)
      (suitable : bool)         (* a job copy with its match properties *)
  | ORefs (l : list addr).      (* an array of objects *)

Abbreviation store := (gmap addr object).

(** Computations over the store; [None] is a run-time type error. *)
Definition M (A : Type) : Type := store -> option (A * store).

#[global] Instance M_ret : MRet M := fun A x σ => Some (x, σ).
#[global] Instance M_bind : MBind M := fun A B k m σ =>
  match m σ with
  | Some (x, σ') => k x σ'
  | None => None
  end.

Definition fail {A : Type} : M A := fun _ => None.

(** The store as it is, for code that only reads properties. *)
Definition snapshot : M store := fun σ => Some (σ, σ).

(** A new object, at an address that is not in use. *)
Definition alloc (o : object) : M addr := fun σ =>
  let a := fresh (dom σ) in Some (a, <[a := o]> σ).

Definition read (a : addr) : M object := fun σ =>
  match σ !! a with
  | Some o => Some (o, σ)
  | None => None
  end.

(** An update in place of the object at [a]. *)
Definition write (a : addr) (o : object) : M unit := fun σ =>
  match σ !! a with
  | Some _ => Some (tt, <[a := o]> σ)
  | None => None
  end.

Definition read_profile (a : addr) : M UserProfile :=
  o ← read a; match o with OProfile p => mret p | _ => fail end.

Definition read_job (a : addr) : M Job :=
  o ← read a; match o with OJob j => mret j | _ => fail end.

Definition read_refs (a : addr) : M (list addr) :=
  o ← read a; match o with ORefs l => mret l | _ => fail end.

(** [array.push(...vs)] *)
Definition push (a : addr) (vs : list value) : M unit :=
  o ← read a;
  match o with
  | OStrings l => write a (OStrings (l ++ vs))
  | _ => fail
  end.

(** A match result whose [reasons] and [issues] are arrays in the
    store. *)
Record MatchResultRef : Type := {
  ref_score : number;
  ref_reasons : addr;
  ref_issues : addr;
  ref_suitable : bool
}.

Definition score_remaining_st (p : UserProfile) (j : Job) (total : number)
    (reasons issues : addr) : M MatchResultRef :=
  let remoteScore := calculateRemoteMatch p j in
  let total := num_add total (score remoteScore) in
  _ ← (if match_ remoteScore then push reasons [reason remoteScore]
       else mret tt);
  let skillsScore := calculateSkillsMatch p j in
  let total := num_add total (skills_score skillsScore) in
  _ ← (if (0 <? length (skills_reasons skillsScore))%nat
       then push reasons (map Some (skills_reasons skillsScore))
       else mret tt);
  let experienceScore := calculateExperienceMatch p j in
  let total := num_add total (score experienceScore) in
  _ ← (if match_ experienceScore then push reasons [reason experienceScore]
       else mret tt);
  let jobTypeScore := calculateJobTypeMatch p j in
  let total := num_add total (score jobTypeScore) in
  _ ← (if match_ jobTypeScore then push reasons [reason jobTypeScore]
       else mret tt);
  mret {| ref_score := Math_round (Math_min (of_Z 100) total);
          ref_reasons := reasons;
          ref_issues := issues;
          ref_suitable := num_ge total (of_Z 40) |}.

Definition calculateJobMatchScore_st (userProfile job : addr)
  : M MatchResultRef :=
  p ← read_profile userProfile;
  j ← read_job job;
  let total := of_Z 0 in
  reasons ← alloc (OStrings []);
  issues ← alloc (OStrings []);
  let categoryMatch := calculateJobCategoryMatch p j in
  if negb (match_ categoryMatch) then
    rejected ← alloc (OStrings [issue categoryMatch]);
    mret {| ref_score := of_Z 0; ref_reasons := reasons;
            ref_issues := rejected; ref_suitable := false |}
  else
    let total := num_add total (score categoryMatch) in
    _ ← (if truthy (reason categoryMatch)
         then push reasons [reason categoryMatch] else mret tt);
    let locationScore := calculateLocationMatch p j in
    let total := num_add total (score locationScore) in
    if match_ locationScore then
      _ ← push reasons [reason locationScore];
      score_remaining_st p j total reasons issues
    else if truthy (issue locationScore) then
      _ ← push issues [issue locationScore];
      mret {| ref_score := of_Z 0; ref_reasons := reasons;
              ref_issues := issues; ref_suitable := false |}
    else
      score_remaining_st p j total reasons issues.

(** The match score of the object at [a], as [a.matchScore] reads it;
    NaN stands for a missing property. *)
Definition matchScore_at (σ : store) (a : addr) : number :=
  match σ !! a with
  | Some (OScored _ s _ _ _) => s
  | _ => NaN
  end.

Definition suitable_at (σ : store) (a : addr) : bool :=
  match σ !! a with
  | Some (OScored _ _ _ _ b) => b
  | _ => false
  end.

Definition postedDate_at (σ : store) (a : addr) : string :=
  match σ !! a with
  | Some (OScored j _ _ _ _) => postedDate j
  | _ => "undefined"
  end.

(** [allJobs.map(job => ({ ...job, matchScore: ..., ... }))], job by
    job. *)
Fixpoint score_all_st (userProfile : addr) (allJobs : list addr)
  : M (list addr) :=
  match allJobs with
  | [] => mret []
  | job :: rest =>
      match_result ← calculateJobMatchScore_st userProfile job;
      j ← read_job job;
      copy ← alloc (OScored j (ref_score match_result)
                      (ref_reasons match_result) (ref_issues match_result)
                      (ref_suitable match_result));
      copies ← score_all_st userProfile rest;
      mret (copy :: copies)
  end.

Record MatchedJobsRef : Type := {
  ref_jobs : addr;
  ref_totalMatches : number;
  ref_totalJobs : number;
  ref_matchRate : number
}.

Section GetMatchedJobsStore.

Variable Date_getTime : string -> number.

Definition getMatchedJobs_st (allJobs userProfile : addr) (options : Options)
  : M MatchedJobsRef :=
  let minScore := default (of_Z 40) (minScore options) in
  let maxResults := default (of_Z 50) (maxResults options) in
  let sortBy := default "score" (sortBy options) in
  all ← read_refs allJobs;
  copies ← score_all_st userProfile all;
  jobsWithScores ← alloc (ORefs copies);
  σ ← snapshot;
  suitableJobs ← alloc (ORefs
    (List.filter (fun job => suitable_at σ job
                             && num_ge (matchScore_at σ job) minScore)
       copies));
  kept ← read_refs suitableJobs;
  _ ← write suitableJobs (ORefs
        (if String.eqb sortBy "score"
         then Array_sort (fun a b => num_sub (matchScore_at σ b)
                                             (matchScore_at σ a)) kept
         else Array_sort (fun a b =>
                num_sub (Date_getTime (postedDate_at σ b))
                        (Date_getTime (postedDate_at σ a))) kept));
  sorted ← read_refs suitableJobs;
  sliced ← alloc (ORefs (Array_slice0 sorted maxResults));
  result ← read_refs sliced;
  mret {| ref_jobs := sliced;
          ref_totalMatches := of_nat (length result);
          ref_totalJobs := of_nat (length all);
          ref_matchRate :=
            Math_round
              (num_mul (num_div (of_nat (length result))
                                (of_nat (length all)))
                       (of_Z 100)) |}.

End GetMatchedJobsStore.

(** The job copy at [a] with its two arrays, read back as a value. *)
Definition view (σ : store) (a : addr) : option ScoredJob :=
  match σ !! a with
  | Some (OScored j s ar ai b) =>
      match σ !! ar, σ !! ai with
      | Some (OStrings lr), Some (OStrings li) =>
          Some {| job_of := j; matchScore := s; matchReasons := lr;
                  matchIssues := li; suitable := b |}
      | _, _ => None
      end
  | _ => None
  end.

(** A result in the store carries the values of the pure result [m]. *)
Definition agrees (r : MatchResultRef) (σ : store) (m : MatchResult) : Prop :=
  ref_score r = mr_score m
  /\ ref_suitable r = mr_suitable m
  /\ σ !! ref_reasons r = Some (OStrings (mr_reasons m))
  /\ σ !! ref_issues r = Some (OStrings (mr_issues m)).

(** A store with a profile, two jobs and the array of the two jobs. *)
Definition store_example : store :=
  <[1%positive := OProfile profileA]>
    (<[2%positive := OJob jobA]>
       (<[3%positive := OJob job_payroll]>
          (<[4%positive := ORefs [2%positive; 3%positive]]> ∅))).

(** * More of the code: statistics, resume helpers and the job store *)

(** ** Notions for the batch operation *)

(** The jobs that pass the filter of [getMatchedJobs]. *)
Definition passed_jobs (all : list Job) (p : UserProfile) (min : number)
  : list ScoredJob :=
  List.filter (fun x => suitable x && num_ge (matchScore x) min)
    (map (score_job p) all).

(** [getMatchedJobs] with every job that passed, in the order of the
    sort: [maxResults] is [Infinity]. *)
Definition options_all (min : option number) (by_ : option string) : Options :=
  {| minScore := min; maxResults := Some (Inf false); sortBy := by_ |}.

(** ** [getMatchStatistics] *)

(** The counters are natural numbers; [byType] and [byLocation] are
    objects used as maps from a string to a count. *)
Record MatchStatistics : Type := {
  total : nat;
  excellent : nat;
  good : nat;
  moderate : nat;
  low : nat;
  byType : gmap string nat;
  byLocation : gmap string nat;
  avgScore : number
}.

(** [s.split(',')[0]]: the part of [s] before its first comma. *)
Fixpoint before_comma (s : string) : string :=
  match s with
  | EmptyString => EmptyString
  | String c s' =>
      if Ascii.eqb c "," then EmptyString else String c (before_comma s')
  end.

(** The names that an object literal inherits from [Object.prototype];
    under such a name [counts[key]] is not a count. *)
Definition Object_prototype_keys : list string :=
  ["constructor"; "__defineGetter__"; "__defineSetter__"; "hasOwnProperty";
   "__lookupGetter__"; "__lookupSetter__"; "isPrototypeOf";
   "propertyIsEnumerable"; "toString"; "valueOf"; "__proto__";
   "toLocaleString"].

(** [counts[key] = (counts[key] || 0) + 1], for a key that is not in
    [Object_prototype_keys]. *)
Definition increment (key : string) (counts : gmap string nat)
  : gmap string nat :=
  <[key := S (default 0%nat (counts !! key))]> counts.

(** The body of the [forEach] in [getMatchStatistics], on the pair of
    [stats] and [totalScore]. *)
Definition count_job (userProfile : UserProfile)
    (acc : MatchStatistics * number) (job : Job) : MatchStatistics * number :=
  let '(stats, totalScore) := acc in
  let match_result := calculateJobMatchScore userProfile job in
  let totalScore := num_add totalScore (mr_score match_result) in
  let ge n := num_ge (mr_score match_result) (of_Z n) in
  let city := before_comma (location job) in
  ({| total := total stats;
      excellent := if ge 80 then S (excellent stats) else excellent stats;
      good := if ge 80 then good stats
              else if ge 60 then S (good stats) else good stats;
      moderate := if ge 80 then moderate stats
                  else if ge 60 then moderate stats
                  else if ge 40 then S (moderate stats) else moderate stats;
      low := if ge 80 then low stats
             else if ge 60 then low stats
             else if ge 40 then low stats else S (low stats);
      byType := increment (type job) (byType stats);
      byLocation := increment city (byLocation stats);
      avgScore := avgScore stats |},
   totalScore).

(** [allJobs] is what [getAllJobs()] returns. *)
Definition getMatchStatistics (allJobs : list Job) (userProfile : UserProfile)
  : MatchStatistics :=
  let stats :=
    {| total := length allJobs; excellent := 0; good := 0; moderate := 0;
       low := 0; byType := ∅; byLocation := ∅; avgScore := of_Z 0 |} in
  let totalScore := of_Z 0 in
  let '(stats, totalScore) :=
    fold_left (count_job userProfile) allJobs (stats, totalScore) in
  {| total := total stats; excellent := excellent stats; good := good stats;
     moderate := moderate stats; low := low stats; byType := byType stats;
     byLocation := byLocation stats;
     avgScore := Math_round (num_div totalScore (of_nat (length allJobs))) |}.

(** The number of jobs of [l] for which [f] holds. *)
Definition count_if (f : Job -> bool) (l : list Job) : nat :=
  length (List.filter f l).

(** The integer score of a job for a profile. *)
Definition job_score (p : UserProfile) (j : Job) : Z :=
  number_key (mr_score (calculateJobMatchScore p j)).

(** The four buckets, as conditions on the integer score. *)
Definition in_excellent (p : UserProfile) (j : Job) : bool := 80 <=? job_score p j.
Definition in_good (p : UserProfile) (j : Job) : bool :=
  (60 <=? job_score p j) && (job_score p j <? 80).
Definition in_moderate (p : UserProfile) (j : Job) : bool :=
  (40 <=? job_score p j) && (job_score p j <? 60).
Definition in_low (p : UserProfile) (j : Job) : bool := job_score p j <? 40.

Fixpoint sum_scores (p : UserProfile) (l : list Job) : Z :=
  match l with
  | [] => 0
  | j :: l' => job_score p j + sum_scores p l'
  end.

(** The tally of [key] over [l], on top of the counts [m]. *)
Definition tally (key : Job -> string) (l : list Job) (m : gmap string nat)
  : gmap string nat :=
  fold_left (fun m j => increment (key j) m) l m.

(** ** [sortByJobRelevance] and [extractKeyRequirements] *)

(** [jobDescription.includes(a.toLowerCase()) ? 1 : 0] *)
Definition relevance (jobDescription a : string) : number :=
  if includes jobDescription (toLowerCase a) then of_Z 1 else of_Z 0.

(** [items.sort(...)] reorders [items] in place and returns it; the
    function below gives the order of the items after the call. *)
Definition sortByJobRelevance (items : list string) (jobDescription : string)
  : list string :=
  Array_sort
    (fun a b =>
       let aRelevant := relevance jobDescription a in
       let bRelevant := relevance jobDescription b in
       num_sub bRelevant aRelevant)
    items.

Definition techKeywords : list string :=
  ["react"; "angular"; "vue"; "node"; "python"; "java"; "javascript";
   "typescript"; "aws"; "azure"; "gcp"; "docker"; "kubernetes"; "sql";
   "nosql"; "mongodb"; "agile"; "scrum"; "ci/cd"; "git"; "rest"; "graphql";
   "api"].

(** The [patterns] of the source are declared and never used. *)
Definition extractKeyRequirements (description : string) : list string :=
  List.filter (fun keyword => includes description keyword) techKeywords.

(** ** The skills of [generatePersonalizedResumeForJob] *)

(** The constants [matchingSkills], [otherSkills] and [orderedSkills]
    of [generatePersonalizedResumeForJob]. *)
Definition resume_matchingSkills (userProfile : UserProfile) (job : Job)
  : list string :=
  let jobTitle := title job in
  let jobDescription := toLowerCase (default "" (description job)) in
  let allUserSkills :=
    default [] (primarySkills userProfile)
    ++ default [] (secondarySkills userProfile) in
  List.filter
    (fun skill => includes jobDescription (toLowerCase skill)
                  || includes (toLowerCase jobTitle) (toLowerCase skill))
    allUserSkills.

Definition resume_otherSkills (userProfile : UserProfile) (job : Job)
  : list string :=
  let allUserSkills :=
    default [] (primarySkills userProfile)
    ++ default [] (secondarySkills userProfile) in
  let matchingSkills := resume_matchingSkills userProfile job in
  List.filter (fun skill => negb (Array_includes matchingSkills skill))
    allUserSkills.

Definition resume_orderedSkills (userProfile : UserProfile) (job : Job)
  : list string :=
  resume_matchingSkills userProfile job ++ resume_otherSkills userProfile job.

(** * The job store of the scraper service

    [getAllJobs()] returns the jobs of a process-wide [JobStore].  A
    stored job has, besides the properties that the matchers read, an
    id [jobId], a [url], the time it was scraped and, for some jobs, an
    application deadline. *)

Record StoredJob : Type := {
  job_data : Job;
  jobId : string;
  url : value;
  scrapedAt : string;
  applicationDeadline : value
}.

(** A [Map] with string keys: its entries in insertion order, with one
    entry per key. *)
Fixpoint Map_set {V : Type} (k : string) (v : V) (m : list (string * V))
  : list (string * V) :=
  match m with
  | [] => [(k, v)]
  | (k', v') :: m' =>
      if String.eqb k' k then (k, v) :: m' else (k', v') :: Map_set k v m'
  end.

Definition Map_delete {V : Type} (k : string) (m : list (string * V))
  : list (string * V) :=
  List.filter (fun e => negb (String.eqb (fst e) k)) m.

Definition Map_values {V : Type} (m : list (string * V)) : list V := map snd m.

(** [jobs] of the source is [store_jobs]; [null] is [undefined]. *)
Record JobStore : Type := {
  store_jobs : list (string * StoredJob);
  lastUpdate : value;
  seenUrls : gset value;
  lastExpirationCheck : value
}.

Definition JobStore_new : JobStore :=
  {| store_jobs := []; lastUpdate := undefined; seenUrls := ∅;
     lastExpirationCheck := undefined |}.

(** [`${job.title.toLowerCase()}_${job.company.toLowerCase()}`] *)
Definition jobKey (job : StoredJob) : string :=
  toLowerCase (title (job_data job)) +:+ "_"
  +:+ toLowerCase (company (job_data job)).

(** [addJob(job)]: the value returned and the store afterwards. *)
Definition addJob (job : StoredJob) (s : JobStore) : bool * JobStore :=
  if bool_decide (url job ∈ seenUrls s) then (false, s)
  else
    let existingJob :=
      find (fun j => String.eqb (jobKey j) (jobKey job))
        (Map_values (store_jobs s)) in
    match existingJob with
    | Some _ => (false, s)
    | None =>
        (true,
         {| store_jobs := Map_set (jobId job) job (store_jobs s);
            lastUpdate := lastUpdate s;
            seenUrls := {[url job]} ∪ seenUrls s;
            lastExpirationCheck := lastExpirationCheck s |})
    end.

Definition clearJobs (s : JobStore) : JobStore :=
  {| store_jobs := []; lastUpdate := lastUpdate s; seenUrls := ∅;
     lastExpirationCheck := lastExpirationCheck s |}.

(** [jobStore.clearJobs(); allJobs.forEach(job => jobStore.addJob(job))],
    as the scraper reloads the store. *)
Definition reload (allJobs : list StoredJob) (s : JobStore) : JobStore :=
  fold_left (fun s job => snd (addJob job s)) allJobs (clearJobs s).

(** [a < b]; every comparison with NaN is false. *)
Definition num_lt (a b : number) : bool :=
  match a, b with
  | NaN, _ | _, NaN => false
  | Fin x, Fin y => negb (Qle_bool y x)
  | Inf n, Inf m => n && negb m
  | Inf n, Fin _ => n
  | Fin _, Inf m => negb m
  end.

(** The time value of [new Date(t)] for a number [t]. *)
Definition TimeClip (t : number) : number :=
  match t with
  | Fin q =>
      if Qle_bool (inject_Z (- 8640000000000000)) q
         && Qle_bool q (inject_Z 8640000000000000)
      then of_Z (Qtrunc q) else NaN
  | _ => NaN
  end.

Section JobStoreDates.

Variable Date_getTime : string -> number.

(** [date.toISOString()] for the time value of a valid date. *)
Variable Date_toISOString : Z -> string.

(** [getAllJobs()] *)
Definition getAllJobs (s : JobStore) : list StoredJob :=
  Array_sort
    (fun a b => num_sub (Date_getTime (scrapedAt b)) (Date_getTime (scrapedAt a)))
    (Map_values (store_jobs s)).

(** [getJobsByCategory(category)]; [None] is the TypeError of
    [job.category.toLowerCase()] on a job without category. *)
Definition getJobsByCategory (category_ : string) (s : JobStore)
  : option (list StoredJob) :=
  if forallb (fun job => bool_decide (is_Some (category (job_data job))))
       (getAllJobs s)
  then Some (List.filter
               (fun job => includes
                             (toLowerCase (default "" (category (job_data job))))
                             (toLowerCase category_))
               (getAllJobs s))
  else None.

(** [shouldRemove] for a job, [now] being the time value of
    [new Date()]. *)
Definition shouldRemove (now : Z) (job : StoredJob) : bool :=
  let thirtyDaysAgo :=
    TimeClip (num_sub (of_Z now) (of_Z (30 * 24 * 60 * 60 * 1000))) in
  let postedDate := Date_getTime (postedDate (job_data job)) in
  num_lt postedDate thirtyDaysAgo
  || match applicationDeadline job with
     | Some d => negb (String.eqb d "") && num_lt (Date_getTime d) (of_Z now)
     | None => false
     end.

(** The keys and the urls that the loop removes for the entries
    [es]. *)
Definition removed_keys (now : Z) (es : list (string * StoredJob))
  : list string :=
  map fst (List.filter (fun e => shouldRemove now (snd e)) es).

Definition removed_urls (now : Z) (es : list (string * StoredJob))
  : gset value :=
  list_to_set
    (map (fun e => url (snd e))
       (List.filter (fun e => shouldRemove now (snd e)
                              && truthy (url (snd e))) es)).

(** The time a job was scraped, as an integer, for the order of
    [getAllJobs]. *)
Definition scraped_key (job : StoredJob) : Z :=
  number_key (Date_getTime (scrapedAt job)).

(** One step of the loop of [removeExpiredJobs], on the store and
    [removedCount]. *)
Definition remove_if_expired (now : Z) (acc : JobStore * nat)
    (entry : string * StoredJob) : JobStore * nat :=
  let '(s, removedCount) := acc in
  let '(key, job) := entry in
  if shouldRemove now job then
    ({| store_jobs := Map_delete key (store_jobs s);
        lastUpdate := lastUpdate s;
        seenUrls := if truthy (url job) then seenUrls s ∖ {[url job]}
                    else seenUrls s;
        lastExpirationCheck := lastExpirationCheck s |},
     S removedCount)
  else (s, removedCount).

(** [removeExpiredJobs()]: the count returned and the store
    afterwards. *)
Definition removeExpiredJobs (now : Z) (s : JobStore) : nat * JobStore :=
  let '(s', removedCount) :=
    fold_left (remove_if_expired now) (store_jobs s) (s, 0%nat) in
  (removedCount,
   {| store_jobs := store_jobs s'; lastUpdate := lastUpdate s';
      seenUrls := seenUrls s';
      lastExpirationCheck := Some (Date_toISOString now) |}).

(** The stores that the exported operations can produce. *)
Inductive reachable : JobStore -> Prop :=
  | reachable_new : reachable JobStore_new
  | reachable_addJob job s : reachable s -> reachable (snd (addJob job s))
  | reachable_clearJobs s : reachable s -> reachable (clearJobs s)
  | reachable_removeExpiredJobs now s :
      reachable s -> reachable (snd (removeExpiredJobs now s))
  | reachable_lastUpdate t s :
      reachable s ->
      reachable {| store_jobs := store_jobs s; lastUpdate := t;
                   seenUrls := seenUrls s;
                   lastExpirationCheck := lastExpirationCheck s |}.

End JobStoreDates.

(** What holds of every store: one entry per id, under the job's own
    id; no two jobs with the same key;
    no two jobs with the same url; every url of a stored job is
    seen. *)
Definition store_ok (s : JobStore) : Prop :=
  NoDup (map fst (store_jobs s))
  /\ (forall k job, In (k, job) (store_jobs s) -> k = jobId job)
  /\ NoDup (map jobKey (Map_values (store_jobs s)))
  /\ NoDup (map url (Map_values (store_jobs s)))
  /\ (forall job, In job (Map_values (store_jobs s)) -> url job ∈ seenUrls s).

(** ** Samples for the further properties *)

Definition profile_blank : UserProfile :=
  {| desiredPosition := None; jobTypes := None; currentLocation := None;
     preferredLocations := None; willingToRelocate := false;
     remotePreference := None; primarySkills := None;
     secondarySkills := None; experienceLevel := None;
     yearsOfExperience := None |}.

Definition job_backend : Job :=
  {| title := "JavaScript Developer"; company := "Globex";
     location := "Bratislava, Slovakia"; type := "Backend";
     category := Some "Tech"; description := Some "javascript and nosql";
     isRemote := false; level := Some "Mid";
     postedDate := "2024-01-10T00:00:00.000Z" |}.

(** The time values of the dates that the samples use. *)
Definition sample_dates : string -> number := fun s =>
  if String.eqb s "2024-01-01T00:00:00.000Z" then of_Z 1704067200000
  else if String.eqb s "2024-01-05T00:00:00.000Z" then of_Z 1704412800000
  else if String.eqb s "2024-01-10T00:00:00.000Z" then of_Z 1704844800000
  else NaN.

(** 2024-03-01T00:00:00.000Z *)
Definition sample_now : Z := 1709251200000.

Definition sample_toISOString : Z -> string := fun t =>
  if t =? sample_now then "2024-03-01T00:00:00.000Z" else "".

Definition stored_A : StoredJob :=
  {| job_data := jobA; jobId := "job_1";
     url := Some "https://jobs.example/1";
     scrapedAt := "2024-01-10T00:00:00.000Z";
     applicationDeadline := None |}.

Definition stored_B : StoredJob :=
  {| job_data := job_backend; jobId := "job_2";
     url := Some "https://jobs.example/2";
     scrapedAt := "2024-01-05T00:00:00.000Z";
     applicationDeadline := Some "2024-01-10T00:00:00.000Z" |}.

(** Two jobs whose keys are the same, [dev_ops_acme]. *)
Definition stored_C : StoredJob :=
  {| job_data :=
       {| title := "Dev"; company := "Ops_Acme"; location := "Remote";
          type := "Backend"; category := None; description := None;
          isRemote := true; level := None;
          postedDate := "2024-01-10T00:00:00.000Z" |};
     jobId := "job_3"; url := Some "https://jobs.example/3";
     scrapedAt := "2024-01-10T00:00:00.000Z";
     applicationDeadline := None |}.

Definition stored_D : StoredJob :=
  {| job_data :=
       {| title := "Dev_Ops"; company := "Acme"; location := "Remote";
          type := "Backend"; category := None; description := None;
          isRemote := true; level := None;
          postedDate := "2024-01-10T00:00:00.000Z" |};
     jobId := "job_4"; url := Some "https://jobs.example/4";
     scrapedAt := "2024-01-10T00:00:00.000Z";
     applicationDeadline := None |}.

Definition store_AB : JobStore :=
  {| store_jobs := [("job_1", stored_A); ("job_2", stored_B)];
     lastUpdate := undefined;
     seenUrls := {[url stored_A; url stored_B]};
     lastExpirationCheck := undefined |}.

Definition store_C : JobStore :=
  {| store_jobs := [("job_3", stored_C)]; lastUpdate := undefined;
     seenUrls := {[url stored_C]}; lastExpirationCheck := undefined |}.

(** * The skills score in the words of the specification

    The notions below are not taken from the code: they say what the
    specification calls a matched skill and what its formula gives, so
    that [calculateSkillsMatch] can be compared with them. *)







(** ** The arithmetic of the skills score in binary64

    The numbers of the language are binary64 floating-point numbers,
    and [(m / n) * 100 / 100 * 25] is rounded four times.  The
    primitive floats are binary64 with the same rounding. *)

(** An array length as a number; exact below 2^53. *)
Definition float_of_nat (n : nat) : PrimFloat.float :=
  PrimFloat.of_uint63 (Uint63.of_Z (Z.of_nat n)).

(** [Math.min(a, b)] on numbers that are not negative zero. *)
Definition Math_min64 (a b : PrimFloat.float) : PrimFloat.float :=
  if PrimFloat.is_nan a || PrimFloat.is_nan b then PrimFloat.nan
  else if PrimFloat.ltb b a then b else a.

(** [matchPercentage] and [score] of [calculateSkillsMatch], from
    [matchedSkills.length] and [userSkills.length]. *)
Definition skills_score_binary64 (matchedSkills_length userSkills_length : PrimFloat.float)
  : PrimFloat.float :=
  let matchPercentage :=
    if PrimFloat.ltb (float_of_nat 0) userSkills_length
    then PrimFloat.mul (PrimFloat.div matchedSkills_length userSkills_length)
           (float_of_nat 100)
    else float_of_nat 0 in
  Math_min64 (float_of_nat 25)
    (PrimFloat.mul (PrimFloat.div matchPercentage (float_of_nat 100))
       (float_of_nat 25)).

(** The formula of the specification, [min(25, (matched / total) * 25)]
    and 0 without skills, evaluated in binary64. *)
Definition spec_score_binary64 (matched total : PrimFloat.float) : PrimFloat.float :=
  if PrimFloat.ltb (float_of_nat 0) total
  then Math_min64 (float_of_nat 25)
         (PrimFloat.mul (PrimFloat.div matched total) (float_of_nat 25))
  else float_of_nat 0.




(** * Properties *)

(** ** Numbers *)

Lemma Qis_zero_false (q : Q) : ~ (q == 0)%Q -> Qis_zero q = false.
Proof.
  intros H. unfold Qis_zero. destruct (Qeq_bool q 0) eqn:E; [|reflexivity].
  apply Qeq_bool_eq in E. contradiction.
Qed.

Lemma fin_in_of_Z (z : Z) : fin_in (inject_Z z) (inject_Z z) (of_Z z).
Proof. exists (inject_Z z). split; [reflexivity|]. split; apply Qle_refl. Qed.

Lemma fin_in_weaken (lo hi lo' hi' : Q) (n : number) :
  fin_in lo hi n -> (lo' <= lo)%Q -> (hi <= hi')%Q -> fin_in lo' hi' n.
Proof.
  intros (q & -> & H1 & H2) Hlo Hhi. exists q. split; [reflexivity|].
  split; eapply Qle_trans; eauto.
Qed.

Lemma fin_in_add (a b c d : Q) (x y : number) :
  fin_in a b x -> fin_in c d y -> fin_in (a + c) (b + d) (num_add x y).
Proof.
  intros (p & -> & Hp1 & Hp2) (q & -> & Hq1 & Hq2).
  exists (Qred (p + q)). split; [reflexivity|].
  rewrite Qred_correct. split; apply Qplus_le_compat; assumption.
Qed.

Lemma Math_min_fin (x y : Q) :
  Math_min (Fin x) (Fin y) = if Qle_bool x y then Fin x else Fin y.
Proof. reflexivity. Qed.

Lemma Math_round_fin (x : Q) :
  Math_round (Fin x) = of_Z (Qfloor (x + (1 # 2))).
Proof. reflexivity. Qed.

Lemma num_ge_of_Z (a b : Z) : num_ge (of_Z a) (of_Z b) = (b <=? a).
Proof.
  unfold of_Z, num_ge. destruct (Z.leb_spec b a) as [H|H].
  - apply Qle_bool_iff. rewrite <- Zle_Qle. exact H.
  - destruct (Qle_bool (inject_Z b) (inject_Z a)) eqn:E; [|reflexivity].
    apply Qle_bool_iff in E. rewrite <- Zle_Qle in E. lia.
Qed.

(** Rounding the sum capped at 100: an integer between the bounds of
    the sum. *)
Lemma round_min_100 (lo : Z) (q : Q) :
  (inject_Z lo <= q)%Q -> lo <= 100 ->
  exists z, Math_round (Math_min (of_Z 100) (Fin q)) = of_Z z /\ lo <= z <= 100.
Proof.
  intros Hq Hlo. unfold of_Z at 1. rewrite Math_min_fin.
  destruct (Qle_bool (inject_Z 100) q) eqn:E; rewrite Math_round_fin.
  - exists 100. split; [reflexivity|lia].
  - exists (Qfloor (q + (1 # 2))). split; [reflexivity|].
    assert (Hlt : (q < inject_Z 100)%Q).
    { apply Qnot_le_lt. intros H. apply Qle_bool_iff in H. congruence. }
    split.
    + rewrite <- (Qfloor_Z lo). apply Qfloor_resp_le.
      eapply Qle_trans; [exact Hq|]. rewrite <- (Qplus_0_r q) at 1.
      apply Qplus_le_compat; [apply Qle_refl|discriminate].
    + change (Qfloor (q + (1 # 2)) <= Qfloor ((100 # 1) + (1 # 2))).
      apply Qfloor_resp_le. apply Qplus_le_compat; [|apply Qle_refl].
      apply Qlt_le_weak. exact Hlt.
Qed.

(** ** Strings *)

Lemma lower_ascii_idem (c : ascii) : lower_ascii (lower_ascii c) = lower_ascii c.
Proof. destruct c as [[] [] [] [] [] [] [] []]; reflexivity. Qed.

Lemma toLowerCase_idem (s : string) : toLowerCase (toLowerCase s) = toLowerCase s.
Proof.
  induction s as [|c s IH]; simpl; [reflexivity|].
  rewrite lower_ascii_idem, IH. reflexivity.
Qed.

(** ** The sub-matchers, case by case *)

Ltac split_ifs :=
  repeat match goal with
         | |- context [if ?b then _ else _] => destruct b eqn:?
         end.

(** Closes a goal made of conjunctions, disjunctions and existentials
    over equations that hold by computation. *)
Ltac close_case :=
  solve [ reflexivity
        | split; close_case
        | eexists; close_case
        | left; close_case
        | right; close_case ].

Ltac by_cases := split_ifs; cbn [score match_ reason issue]; close_case.

(** The category matcher either rejects, with score 0 and an issue, or
    accepts with 10 or 20 points and no issue. *)
Lemma category_cases (p : UserProfile) (j : Job) :
  let m := calculateJobCategoryMatch p j in
  (match_ m = false /\ score m = of_Z 0 /\ reason m = undefined
   /\ truthy (issue m) = true)
  \/ (match_ m = true /\ (score m = of_Z 10 \/ score m = of_Z 20)
      /\ issue m = undefined /\ exists s, reason m = Some s).
Proof.
  unfold calculateJobCategoryMatch. cbv zeta.
  destruct (first_category _ _) as [u|]; [|close_case].
  destruct (first_category _ _) as [g|]; [|close_case].
  by_cases.
Qed.

(** The location matcher: accepted with 15, 20 or 25 points and a
    reason; rejected with 0 points and an issue; or the on-site soft
    mismatch, 10 points, a reason and no issue. *)
Lemma location_cases (p : UserProfile) (j : Job) :
  let m := calculateLocationMatch p j in
  (match_ m = true
   /\ (score m = of_Z 15 \/ score m = of_Z 20 \/ score m = of_Z 25)
   /\ issue m = undefined /\ exists s, reason m = Some s)
  \/ (match_ m = false /\ score m = of_Z 0 /\ reason m = undefined
      /\ truthy (issue m) = true)
  \/ (match_ m = false /\ score m = of_Z 10 /\ issue m = undefined
      /\ reason m = Some "Remote position (you prefer on-site)").
Proof.
  unfold calculateLocationMatch. cbv zeta. by_cases.
Qed.

Lemma remote_cases (p : UserProfile) (j : Job) :
  let m := calculateRemoteMatch p j in
  (match_ m = true /\ (score m = of_Z 15 \/ score m = of_Z 20)
   /\ exists s, reason m = Some s)
  \/ (match_ m = false /\ score m = of_Z 10 /\ reason m = undefined).
Proof.
  unfold calculateRemoteMatch. cbv zeta. by_cases.
Qed.

Lemma experience_cases (p : UserProfile) (j : Job) :
  let m := calculateExperienceMatch p j in
  (match_ m = true /\ (score m = of_Z 10 \/ score m = of_Z 15)
   /\ exists s, reason m = Some s)
  \/ (match_ m = false /\ score m = of_Z 5
      /\ (reason m = Some "⚠️ You may be overqualified for this Junior position"
          \/ reason m
             = Some "⚠️ This Senior position may require more experience")).
Proof.
  unfold calculateExperienceMatch. cbv zeta.
  destruct (match experienceLevel p with Some _ => _ | None => _ end);
    [close_case|].
  destruct (is_str (experienceLevel p) "senior" && is_str (level j) "Junior")
    eqn:E1.
  { apply andb_prop in E1 as [_ E1].
    destruct (level j) as [l|]; [|discriminate]. simpl in E1.
    apply String.eqb_eq in E1. subst l. close_case. }
  destruct (is_str (experienceLevel p) "junior" && is_str (level j) "Senior")
    eqn:E2.
  { apply andb_prop in E2 as [_ E2].
    destruct (level j) as [l|]; [|discriminate]. simpl in E2.
    apply String.eqb_eq in E2. subst l. close_case. }
  close_case.
Qed.

Lemma jobType_cases (p : UserProfile) (j : Job) :
  let m := calculateJobTypeMatch p j in
  (match_ m = true /\ (score m = of_Z 8 \/ score m = of_Z 10)
   /\ exists s, reason m = Some s)
  \/ (match_ m = false /\ score m = of_Z 5 /\ reason m = undefined).
Proof.
  unfold calculateJobTypeMatch. cbv zeta. by_cases.
Qed.

(** ** The skills matcher *)

Lemma filter_map_lower (j : Job) (l : list string) :
  List.filter (fun skill => includes (jobText j) (toLowerCase skill))
    (map toLowerCase l)
  = map toLowerCase (List.filter (skill_matches j) l).
Proof.
  induction l as [|s l IH]; simpl; [reflexivity|].
  unfold skill_matches at 1. rewrite toLowerCase_idem.
  destruct (includes (jobText j) (toLowerCase s)); simpl; rewrite IH; reflexivity.
Qed.

Lemma matchedSkills_eq (p : UserProfile) (j : Job) :
  matchedSkills (calculateSkillsMatch p j)
  = map toLowerCase (List.filter (skill_matches j) (skill_list p)).
Proof. unfold calculateSkillsMatch. cbv zeta. simpl. apply filter_map_lower. Qed.

Lemma matchedCount_le (p : UserProfile) (j : Job) :
  (matchedCount p j <= length (skill_list p))%nat.
Proof. apply List.filter_length_le. Qed.

Lemma skills_score_counts (p : UserProfile) (j : Job) :
  skills_score (calculateSkillsMatch p j)
  = score_of_counts (matchedCount p j) (length (skill_list p)).
Proof.
  unfold calculateSkillsMatch, score_of_counts, matchedCount. cbv zeta. simpl.
  rewrite filter_map_lower. rewrite !length_map. reflexivity.
Qed.

Lemma inject_nat_pos (n : nat) : (0 < n)%nat -> (0 < inject_Z (Z.of_nat n))%Q.
Proof. intros H. change 0%Q with (inject_Z 0). rewrite <- Zlt_Qlt. lia. Qed.

Lemma num_div_nat (m n : nat) :
  (0 < n)%nat ->
  num_div (of_nat m) (of_nat n)
  = Fin (Qred (inject_Z (Z.of_nat m) / inject_Z (Z.of_nat n))).
Proof.
  intros H. unfold of_nat, of_Z, num_div. rewrite Qis_zero_false; [reflexivity|].
  intros E. pose proof (inject_nat_pos n H) as P. rewrite E in P.
  exact (Qlt_irrefl _ P).
Qed.

(** Multiplying by 100 and dividing by 100 again changes nothing. *)
Lemma percentage_cancel (a : Q) :
  num_mul (num_div (num_mul (Fin a) (of_Z 100)) (of_Z 100)) (of_Z 25)
  = num_mul (Fin a) (of_Z 25).
Proof.
  unfold of_Z. cbn [num_mul num_div].
  rewrite Qis_zero_false by discriminate. cbn [num_mul].
  f_equal. apply Qred_complete. rewrite !Qred_correct. field.
Qed.

Lemma score_of_counts_pos (m n : nat) :
  (0 < n)%nat ->
  score_of_counts m n
  = Math_min (of_Z 25) (num_mul (num_div (of_nat m) (of_nat n)) (of_Z 25)).
Proof.
  intros H. unfold score_of_counts. cbv zeta.
  destruct (Nat.ltb_spec 0 n) as [_|]; [|lia].
  rewrite num_div_nat by exact H. rewrite percentage_cancel. reflexivity.
Qed.

Lemma score_of_counts_zero (m : nat) : score_of_counts m 0 = of_Z 0.
Proof. reflexivity. Qed.

(** For at most [n] matches out of [n > 0] skills the score is the
    finite number [25 m / n], at most 25. *)
Lemma score_of_counts_fin (m n : nat) :
  (m <= n)%nat -> (0 < n)%nat ->
  exists q, score_of_counts m n = Fin q
            /\ (q == 25 * (inject_Z (Z.of_nat m) / inject_Z (Z.of_nat n)))%Q
            /\ (0 <= q <= 25)%Q.
Proof.
  intros Hmn Hn. rewrite score_of_counts_pos by exact Hn.
  rewrite num_div_nat by exact Hn.
  set (r := (inject_Z (Z.of_nat m) / inject_Z (Z.of_nat n))%Q).
  assert (Hr : (0 <= r <= 1)%Q).
  { pose proof (inject_nat_pos n Hn) as P. unfold r. split.
    - apply Qle_shift_div_l; [exact P|]. rewrite Qmult_0_l.
      change 0%Q with (inject_Z 0). rewrite <- Zle_Qle. lia.
    - apply Qle_shift_div_r; [exact P|]. rewrite Qmult_1_l.
      rewrite <- Zle_Qle. lia. }
  unfold of_Z. cbn [num_mul]. rewrite Math_min_fin.
  set (x := Qred (Qred r * inject_Z 25)).
  assert (Hx : (x == 25 * r)%Q).
  { unfold x. rewrite !Qred_correct. change (inject_Z 25) with 25%Q. ring. }
  destruct (Qle_bool (inject_Z 25) x) eqn:E.
  - apply Qle_bool_iff in E. change (inject_Z 25) with 25%Q in *.
    exists 25%Q. split; [reflexivity|]. split; [|lra]. lra.
  - exists x. split; [reflexivity|]. split; [exact Hx|]. lra.
Qed.

Lemma skills_score_fin (p : UserProfile) (j : Job) :
  fin_in 0 25 (skills_score (calculateSkillsMatch p j)).
Proof.
  rewrite skills_score_counts.
  destruct (length (skill_list p)) as [|n] eqn:E.
  - exists 0%Q. split; [reflexivity|]. lra.
  - destruct (score_of_counts_fin (matchedCount p j) (S n)) as (q & Hq & _ & Hb).
    + rewrite <- E. apply matchedCount_le.
    + lia.
    + exists q. split; assumption.
Qed.

(** ** The range of each component score *)

Lemma fin_in_Z (lo hi z : Z) :
  lo <= z <= hi -> fin_in (inject_Z lo) (inject_Z hi) (of_Z z).
Proof.
  intros [H1 H2]. exists (inject_Z z). split; [reflexivity|].
  rewrite <- !Zle_Qle. split; assumption.
Qed.

Lemma category_score_fin (p : UserProfile) (j : Job) :
  match_ (calculateJobCategoryMatch p j) = true ->
  fin_in (inject_Z 10) (inject_Z 20) (score (calculateJobCategoryMatch p j)).
Proof.
  intros Hm. destruct (category_cases p j) as [(H & _)|(_ & H & _)]; [congruence|].
  destruct H as [-> | ->]; apply fin_in_Z; lia.
Qed.

Lemma location_score_fin (p : UserProfile) (j : Job) :
  match_ (calculateLocationMatch p j) = true
  \/ truthy (issue (calculateLocationMatch p j)) = false ->
  fin_in (inject_Z 10) (inject_Z 25) (score (calculateLocationMatch p j)).
Proof.
  intros Hm.
  destruct (location_cases p j)
    as [(_ & H & _)|[(H1 & _ & _ & H2)|(_ & -> & _)]].
  - destruct H as [-> | [-> | ->]]; apply fin_in_Z; lia.
  - destruct Hm; congruence.
  - apply fin_in_Z; lia.
Qed.

Lemma remote_score_fin (p : UserProfile) (j : Job) :
  fin_in (inject_Z 10) (inject_Z 20) (score (calculateRemoteMatch p j)).
Proof.
  destruct (remote_cases p j) as [(_ & H & _)|(_ & -> & _)].
  - destruct H as [-> | ->]; apply fin_in_Z; lia.
  - apply fin_in_Z; lia.
Qed.

Lemma experience_score_fin (p : UserProfile) (j : Job) :
  fin_in (inject_Z 5) (inject_Z 15) (score (calculateExperienceMatch p j)).
Proof.
  destruct (experience_cases p j) as [(_ & H & _)|(_ & -> & _)].
  - destruct H as [-> | ->]; apply fin_in_Z; lia.
  - apply fin_in_Z; lia.
Qed.

Lemma jobType_score_fin (p : UserProfile) (j : Job) :
  fin_in (inject_Z 5) (inject_Z 10) (score (calculateJobTypeMatch p j)).
Proof.
  destruct (jobType_cases p j) as [(_ & H & _)|(_ & -> & _)].
  - destruct H as [-> | ->]; apply fin_in_Z; lia.
  - apply fin_in_Z; lia.
Qed.

(** ** The aggregate *)

Lemma score_remaining_fields (p : UserProfile) (j : Job) (total : number)
    (reasons issues : list value) :
  let r := score_remaining p j total reasons issues in
  mr_score r = Math_round (Math_min (of_Z 100) (remaining_sum p j total))
  /\ mr_issues r = issues
  /\ mr_suitable r = num_ge (remaining_sum p j total) (of_Z 40).
Proof. repeat split. Qed.

Lemma remaining_sum_fin (p : UserProfile) (j : Job) (total : number) (lo hi : Q) :
  fin_in lo hi total ->
  fin_in (lo + 20) (hi + 70) (remaining_sum p j total).
Proof.
  intros H. unfold remaining_sum.
  pose proof (fin_in_add _ _ _ _ _ _ H (remote_score_fin p j)) as H1.
  pose proof (fin_in_add _ _ _ _ _ _ H1 (skills_score_fin p j)) as H2.
  pose proof (fin_in_add _ _ _ _ _ _ H2 (experience_score_fin p j)) as H3.
  pose proof (fin_in_add _ _ _ _ _ _ H3 (jobType_score_fin p j)) as H4.
  eapply fin_in_weaken; [exact H4| |]; unfold inject_Z; lra.
Qed.

(** The three ways through [calculateJobMatchScore]. *)
Lemma aggregate_cases (p : UserProfile) (j : Job) :
  let cat := calculateJobCategoryMatch p j in
  let loc := calculateLocationMatch p j in
  let r := calculateJobMatchScore p j in
  (match_ cat = false
   /\ r = {| mr_score := of_Z 0; mr_reasons := [];
             mr_issues := [issue cat]; mr_suitable := false |})
  \/ (match_ cat = true /\ match_ loc = false /\ truthy (issue loc) = true
      /\ r = {| mr_score := of_Z 0; mr_reasons := category_reasons cat;
                mr_issues := [issue loc]; mr_suitable := false |})
  \/ (match_ cat = true
      /\ (match_ loc = true \/ truthy (issue loc) = false)
      /\ r = score_remaining p j
               (num_add (num_add (of_Z 0) (score cat)) (score loc))
               (category_reasons cat
                ++ (if match_ loc then [reason loc] else []))
               []).
Proof.
  cbv zeta. unfold calculateJobMatchScore. cbv zeta.
  unfold category_reasons.
  destruct (match_ (calculateJobCategoryMatch p j)); cbn [negb];
    [|left; split; reflexivity].
  right.
  destruct (match_ (calculateLocationMatch p j)).
  - right. split; [reflexivity|]. split; [left; reflexivity|].
    destruct (truthy (reason (calculateJobCategoryMatch p j))); reflexivity.
  - destruct (truthy (issue (calculateLocationMatch p j))).
    + left. repeat split.
    + right. split; [reflexivity|]. split; [right; reflexivity|].
      destruct (truthy (reason (calculateJobCategoryMatch p j))); reflexivity.
Qed.

(** Once both filters are passed the raw sum is a finite number
    between 40 and 115. *)
Lemma passed_sum_fin (p : UserProfile) (j : Job) :
  match_ (calculateJobCategoryMatch p j) = true ->
  match_ (calculateLocationMatch p j) = true
  \/ truthy (issue (calculateLocationMatch p j)) = false ->
  fin_in (inject_Z 40) (inject_Z 115)
    (remaining_sum p j
       (num_add (num_add (of_Z 0) (score (calculateJobCategoryMatch p j)))
                (score (calculateLocationMatch p j)))).
Proof.
  intros Hc Hl.
  pose proof (fin_in_add _ _ _ _ _ _ (fin_in_of_Z 0) (category_score_fin p j Hc))
    as H1.
  pose proof (fin_in_add _ _ _ _ _ _ H1 (location_score_fin p j Hl)) as H2.
  eapply fin_in_weaken; [exact (remaining_sum_fin p j _ _ _ H2)| |];
    unfold inject_Z; lra.
Qed.

(** C1: the result is suitable exactly when its score is at least 40
    and its list of issues is empty, that is, no hard filter fired. *)
Theorem suitable_iff_threshold (p : UserProfile) (j : Job) :
  let r := calculateJobMatchScore p j in
  mr_suitable r = true
  <-> (num_ge (mr_score r) (of_Z 40) = true /\ mr_issues r = []).
Proof.
  cbv zeta.
  destruct (aggregate_cases p j) as [(_ & ->)|[(_ & _ & _ & ->)|(Hc & Hl & ->)]].
  - cbn. split; [discriminate|]. intros [_ H]. discriminate.
  - cbn. split; [discriminate|]. intros [_ H]. discriminate.
  - destruct (score_remaining_fields p j
                (num_add (num_add (of_Z 0) (score (calculateJobCategoryMatch p j)))
                         (score (calculateLocationMatch p j)))
                (category_reasons (calculateJobCategoryMatch p j)
                 ++ (if match_ (calculateLocationMatch p j)
                     then [reason (calculateLocationMatch p j)] else []))
                []) as (Hs & Hi & Hb).
    rewrite Hs, Hi, Hb.
    destruct (passed_sum_fin p j Hc Hl) as (q & -> & Hq1 & Hq2).
    destruct (round_min_100 40 q Hq1) as (z & -> & Hz); [lia|].
    rewrite num_ge_of_Z.
    assert (Hge : num_ge (Fin q) (of_Z 40) = true)
      by (apply Qle_bool_iff; exact Hq1).
    rewrite Hge. split; [|reflexivity]. intros _. split; [|reflexivity].
    apply Z.leb_le. lia.
Qed.

(** The score of the result is an integer: 0 after a rejection,
    between 40 and 100 otherwise. *)
Lemma mr_score_integer (p : UserProfile) (j : Job) :
  exists z, mr_score (calculateJobMatchScore p j) = of_Z z
            /\ (z = 0 \/ 40 <= z <= 100).
Proof.
  destruct (aggregate_cases p j) as [(_ & ->)|[(_ & _ & _ & ->)|(Hc & Hl & ->)]].
  - exists 0. split; [reflexivity|lia].
  - exists 0. split; [reflexivity|lia].
  - destruct (passed_sum_fin p j Hc Hl) as (q & Hq & Hq1 & Hq2).
    destruct (round_min_100 40 q Hq1) as (z & Hz & Hb); [lia|].
    exists z. split; [|lia].
    cbn [score_remaining mr_score]. fold (remaining_sum p j
      (num_add (num_add (of_Z 0) (score (calculateJobCategoryMatch p j)))
               (score (calculateLocationMatch p j)))).
    rewrite Hq. exact Hz.
Qed.

(** C7: the score of the result is an integer between 0 and 100. *)
Theorem score_integer_0_100 (p : UserProfile) (j : Job) :
  exists z, mr_score (calculateJobMatchScore p j) = of_Z z /\ 0 <= z <= 100.
Proof.
  destruct (mr_score_integer p j) as (z & Hz & Hrange).
  exists z. split; [exact Hz|]. destruct Hrange as [-> | H]; lia.
Qed.

(** C4, as the code has it: the location score is one of 0, 10, 15, 20
    and 25; 10 is the on-site soft mismatch. *)
Theorem location_score_values (p : UserProfile) (j : Job) :
  let s := score (calculateLocationMatch p j) in
  s = of_Z 0 \/ s = of_Z 10 \/ s = of_Z 15 \/ s = of_Z 20 \/ s = of_Z 25.
Proof.
  cbv zeta.
  destruct (location_cases p j)
    as [(_ & H & _)|[(_ & H & _)|(_ & H & _)]]; tauto.
Qed.

(** C4 as stated fails: a user who prefers on-site work gets 10 points
    for a remote job. *)
Lemma location_score_10 :
  let s := score (calculateLocationMatch profile_onsite job_remote) in
  s = of_Z 10
  /\ ~ (s = of_Z 0 \/ s = of_Z 15 \/ s = of_Z 20 \/ s = of_Z 25).
Proof.
  cbv zeta. split; [reflexivity|].
  intros [H|[H|[H|H]]]; vm_compute in H; discriminate.
Qed.

(** ** Monotonicity of the skills score *)

Lemma ratio_mono (m n : nat) :
  (m <= n)%nat -> (0 < n)%nat ->
  (inject_Z (Z.of_nat m) / inject_Z (Z.of_nat n)
   <= inject_Z (Z.of_nat (S m)) / inject_Z (Z.of_nat (S n)))%Q.
Proof.
  intros Hmn Hn.
  rewrite !Nat2Z.inj_succ. unfold Z.succ. rewrite !inject_Z_plus.
  set (a := inject_Z (Z.of_nat m)). set (b := inject_Z (Z.of_nat n)).
  change (inject_Z 1) with 1%Q.
  assert (Hb : (0 < b)%Q) by (apply inject_nat_pos, Hn).
  assert (Ha : (0 <= a)%Q).
  { unfold a. change 0%Q with (inject_Z 0). rewrite <- Zle_Qle. lia. }
  assert (Hab : (a <= b)%Q) by (unfold a, b; rewrite <- Zle_Qle; lia).
  assert (Hr : (a / b <= 1)%Q).
  { apply Qle_shift_div_r; [exact Hb|]. lra. }
  apply Qle_shift_div_l; [lra|].
  assert (E : (a / b * (b + 1) == a + a / b)%Q).
  { field. intros E. rewrite E in Hb. exact (Qlt_irrefl _ Hb). }
  rewrite E. lra.
Qed.

Lemma score_of_counts_mono (m n : nat) :
  (m <= n)%nat ->
  num_le (score_of_counts m n) (score_of_counts (S m) (S n)).
Proof.
  intros Hmn. destruct n as [|n].
  - replace m with 0%nat by lia. vm_compute. discriminate.
  - destruct (score_of_counts_fin m (S n)) as (q & -> & Hq & _); [lia..|].
    destruct (score_of_counts_fin (S m) (S (S n))) as (q' & -> & Hq' & _);
      [lia..|].
    cbn [num_le]. rewrite Hq, Hq'.
    pose proof (ratio_mono m (S n) Hmn ltac:(lia)) as H. lra.
Qed.

Lemma skill_list_add_primary (s : string) (p : UserProfile) :
  skill_list (add_primarySkill s p)
  = (default [] (primarySkills p) ++ [s]) ++ default [] (secondarySkills p).
Proof. reflexivity. Qed.

Lemma skill_list_add_secondary (s : string) (p : UserProfile) :
  skill_list (add_secondarySkill s p)
  = default [] (primarySkills p) ++ (default [] (secondarySkills p) ++ [s]).
Proof. reflexivity. Qed.

Lemma counts_add_primary (s : string) (p : UserProfile) (j : Job) :
  skill_matches j s = true ->
  length (skill_list (add_primarySkill s p)) = S (length (skill_list p))
  /\ matchedCount (add_primarySkill s p) j = S (matchedCount p j).
Proof.
  intros H. unfold matchedCount. rewrite skill_list_add_primary.
  unfold skill_list. rewrite !List.filter_app, !length_app. cbn [List.filter].
  rewrite H. cbn [length]. lia.
Qed.

Lemma counts_add_secondary (s : string) (p : UserProfile) (j : Job) :
  skill_matches j s = true ->
  length (skill_list (add_secondarySkill s p)) = S (length (skill_list p))
  /\ matchedCount (add_secondarySkill s p) j = S (matchedCount p j).
Proof.
  intros H. unfold matchedCount. rewrite skill_list_add_secondary.
  unfold skill_list. rewrite !List.filter_app, !length_app. cbn [List.filter].
  rewrite H. cbn [length]. lia.
Qed.

(** C6: one more skill that occurs in the job text, appended to the
    primary or to the secondary skills, never lowers the skills
    score. *)
Theorem skills_score_monotone (p : UserProfile) (j : Job) (skill : string) :
  skill_matches j skill = true ->
  num_le (skills_score (calculateSkillsMatch p j))
         (skills_score (calculateSkillsMatch (add_primarySkill skill p) j))
  /\ num_le (skills_score (calculateSkillsMatch p j))
            (skills_score (calculateSkillsMatch (add_secondarySkill skill p) j)).
Proof.
  intros H. rewrite !skills_score_counts.
  destruct (counts_add_primary skill p j H) as [-> ->].
  destruct (counts_add_secondary skill p j H) as [-> ->].
  split; apply score_of_counts_mono, matchedCount_le.
Qed.

Lemma skills_score_monotone_witness :
  skill_matches job_remote "CSS" = true
  /\ num_le (skills_score (calculateSkillsMatch profile_onsite job_remote))
            (skills_score
               (calculateSkillsMatch (add_primarySkill "CSS" profile_onsite)
                  job_remote)).
Proof.
  split; [reflexivity|].
  apply (skills_score_monotone profile_onsite job_remote "CSS"). reflexivity.
Defined.

(** C2: a rejection by the category matcher or by the location matcher
    ends the computation with score 0, not suitable, the matcher's issue
    as the only issue and no reason from a later matcher; the on-site
    soft mismatch of the location matcher does not end it, and its 10
    points are part of the sum. *)
Theorem hard_filter_short_circuit (p : UserProfile) (j : Job) :
  let cat := calculateJobCategoryMatch p j in
  let loc := calculateLocationMatch p j in
  let r := calculateJobMatchScore p j in
  (match_ cat = false ->
   truthy (issue cat) = true
   /\ r = {| mr_score := of_Z 0; mr_reasons := [];
             mr_issues := [issue cat]; mr_suitable := false |})
  /\ (match_ cat = true -> match_ loc = false -> truthy (issue loc) = true ->
      r = {| mr_score := of_Z 0; mr_reasons := category_reasons cat;
             mr_issues := [issue loc]; mr_suitable := false |})
  /\ (match_ cat = true -> match_ loc = false -> issue loc = undefined ->
      score loc = of_Z 10
      /\ mr_score r
         = Math_round (Math_min (of_Z 100)
             (num_add (num_add (num_add (num_add
                (num_add (num_add (of_Z 0) (score cat)) (of_Z 10))
                (score (calculateRemoteMatch p j)))
                (skills_score (calculateSkillsMatch p j)))
                (score (calculateExperienceMatch p j)))
                (score (calculateJobTypeMatch p j))))
      /\ mr_issues r = []
      /\ mr_suitable r = true).
Proof.
  cbv zeta. split; [|split].
  - intros Hc.
    destruct (aggregate_cases p j) as [(_ & ->)|[(Hc' & _)|(Hc' & _)]];
      try congruence.
    split; [|reflexivity].
    destruct (category_cases p j) as [(_ & _ & _ & H)|(H & _)];
      [exact H|congruence].
  - intros Hc Hl Hi.
    destruct (aggregate_cases p j) as [(Hc' & _)|[(_ & _ & _ & ->)|(_ & H & _)]];
      [congruence|reflexivity|]. destruct H; congruence.
  - intros Hc Hl Hi.
    assert (Ht : truthy (issue (calculateLocationMatch p j)) = false)
      by (rewrite Hi; reflexivity).
    assert (Hs : score (calculateLocationMatch p j) = of_Z 10).
    { destruct (location_cases p j)
        as [(H & _)|[(_ & _ & _ & H)|(_ & H & _)]]; congruence. }
    split; [exact Hs|].
    destruct (aggregate_cases p j) as [(Hc' & _)|[(_ & _ & H & _)|(_ & _ & ->)]];
      [congruence..|].
    split; [rewrite <- Hs; reflexivity|]. split; [reflexivity|].
    cbn [score_remaining mr_suitable].
    destruct (passed_sum_fin p j Hc (or_intror Ht)) as (q & Hq & Hq1 & _).
    unfold remaining_sum in Hq. rewrite Hq.
    apply Qle_bool_iff. exact Hq1.
Qed.

Lemma hard_filter_short_circuit_witness :
  mr_score (calculateJobMatchScore profileA job_payroll) = of_Z 0
  /\ mr_score (calculateJobMatchScore profileA job_vienna) = of_Z 0
  /\ mr_suitable (calculateJobMatchScore profile_onsite job_remote) = true.
Proof.
  split; [|split].
  - destruct (proj1 (hard_filter_short_circuit profileA job_payroll)
                eq_refl) as [_ ->]. reflexivity.
  - rewrite (proj1 (proj2 (hard_filter_short_circuit profileA job_vienna))
               eq_refl eq_refl eq_refl). reflexivity.
  - apply (proj2 (proj2 (hard_filter_short_circuit profile_onsite job_remote))
             eq_refl eq_refl eq_refl).
Defined.

(** ** Where the reasons come from *)

Lemma score_remaining_reasons (p : UserProfile) (j : Job) (total : number)
    (reasons issues : list value) :
  mr_reasons (score_remaining p j total reasons issues)
  = reasons ++ pushed (calculateRemoteMatch p j)
    ++ map Some (skills_reasons (calculateSkillsMatch p j))
    ++ pushed (calculateExperienceMatch p j)
    ++ pushed (calculateJobTypeMatch p j).
Proof.
  unfold score_remaining, pushed. cbv zeta. cbn [mr_reasons].
  destruct (match_ (calculateRemoteMatch p j));
    destruct (skills_reasons (calculateSkillsMatch p j)) as [|s l];
    destruct (match_ (calculateExperienceMatch p j));
    destruct (match_ (calculateJobTypeMatch p j));
    cbn [length Nat.ltb Nat.leb map]; rewrite <- ?app_assoc, ?app_nil_r;
    reflexivity.
Qed.

(** The reasons and the issues of the result, path by path. *)
Lemma result_lists (p : UserProfile) (j : Job) :
  let cat := calculateJobCategoryMatch p j in
  let loc := calculateLocationMatch p j in
  let r := calculateJobMatchScore p j in
  (match_ cat = false /\ mr_reasons r = [] /\ mr_issues r = [issue cat])
  \/ (match_ cat = true /\ match_ loc = false /\ truthy (issue loc) = true
      /\ mr_reasons r = category_reasons cat /\ mr_issues r = [issue loc])
  \/ (match_ cat = true /\ mr_issues r = []
      /\ mr_reasons r
         = category_reasons cat ++ pushed loc
           ++ pushed (calculateRemoteMatch p j)
           ++ map Some (skills_reasons (calculateSkillsMatch p j))
           ++ pushed (calculateExperienceMatch p j)
           ++ pushed (calculateJobTypeMatch p j)).
Proof.
  cbv zeta.
  destruct (aggregate_cases p j) as [(H & ->)|[(H1 & H2 & H3 & ->)|(H1 & _ & ->)]].
  - left. repeat split. exact H.
  - right. left. repeat split; assumption.
  - right. right. split; [exact H1|]. split; [reflexivity|].
    rewrite score_remaining_reasons. unfold pushed at 1.
    rewrite <- app_assoc. reflexivity.
Qed.

Lemma prefix_app (a b : string) : String.prefix a (a +:+ b) = true.
Proof.
  induction a as [|c a IH]; simpl; [destruct b; reflexivity|].
  destruct (ascii_dec c c); [exact IH|contradiction].
Qed.

Lemma string_app_assoc (a b c : string) : (a +:+ b) +:+ c = a +:+ (b +:+ c).
Proof.
  induction a as [|x a IH]; [reflexivity|].
  change (String x ((a +:+ b) +:+ c) = String x (a +:+ (b +:+ c))).
  rewrite IH. reflexivity.
Qed.

Lemma rev_app_acc (s acc : string) :
  String.rev_app s acc = String.rev_app s "" +:+ acc.
Proof.
  revert acc. induction s as [|c s IH]; intros acc; simpl; [reflexivity|].
  rewrite (IH (String c acc)), (IH (String c "")), string_app_assoc.
  reflexivity.
Qed.

Lemma rev_app_app (s t acc : string) :
  String.rev_app (s +:+ t) acc = String.rev_app t (String.rev_app s acc).
Proof.
  revert acc. induction s as [|c s IH]; intros acc; simpl; [reflexivity|].
  apply IH.
Qed.

Lemma rev_suffix (x suf : string) :
  String.prefix (String.rev suf) (String.rev (x +:+ suf)) = true.
Proof.
  unfold String.rev. rewrite rev_app_app, (rev_app_acc suf (String.rev_app x "")).
  apply prefix_app.
Qed.

(** A string with a given beginning, or a given end, is none of the
    cautionary reasons when none of them begins, or ends, that way. *)
Lemma prefix_not_cautionary (pre x : string) :
  forallb (fun c => negb (String.prefix pre c)) cautionary_reasons = true ->
  ~ cautionary (Some (pre +:+ x)).
Proof.
  intros H (s & E & Hin). injection E as <-.
  rewrite forallb_forall in H. specialize (H _ Hin).
  rewrite prefix_app in H. discriminate.
Qed.

Lemma suffix_not_cautionary (x suf : string) :
  forallb (fun c => negb (String.prefix (String.rev suf) (String.rev c)))
    cautionary_reasons = true ->
  ~ cautionary (Some (x +:+ suf)).
Proof.
  intros H (s & E & Hin). injection E as <-.
  rewrite forallb_forall in H. specialize (H _ Hin).
  rewrite rev_suffix in H. discriminate.
Qed.

Lemma const_not_cautionary (s : string) :
  forallb (fun c => negb (String.eqb s c)) cautionary_reasons = true ->
  ~ cautionary (Some s).
Proof.
  intros H (s' & E & Hin). injection E as <-.
  rewrite forallb_forall in H. specialize (H _ Hin).
  rewrite String.eqb_refl in H. discriminate.
Qed.

Lemma undefined_not_cautionary : ~ cautionary undefined.
Proof. intros (s & E & _). discriminate. Qed.

Lemma head_digit_not_cautionary (s : string) :
  head_digit s = true -> ~ cautionary (Some s).
Proof.
  intros H (s' & E & Hin). injection E as <-.
  destruct Hin as [<-|[<-|[<-|[]]]]; vm_compute in H; discriminate.
Qed.

Lemma head_digit_app (s t : string) :
  head_digit s = true -> head_digit (s +:+ t) = true.
Proof. destruct s; [discriminate|]. intros H. exact H. Qed.

Lemma pretty_N_go_head_digit (x : N) (s : string) :
  head_digit s = true -> head_digit (pretty_N_go x s) = true.
Proof.
  revert s. induction (N.lt_wf_0 x) as [x _ IH]; intros s Hs.
  destruct (N.eq_dec x 0%N) as [->|Hx]; [exact Hs|].
  rewrite pretty_N_go_step by lia. apply IH.
  - apply N.div_lt; lia.
  - cbn [head_digit]. unfold pretty_N_char. repeat case_match; reflexivity.
Qed.

Lemma pretty_nat_head_digit (n : nat) : head_digit (pretty n) = true.
Proof.
  unfold pretty, pretty_nat, pretty, pretty_N.
  destruct (decide (N.of_nat n = 0%N)) as [_|Hx]; [reflexivity|].
  rewrite pretty_N_go_step by lia. apply pretty_N_go_head_digit.
  cbn [head_digit]. unfold pretty_N_char. repeat case_match; reflexivity.
Qed.

Ltac not_cautionary :=
  first [ apply undefined_not_cautionary
        | apply const_not_cautionary; reflexivity
        | apply prefix_not_cautionary; reflexivity
        | apply suffix_not_cautionary; reflexivity ].

Lemma category_reason_ok (p : UserProfile) (j : Job) :
  ~ cautionary (reason (calculateJobCategoryMatch p j))
  /\ ~ cautionary (issue (calculateJobCategoryMatch p j)).
Proof.
  unfold calculateJobCategoryMatch. cbv zeta.
  destruct (first_category _ _) as [u|];
    [|split; cbn [reason issue]; not_cautionary].
  destruct (first_category _ _) as [g|];
    [|split; cbn [reason issue]; not_cautionary].
  split_ifs; split; cbn [reason issue]; not_cautionary.
Qed.

Lemma location_reason_ok (p : UserProfile) (j : Job) :
  (match_ (calculateLocationMatch p j) = true ->
   ~ cautionary (reason (calculateLocationMatch p j)))
  /\ ~ cautionary (issue (calculateLocationMatch p j)).
Proof.
  unfold calculateLocationMatch. cbv zeta.
  split_ifs; split; cbn [reason issue match_]; try discriminate; intros;
    not_cautionary.
Qed.

Lemma remote_reason_ok (p : UserProfile) (j : Job) :
  ~ cautionary (reason (calculateRemoteMatch p j)).
Proof.
  unfold calculateRemoteMatch. cbv zeta.
  split_ifs; cbn [reason]; not_cautionary.
Qed.

Lemma experience_reason_ok (p : UserProfile) (j : Job) :
  match_ (calculateExperienceMatch p j) = true ->
  ~ cautionary (reason (calculateExperienceMatch p j)).
Proof.
  unfold calculateExperienceMatch. cbv zeta.
  split_ifs; cbn [reason match_]; try discriminate; intros; not_cautionary.
Qed.

Lemma jobType_reason_ok (p : UserProfile) (j : Job) :
  ~ cautionary (reason (calculateJobTypeMatch p j)).
Proof.
  unfold calculateJobTypeMatch. cbv zeta.
  split_ifs; cbn [reason]; not_cautionary.
Qed.

Lemma skills_reasons_ok (p : UserProfile) (j : Job) (s : string) :
  In s (skills_reasons (calculateSkillsMatch p j)) -> ~ cautionary (Some s).
Proof.
  unfold calculateSkillsMatch. cbv zeta. cbn [skills_reasons].
  intros H. apply head_digit_not_cautionary.
  repeat match type of H with
         | context [if ?b then _ else _] => destruct b
         end;
    cbn [app In] in H;
    repeat match type of H with
           | _ \/ _ => destruct H as [H|H]
           | False => destruct H
           end;
    subst s; apply head_digit_app, pretty_nat_head_digit.
Qed.

Lemma in_pushed (m : SubMatch) (v : value) :
  In v (pushed m) <-> match_ m = true /\ v = reason m.
Proof.
  unfold pushed. destruct (match_ m); cbn [In].
  - split; [intros [<-|[]]; auto|intros [_ ->]; auto].
  - split; [intros []|intros [H _]; discriminate].
Qed.

Lemma in_category_reasons (cat : SubMatch) (v : value) :
  In v (category_reasons cat) -> v = reason cat.
Proof.
  unfold category_reasons. destruct (truthy (reason cat)); cbn [In];
    [intros [<-|[]]; reflexivity|intros []].
Qed.

(** No reason and no issue of the result is one of the cautionary
    reasons. *)
Lemma result_not_cautionary (p : UserProfile) (j : Job) (v : value) :
  In v (mr_reasons (calculateJobMatchScore p j))
  \/ In v (mr_issues (calculateJobMatchScore p j)) ->
  ~ cautionary v.
Proof.
  destruct (category_reason_ok p j) as [Hcr Hci].
  destruct (location_reason_ok p j) as [Hlr Hli].
  destruct (result_lists p j)
    as [(_ & -> & ->)|[(_ & _ & _ & -> & ->)|(_ & -> & ->)]].
  - intros [[]|[<-|[]]]. exact Hci.
  - intros [H|[<-|[]]]; [|exact Hli].
    apply in_category_reasons in H. subst v. exact Hcr.
  - intros [H|[]]. rewrite !in_app_iff, !in_pushed, in_map_iff in H.
    destruct H as [H|[[Hm ->]|[[_ ->]|[(s & <- & Hs)|[[Hm ->]|[_ ->]]]]]].
    + apply in_category_reasons in H. subst v. exact Hcr.
    + apply Hlr, Hm.
    + apply remote_reason_ok.
    + apply (skills_reasons_ok p j s Hs).
    + apply experience_reason_ok, Hm.
    + apply jobType_reason_ok.
Qed.

(** C9: every reason of the result is the reason of a matcher that
    matched or one of the reasons of the skills matcher; the cautionary
    reason of the experience matcher and the on-site soft-mismatch
    reason of the location matcher, both returned with [match: false],
    are neither among the reasons nor among the issues. *)
Theorem reasons_provenance (p : UserProfile) (j : Job) :
  let cat := calculateJobCategoryMatch p j in
  let loc := calculateLocationMatch p j in
  let rem := calculateRemoteMatch p j in
  let sk := calculateSkillsMatch p j in
  let exp := calculateExperienceMatch p j in
  let jt := calculateJobTypeMatch p j in
  let r := calculateJobMatchScore p j in
  (forall v, In v (mr_reasons r) ->
     (match_ cat = true /\ v = reason cat)
     \/ (match_ loc = true /\ v = reason loc)
     \/ (match_ rem = true /\ v = reason rem)
     \/ (exists s, In s (skills_reasons sk) /\ v = Some s)
     \/ (match_ exp = true /\ v = reason exp)
     \/ (match_ jt = true /\ v = reason jt))
  /\ (match_ exp = false ->
      (reason exp = Some overqualified_reason
       \/ reason exp = Some underqualified_reason)
      /\ ~ In (reason exp) (mr_reasons r)
      /\ ~ In (reason exp) (mr_issues r))
  /\ (match_ loc = false -> issue loc = undefined ->
      reason loc = Some onsite_soft_reason
      /\ ~ In (reason loc) (mr_reasons r)
      /\ ~ In (reason loc) (mr_issues r)).
Proof.
  cbv zeta. split; [|split].
  - intros v Hv.
    destruct (result_lists p j)
      as [(_ & E & _)|[(Hc & _ & _ & E & _)|(Hc & _ & E)]]; rewrite E in Hv.
    + destruct Hv.
    + apply in_category_reasons in Hv. left. split; assumption.
    + rewrite !in_app_iff, !in_pushed, in_map_iff in Hv.
      destruct Hv as [H|[H|[H|[(s & <- & Hs)|[H|H]]]]]; try tauto.
      * apply in_category_reasons in H. left. split; assumption.
      * right. right. right. left. exists s. split; [exact Hs|reflexivity].
  - intros Hm.
    assert (Hc : cautionary (reason (calculateExperienceMatch p j))).
    { destruct (experience_cases p j) as [(H & _)|(_ & _ & [H|H])];
        [congruence| |]; rewrite H; eexists; (split; [reflexivity|]);
        cbn; tauto. }
    split.
    { destruct (experience_cases p j) as [(H & _)|(_ & _ & H)];
        [congruence|exact H]. }
    split; intros Hin;
      refine (result_not_cautionary p j _ _ Hc); [left|right]; exact Hin.
  - intros Hm Hi.
    assert (Hr : reason (calculateLocationMatch p j) = Some onsite_soft_reason).
    { destruct (location_cases p j)
        as [(H & _)|[(_ & _ & _ & H)|(_ & _ & _ & H)]];
        [congruence| |exact H]. rewrite Hi in H. discriminate. }
    split; [exact Hr|].
    assert (Hc : cautionary (reason (calculateLocationMatch p j))).
    { rewrite Hr. eexists. split; [reflexivity|]. cbn. tauto. }
    split; intros Hin;
      refine (result_not_cautionary p j _ _ Hc); [left|right]; exact Hin.
Qed.

Lemma reasons_provenance_witness :
  ~ In (Some overqualified_reason)
       (mr_reasons (calculateJobMatchScore profile_onsite job_remote))
  /\ ~ In (Some onsite_soft_reason)
          (mr_reasons (calculateJobMatchScore profile_onsite job_remote)).
Proof.
  split.
  - apply (proj1 (proj2 (reasons_provenance profile_onsite job_remote))
             eq_refl).
  - apply (proj2 (proj2 (reasons_provenance profile_onsite job_remote))
             eq_refl eq_refl).
Defined.

(** ** The store: what each step does *)

Lemma run_bind {A B : Type} (m : M A) (k : A -> M B) (σ : store) :
  (m ≫= k) σ = match m σ with Some (x, σ') => k x σ' | None => None end.
Proof. reflexivity. Qed.

Lemma run_ret {A : Type} (x : A) (σ : store) : (mret x : M A) σ = Some (x, σ).
Proof. reflexivity. Qed.

Lemma run_read (a : addr) (o : object) (σ : store) :
  σ !! a = Some o -> read a σ = Some (o, σ).
Proof. intros H. unfold read. rewrite H. reflexivity. Qed.

Lemma run_push (a : addr) (vs l : list value) (σ : store) :
  σ !! a = Some (OStrings l) ->
  push a vs σ = Some (tt, <[a := OStrings (l ++ vs)]> σ).
Proof.
  intros H. unfold push. rewrite run_bind, (run_read a _ σ H).
  unfold write. rewrite H. reflexivity.
Qed.

Lemma run_push_if (b : bool) (a : addr) (vs l : list value) (σ : store) :
  (if b then push a vs else mret tt) (<[a := OStrings l]> σ)
  = Some (tt, <[a := OStrings (if b then l ++ vs else l)]> σ).
Proof.
  destruct b; [|reflexivity].
  rewrite (run_push a vs l) by apply lookup_insert_eq.
  rewrite insert_insert_eq. reflexivity.
Qed.

Lemma run_score_remaining (p : UserProfile) (j : Job) (total : number)
    (reasons issues : addr) (lr li : list value) (σ : store) :
  score_remaining_st p j total reasons issues (<[reasons := OStrings lr]> σ)
  = let r := score_remaining p j total lr li in
    Some ({| ref_score := mr_score r; ref_reasons := reasons;
             ref_issues := issues; ref_suitable := mr_suitable r |},
          <[reasons := OStrings (mr_reasons r)]> σ).
Proof.
  unfold score_remaining_st, score_remaining. cbv zeta.
  rewrite run_bind, run_push_if.
  rewrite run_bind, run_push_if.
  rewrite run_bind, run_push_if.
  rewrite run_bind, run_push_if.
  rewrite run_ret. cbn [mr_score mr_reasons mr_suitable].
  reflexivity.
Qed.

Lemma run_alloc (o : object) (σ : store) :
  alloc o σ = Some (fresh (dom σ), <[fresh (dom σ) := o]> σ).
Proof. reflexivity. Qed.

Lemma fresh_lookup (σ : store) : σ !! fresh (dom σ) = None.
Proof. apply not_elem_of_dom, is_fresh. Qed.

Lemma run_read_profile (a : addr) (p : UserProfile) (σ : store) :
  σ !! a = Some (OProfile p) -> read_profile a σ = Some (p, σ).
Proof. intros H. unfold read_profile. rewrite run_bind, (run_read a _ σ H). reflexivity. Qed.

Lemma run_read_job (a : addr) (j : Job) (σ : store) :
  σ !! a = Some (OJob j) -> read_job a σ = Some (j, σ).
Proof. intros H. unfold read_job. rewrite run_bind, (run_read a _ σ H). reflexivity. Qed.

Lemma run_read_refs (a : addr) (l : list addr) (σ : store) :
  σ !! a = Some (ORefs l) -> read_refs a σ = Some (l, σ).
Proof. intros H. unfold read_refs. rewrite run_bind, (run_read a _ σ H). reflexivity. Qed.

Lemma run_calculateJobMatchScore (σ : store) (userProfile job : addr)
    (p : UserProfile) (j : Job) :
  σ !! userProfile = Some (OProfile p) ->
  σ !! job = Some (OJob j) ->
  exists r σ',
    calculateJobMatchScore_st userProfile job σ = Some (r, σ')
    /\ σ ⊆ σ'
    /\ (ref_reasons r ∉ dom σ) /\ (ref_issues r ∉ dom σ)
    /\ agrees r σ' (calculateJobMatchScore p j).
Proof.
  intros Hp Hj. unfold calculateJobMatchScore_st, calculateJobMatchScore.
  cbv zeta.
  rewrite run_bind, (run_read_profile _ _ _ Hp).
  rewrite run_bind, (run_read_job _ _ _ Hj).
  rewrite run_bind, run_alloc.
  pose proof (fresh_lookup σ) as Har. set (ar := fresh (dom σ)) in *.
  rewrite run_bind, run_alloc.
  pose proof (fresh_lookup (<[ar := OStrings []]> σ)) as Hai.
  set (ai := fresh (dom (<[ar := OStrings []]> σ))) in *.
  apply lookup_insert_None in Hai as [Hai Hne].
  assert (Hne' : ai ≠ ar) by congruence.
  assert (Hsub : forall x y, σ ⊆ <[ar := x]> (<[ai := y]> σ)).
  { intros x y. apply insert_subseteq_r; [exact Har|].
    apply insert_subseteq. exact Hai. }
  destruct (match_ (calculateJobCategoryMatch p j)); cbn [negb].
  - rewrite insert_insert_ne by exact Hne'.
    rewrite run_bind, run_push_if.
    destruct (match_ (calculateLocationMatch p j)).
    + rewrite run_bind, (run_push_if true).
      rewrite (run_score_remaining _ _ _ _ _ _ []).
      cbv zeta. eexists _, _. split; [reflexivity|].
      split; [apply Hsub|].
      split; [apply not_elem_of_dom; exact Har|].
      split; [apply not_elem_of_dom; exact Hai|].
      unfold agrees. cbn [ref_score ref_suitable ref_reasons ref_issues].
      split; [reflexivity|]. split; [reflexivity|].
      rewrite lookup_insert_eq, lookup_insert_ne by exact Hne.
      rewrite lookup_insert_eq. split; [|reflexivity].
      destruct (truthy (reason (calculateJobCategoryMatch p j))); reflexivity.
    + destruct (truthy (issue (calculateLocationMatch p j))).
      * rewrite run_bind, (run_push ai [_] [])
          by (rewrite lookup_insert_ne by exact Hne; apply lookup_insert_eq).
        rewrite run_ret. eexists _, _. split; [reflexivity|].
        split.
        { apply insert_subseteq_r; [exact Hai|]. apply Hsub. }
        split; [apply not_elem_of_dom; exact Har|].
        split; [apply not_elem_of_dom; exact Hai|].
        unfold agrees. cbn [ref_score ref_suitable ref_reasons ref_issues mr_score mr_suitable mr_reasons mr_issues].
        split; [reflexivity|]. split; [reflexivity|].
        rewrite lookup_insert_ne by exact Hne'.
        rewrite !lookup_insert_eq. split; [|reflexivity].
        destruct (truthy (reason (calculateJobCategoryMatch p j))); reflexivity.
      * rewrite (run_score_remaining _ _ _ _ _ _ []).
        cbv zeta. eexists _, _. split; [reflexivity|].
        split; [apply Hsub|].
        split; [apply not_elem_of_dom; exact Har|].
        split; [apply not_elem_of_dom; exact Hai|].
        unfold agrees. cbn [ref_score ref_suitable ref_reasons ref_issues].
        split; [reflexivity|]. split; [reflexivity|].
        rewrite lookup_insert_eq, lookup_insert_ne by exact Hne.
        rewrite lookup_insert_eq. split; [|reflexivity].
        destruct (truthy (reason (calculateJobCategoryMatch p j))); reflexivity.
  - rewrite run_bind, run_alloc.
    pose proof (fresh_lookup (<[ai := OStrings []]> (<[ar := OStrings []]> σ)))
      as Hrj.
    set (rj := fresh (dom (<[ai := OStrings []]> (<[ar := OStrings []]> σ)))) in *.
    apply lookup_insert_None in Hrj as [Hrj Hne1].
    apply lookup_insert_None in Hrj as [Hrj Hne2].
    rewrite run_ret. eexists _, _. split; [reflexivity|].
    split.
    { apply insert_subseteq_r; [exact Hrj|]. rewrite insert_insert_ne by exact Hne'. apply Hsub. }
    split; [apply not_elem_of_dom; exact Har|].
    split; [apply not_elem_of_dom; exact Hrj|].
    unfold agrees. cbn [ref_score ref_suitable ref_reasons ref_issues mr_score mr_suitable mr_reasons mr_issues].
    split; [reflexivity|]. split; [reflexivity|].
    rewrite lookup_insert_eq. split; [|reflexivity].
    rewrite lookup_insert_ne by congruence. rewrite lookup_insert_ne by congruence.
    apply lookup_insert_eq.
Qed.

Lemma view_weaken (σ σ' : store) (a : addr) (x : ScoredJob) :
  σ ⊆ σ' -> view σ a = Some x -> view σ' a = Some x.
Proof.
  intros Hsub. unfold view.
  destruct (σ !! a) as [[| | |j s ar ai b|]|] eqn:Ea; try discriminate.
  destruct (σ !! ar) as [[| |lr| |]|] eqn:Er; try discriminate.
  destruct (σ !! ai) as [[| |li| |]|] eqn:Ei; try discriminate.
  rewrite (lookup_weaken _ _ _ _ Ea Hsub), (lookup_weaken _ _ _ _ Er Hsub),
    (lookup_weaken _ _ _ _ Ei Hsub).
  trivial.
Qed.

Lemma view_fields (σ : store) (a : addr) (x : ScoredJob) :
  view σ a = Some x ->
  matchScore_at σ a = matchScore x
  /\ suitable_at σ a = suitable x
  /\ postedDate_at σ a = postedDate (job_of x).
Proof.
  unfold view, matchScore_at, suitable_at, postedDate_at.
  destruct (σ !! a) as [[| | |j s ar ai b|]|]; try discriminate.
  destruct (σ !! ar) as [[| |lr| |]|]; try discriminate.
  destruct (σ !! ai) as [[| |li| |]|]; try discriminate.
  intros [= <-]. repeat split.
Qed.

Lemma run_score_all (userProfile : addr) (p : UserProfile)
    (all : list addr) (js : list Job) :
  forall σ : store,
  σ !! userProfile = Some (OProfile p) ->
  Forall2 (fun a j => σ !! a = Some (OJob j)) all js ->
  exists copies σ',
    score_all_st userProfile all σ = Some (copies, σ')
    /\ σ ⊆ σ'
    /\ Forall (fun a => a ∉ dom σ) copies
    /\ Forall2 (fun a x => view σ' a = Some x) copies (map (score_job p) js).
Proof.
  intros σ Hp Hall. revert σ Hp Hall.
  revert js. induction all as [|a all IH]; intros js σ Hp Hall.
  - inversion Hall; subst. exists [], σ.
    split; [reflexivity|]. split; [reflexivity|]. split; constructor.
  - inversion Hall as [|? j ? js' Ha Hall']; subst.
    cbn [score_all_st].
    destruct (run_calculateJobMatchScore σ userProfile a p j Hp Ha)
      as (r & σ1 & Hrun & Hsub1 & Hfr & Hfi & Hs & Hb & Hr & Hi).
    rewrite run_bind, Hrun.
    rewrite run_bind, (run_read_job a j σ1)
      by exact (lookup_weaken _ _ _ _ Ha Hsub1).
    rewrite run_bind, run_alloc.
    pose proof (fresh_lookup σ1) as Hc. set (c := fresh (dom σ1)) in *.
    set (σ2 := <[c := OScored j (ref_score r) (ref_reasons r) (ref_issues r)
                        (ref_suitable r)]> σ1).
    assert (Hsub2 : σ1 ⊆ σ2) by (apply insert_subseteq; exact Hc).
    assert (Hsub : σ ⊆ σ2) by (etransitivity; eassumption).
    destruct (IH js' σ2) as (copies & σ' & Hrun' & Hsub' & Hfresh & Hview).
    { exact (lookup_weaken _ _ _ _ Hp Hsub). }
    { eapply Forall2_impl; [exact Hall'|]. intros x y H.
      exact (lookup_weaken _ _ _ _ H Hsub). }
    rewrite run_bind, Hrun', run_ret.
    exists (c :: copies), σ'. split; [reflexivity|].
    split; [etransitivity; eassumption|].
    split.
    + constructor.
      * intros Hin. apply elem_of_dom in Hin as [o Ho].
        rewrite (lookup_weaken _ _ _ _ Ho Hsub1) in Hc. discriminate.
      * eapply Forall_impl; [exact Hfresh|]. intros x Hx Hin. apply Hx.
        eapply subseteq_dom; [exact Hsub|exact Hin].
    + cbn [map]. constructor; [|exact Hview].
      apply (view_weaken σ2 σ'); [exact Hsub'|].
      unfold view, σ2. rewrite lookup_insert_eq.
      rewrite !lookup_insert_ne by congruence.
      rewrite Hr, Hi. unfold score_job. rewrite Hs, Hb. reflexivity.
Qed.

Section Related.
Context {A B : Type} (R : A -> B -> Prop).

Lemma filter_related (f : A -> bool) (g : B -> bool) (l : list A)
    (xs : list B) :
  (forall a x, R a x -> f a = g x) ->
  Forall2 R l xs -> Forall2 R (List.filter f l) (List.filter g xs).
Proof.
  intros Hfg H. induction H as [|a x l xs Hax _ IH]; [constructor|].
  cbn [List.filter]. rewrite (Hfg a x Hax).
  destruct (g x); [constructor; assumption|exact IH].
Qed.

Lemma sort_insert_related (c1 : A -> A -> number) (c2 : B -> B -> number)
    (a : A) (x : B) (l : list A) (xs : list B) :
  (forall a x b y, R a x -> R b y -> c1 a b = c2 x y) ->
  R a x -> Forall2 R l xs ->
  Forall2 R (sort_insert c1 a l) (sort_insert c2 x xs).
Proof.
  intros Hc Hax H. induction H as [|b y l xs Hby Hl IH].
  - repeat constructor. exact Hax.
  - cbn [sort_insert]. rewrite (Hc a x b y Hax Hby).
    destruct (num_pos (c2 x y)); repeat constructor; assumption.
Qed.

Lemma sort_related (c1 : A -> A -> number) (c2 : B -> B -> number)
    (l : list A) (xs : list B) :
  (forall a x b y, R a x -> R b y -> c1 a b = c2 x y) ->
  Forall2 R l xs -> Forall2 R (Array_sort c1 l) (Array_sort c2 xs).
Proof.
  intros Hc H. induction H as [|a x l xs Hax _ IH]; [constructor|].
  cbn [Array_sort]. apply sort_insert_related; assumption.
Qed.

Lemma slice_related (n : number) (l : list A) (xs : list B) :
  Forall2 R l xs -> Forall2 R (Array_slice0 l n) (Array_slice0 xs n).
Proof.
  intros H. unfold Array_slice0. rewrite (Forall2_length _ _ _ H).
  apply Forall2_take, H.
Qed.
End Related.

Lemma sort_insert_In {A : Type} (c : A -> A -> number) (x y : A) (l : list A) :
  In y (sort_insert c x l) -> y = x \/ In y l.
Proof.
  induction l as [|z l IH]; cbn [sort_insert In]; [intuition auto|].
  destruct (num_pos (c x z)); cbn [In]; intuition auto.
Qed.

Lemma Array_sort_In {A : Type} (c : A -> A -> number) (y : A) (l : list A) :
  In y (Array_sort c l) -> In y l.
Proof.
  induction l as [|z l IH]; cbn [Array_sort In]; [tauto|].
  intros H. apply sort_insert_In in H. destruct H; [left; congruence|tauto].
Qed.

Lemma Array_slice0_In {A : Type} (n : number) (y : A) (l : list A) :
  In y (Array_slice0 l n) -> In y l.
Proof.
  unfold Array_slice0. intros H. apply list_elem_of_In in H.
  apply list_elem_of_In. exact (subseteq_take _ l y H).
Qed.

Section StoreFacts.
Variable Date_getTime : string -> number.

Lemma run_getMatchedJobs (σ : store) (allJobs userProfile : addr)
    (options : Options) (p : UserProfile) (all : list addr) (js : list Job) :
  σ !! userProfile = Some (OProfile p) ->
  σ !! allJobs = Some (ORefs all) ->
  Forall2 (fun a j => σ !! a = Some (OJob j)) all js ->
  exists r σ' out,
    getMatchedJobs_st Date_getTime allJobs userProfile options σ = Some (r, σ')
    /\ σ ⊆ σ'
    /\ σ' !! ref_jobs r = Some (ORefs out)
    /\ (ref_jobs r ∉ dom σ)
    /\ Forall (fun a => a ∉ dom σ) out
    /\ Forall2 (fun a x => view σ' a = Some x) out
          (jobs (getMatchedJobs Date_getTime js p options))
    /\ ref_totalMatches r
        = totalMatches (getMatchedJobs Date_getTime js p options)
    /\ ref_totalJobs r = totalJobs (getMatchedJobs Date_getTime js p options)
    /\ ref_matchRate r = matchRate (getMatchedJobs Date_getTime js p options).
Proof.
  intros Hp Hall Hjs. unfold getMatchedJobs_st. cbv zeta.
  rewrite run_bind, (run_read_refs _ _ _ Hall).
  destruct (run_score_all userProfile p all js σ Hp Hjs)
    as (copies & σ1 & Hrun & Hsub1 & Hfresh & Hview).
  rewrite run_bind, Hrun.
  rewrite run_bind, run_alloc.
  pose proof (fresh_lookup σ1) as H1. set (a1 := fresh (dom σ1)) in *.
  set (σ2 := <[a1 := ORefs copies]> σ1).
  assert (Hsub2 : σ1 ⊆ σ2) by (apply insert_subseteq; exact H1).
  rewrite run_bind. unfold snapshot. cbn beta iota.
  rewrite run_bind, run_alloc.
  pose proof (fresh_lookup σ2) as H2. set (a2 := fresh (dom σ2)) in *.
  rewrite run_bind, (run_read_refs a2 _ _ (lookup_insert_eq _ _ _)).
  rewrite run_bind. unfold write at 1. rewrite lookup_insert_eq.
  rewrite insert_insert_eq.
  rewrite run_bind, (run_read_refs a2 _ _ (lookup_insert_eq _ _ _)).
  rewrite run_bind, run_alloc.
  match goal with
  | |- context [<[a2 := ?o]> σ2] => set (σ3 := <[a2 := o]> σ2)
  end.
  assert (Hsub3 : σ2 ⊆ σ3) by (apply insert_subseteq; exact H2).
  pose proof (fresh_lookup σ3) as H3. set (a3 := fresh (dom σ3)) in *.
  rewrite run_bind, (run_read_refs a3 _ _ (lookup_insert_eq _ _ _)).
  rewrite run_ret.
  match goal with
  | |- context [<[a3 := ORefs ?l]> σ3] =>
      set (out := l); set (σ4 := <[a3 := ORefs l]> σ3)
  end.
  assert (Hsub4 : σ3 ⊆ σ4) by (apply insert_subseteq; exact H3).
  assert (Hsub : σ ⊆ σ4).
  { etransitivity; [exact Hsub1|]. etransitivity; [exact Hsub2|].
    etransitivity; [exact Hsub3|exact Hsub4]. }
  assert (Hview2 : Forall2 (fun a x => view σ2 a = Some x) copies
                     (map (score_job p) js)).
  { eapply Forall2_impl; [exact Hview|]. intros a x H.
    exact (view_weaken _ _ _ _ Hsub2 H). }
  assert (Hout : Forall2 (fun a x => view σ2 a = Some x) out
                   (jobs (getMatchedJobs Date_getTime js p options))).
  { unfold out, getMatchedJobs. cbv zeta. cbn [jobs].
    apply slice_related.
    destruct (String.eqb (default "score" (sortBy options)) "score").
    - apply sort_related.
      + intros a x b y Ha Hb.
        destruct (view_fields _ _ _ Ha) as (-> & _).
        destruct (view_fields _ _ _ Hb) as (-> & _). reflexivity.
      + apply filter_related; [|exact Hview2].
        intros a x Ha. destruct (view_fields _ _ _ Ha) as (-> & -> & _).
        reflexivity.
    - apply sort_related.
      + intros a x b y Ha Hb.
        destruct (view_fields _ _ _ Ha) as (_ & _ & ->).
        destruct (view_fields _ _ _ Hb) as (_ & _ & ->). reflexivity.
      + apply filter_related; [|exact Hview2].
        intros a x Ha. destruct (view_fields _ _ _ Ha) as (-> & -> & _).
        reflexivity. }
  exists {| ref_jobs := a3;
            ref_totalMatches := of_nat (length out);
            ref_totalJobs := of_nat (length all);
            ref_matchRate :=
              Math_round (num_mul (num_div (of_nat (length out))
                                           (of_nat (length all)))
                                  (of_Z 100)) |}, σ4, out.
  split; [reflexivity|]. split; [exact Hsub|].
  cbn [ref_jobs ref_totalMatches ref_totalJobs ref_matchRate].
  split; [apply lookup_insert_eq|].
  split.
  { intros Hin. apply elem_of_dom in Hin as [o Ho].
    assert (Ho' : σ3 !! a3 = Some o).
    { eapply lookup_weaken; [exact Ho|]. etransitivity; [exact Hsub1|].
      etransitivity; [exact Hsub2|exact Hsub3]. }
    rewrite Ho' in H3. discriminate. }
  split.
  { apply Forall_forall. intros a Ha. unfold out in Ha.
    apply list_elem_of_In, Array_slice0_In in Ha.
    assert (Hc : In a copies).
    { destruct (String.eqb (default "score" (sortBy options)) "score");
        apply Array_sort_In in Ha; apply filter_In in Ha; tauto. }
    rewrite Forall_forall in Hfresh. apply Hfresh, list_elem_of_In, Hc. }
  split.
  { eapply Forall2_impl; [exact Hout|]. intros a x H.
    apply (view_weaken σ2 σ4); [|exact H].
    etransitivity; [exact Hsub3|exact Hsub4]. }
  pose proof (Forall2_length _ _ _ Hout) as Hlen.
  pose proof (Forall2_length _ _ _ Hjs) as Hlen'.
  unfold getMatchedJobs in *. cbv zeta in *.
  cbn [jobs totalMatches totalJobs matchRate] in *.
  rewrite Hlen, Hlen'. repeat split.
Qed.
End StoreFacts.

Section NeverMutates.
Variable Date_getTime : string -> number.

(** C8: neither function changes an object that exists when it is
    called: the profile, the job collection and every job are in the
    final store as they were; the jobs that [getMatchedJobs] returns
    are copies at addresses that were not in use, and they carry the
    values of the pure functions. *)
Theorem engine_never_mutates (σ : store) (allJobs userProfile : addr)
    (options : Options) (p : UserProfile) (all : list addr) (js : list Job) :
  σ !! userProfile = Some (OProfile p) ->
  σ !! allJobs = Some (ORefs all) ->
  Forall2 (fun a j => σ !! a = Some (OJob j)) all js ->
  (forall job j, σ !! job = Some (OJob j) ->
     exists r σ',
       calculateJobMatchScore_st userProfile job σ = Some (r, σ')
       /\ (forall a o, σ !! a = Some o -> σ' !! a = Some o)
       /\ agrees r σ' (calculateJobMatchScore p j))
  /\ (exists r σ' out,
        getMatchedJobs_st Date_getTime allJobs userProfile options σ
        = Some (r, σ')
        /\ (forall a o, σ !! a = Some o -> σ' !! a = Some o)
        /\ σ' !! ref_jobs r = Some (ORefs out)
        /\ σ !! ref_jobs r = None
        /\ Forall (fun a => σ !! a = None) out
        /\ Forall2 (fun a x => view σ' a = Some x) out
              (jobs (getMatchedJobs Date_getTime js p options))).
Proof.
  intros Hp Hall Hjs. split.
  - intros job j Hj.
    destruct (run_calculateJobMatchScore σ userProfile job p j Hp Hj)
      as (r & σ' & Hrun & Hsub & _ & _ & Hagree).
    exists r, σ'. split; [exact Hrun|]. split; [|exact Hagree].
    intros a o Ho. exact (lookup_weaken _ _ _ _ Ho Hsub).
  - destruct (run_getMatchedJobs Date_getTime σ allJobs userProfile options
                p all js Hp Hall Hjs)
      as (r & σ' & out & Hrun & Hsub & Hjobs & Hfr & Hfresh & Hview & _).
    exists r, σ', out. split; [exact Hrun|].
    split; [intros a o Ho; exact (lookup_weaken _ _ _ _ Ho Hsub)|].
    split; [exact Hjobs|].
    split; [apply not_elem_of_dom; exact Hfr|].
    split; [|exact Hview].
    eapply Forall_impl; [exact Hfresh|]. intros a Ha.
    apply not_elem_of_dom. exact Ha.
Qed.
End NeverMutates.

Lemma engine_never_mutates_witness :
  exists r σ' out,
    getMatchedJobs_st (fun _ => NaN) 4%positive 1%positive
      {| minScore := None; maxResults := None; sortBy := None |} store_example
    = Some (r, σ')
    /\ (forall a o, store_example !! a = Some o -> σ' !! a = Some o)
    /\ σ' !! ref_jobs r = Some (ORefs out)
    /\ store_example !! ref_jobs r = None
    /\ Forall (fun a => store_example !! a = None) out
    /\ Forall2 (fun a x => view σ' a = Some x) out
          (jobs (getMatchedJobs (fun _ => NaN) [jobA; job_payroll] profileA
                   {| minScore := None; maxResults := None; sortBy := None |})).
Proof.
  apply (engine_never_mutates (fun _ => NaN) store_example 4%positive
           1%positive _ profileA [2%positive; 3%positive] [jobA; job_payroll]).
  - reflexivity.
  - reflexivity.
  - repeat constructor.
Defined.

(** ** The batch operation *)

Lemma sort_insert_Permutation {A : Type} (c : A -> A -> number) (x : A)
    (l : list A) :
  Permutation (sort_insert c x l) (x :: l).
Proof.
  induction l as [|y l IH]; cbn [sort_insert]; [reflexivity|].
  destruct (num_pos (c x y)); [|reflexivity].
  rewrite IH. apply perm_swap.
Qed.

Lemma Array_sort_Permutation {A : Type} (c : A -> A -> number) (l : list A) :
  Permutation (Array_sort c l) l.
Proof.
  induction l as [|x l IH]; cbn [Array_sort]; [reflexivity|].
  rewrite sort_insert_Permutation. constructor. exact IH.
Qed.

Lemma num_pos_sub_of_Z (a b : Z) :
  num_pos (num_sub (of_Z b) (of_Z a)) = (a <? b).
Proof.
  unfold num_sub, of_Z, num_neg, num_add, num_pos.
  destruct (Z.ltb_spec a b) as [H|H].
  - apply negb_true_iff. destruct (Qle_bool _ _) eqn:E; [|reflexivity].
    apply Qle_bool_iff in E. rewrite Qred_correct in E.
    rewrite <- inject_Z_opp, <- inject_Z_plus in E.
    change 0%Q with (inject_Z 0) in E. rewrite <- Zle_Qle in E. lia.
  - apply negb_false_iff, Qle_bool_iff. rewrite Qred_correct.
    rewrite <- inject_Z_opp, <- inject_Z_plus.
    change 0%Q with (inject_Z 0). rewrite <- Zle_Qle. lia.
Qed.

Section SortByKey.
Context {A : Type} (key : A -> Z) (compare : A -> A -> number) (P : A -> Prop).
Hypothesis compare_key :
  forall x y, P x -> P y -> num_pos (compare x y) = (key x <? key y).

Lemma sort_insert_sorted (x : A) (l : list A) :
  P x -> Forall P l ->
  StronglySorted (fun a b => key b <= key a) l ->
  StronglySorted (fun a b => key b <= key a) (sort_insert compare x l).
Proof.
  intros Hx Hl Hs. induction Hs as [|y l Hs IH Hy]; cbn [sort_insert].
  - repeat constructor.
  - inversion Hl as [|? ? Py Pl]; subst.
    rewrite (compare_key x y Hx Py).
    destruct (Z.ltb_spec (key x) (key y)) as [H|H].
    + constructor; [apply IH; exact Pl|].
      rewrite (sort_insert_Permutation compare x l).
      constructor; [lia|exact Hy].
    + constructor; [constructor; assumption|].
      constructor; [exact H|].
      eapply Forall_impl; [exact Hy|]. cbn. intros a Ha. lia.
Qed.

Lemma Array_sort_sorted (l : list A) :
  Forall P l ->
  StronglySorted (fun a b => key b <= key a) (Array_sort compare l).
Proof.
  intros Hl. induction Hl as [|x l Hx Hl IH]; cbn [Array_sort]; [constructor|].
  apply sort_insert_sorted; [exact Hx| |exact IH].
  rewrite (Array_sort_Permutation compare l). exact Hl.
Qed.
End SortByKey.

Lemma Array_slice0_nat {A : Type} (l : list A) (k : nat) :
  Array_slice0 l (of_nat k) = take k l.
Proof.
  unfold Array_slice0, of_nat, of_Z, Qtrunc.
  assert (E : Qis_neg (inject_Z (Z.of_nat k)) = false).
  { unfold Qis_neg. apply negb_false_iff, Qle_bool_iff.
    change 0%Q with (inject_Z 0). rewrite <- Zle_Qle. lia. }
  rewrite E, Qfloor_Z.
  destruct (Z.ltb_spec (Z.of_nat k) 0) as [H|_]; [lia|].
  destruct (Z.min_spec (Z.of_nat k) (Z.of_nat (length l))) as [[H ->]|[H ->]].
  - rewrite Nat2Z.id. reflexivity.
  - rewrite Nat2Z.id. rewrite !take_ge by lia. reflexivity.
Qed.

Lemma number_key_of_Z (z : Z) : number_key (of_Z z) = z.
Proof. apply Qfloor_Z. Qed.

Lemma score_job_integer (p : UserProfile) (j : Job) :
  matchScore (score_job p j) = of_Z (score_key (score_job p j)).
Proof.
  unfold score_key, score_job. cbn [matchScore].
  destruct (mr_score_integer p j) as (z & -> & _).
  rewrite number_key_of_Z. reflexivity.
Qed.

Section GetMatchedJobsFacts.
Variable Date_getTime : string -> number.

(** X7: with [sortBy: 'score'] and a natural number as [maxResults], the
    jobs returned are the first [k] of the jobs that passed the filter,
    in descending order of score. *)
Lemma getMatchedJobs_by_score (all : list Job) (p : UserProfile)
    (min : number) (k : nat) :
  let r := getMatchedJobs Date_getTime all p
             {| minScore := Some min; maxResults := Some (of_nat k);
                sortBy := Some "score" |} in
  let passed :=
    List.filter (fun x => suitable x && num_ge (matchScore x) min)
      (map (score_job p) all) in
  exists sorted,
    Permutation sorted passed
    /\ StronglySorted (fun a b => score_key b <= score_key a) sorted
    /\ jobs r = take k sorted.
Proof.
  cbv zeta. unfold getMatchedJobs. cbv zeta. cbn [default jobs String.eqb].
  eexists. split; [apply Array_sort_Permutation|].
  split; [|apply Array_slice0_nat].
  apply (Array_sort_sorted score_key compare_score
           (fun x => matchScore x = of_Z (score_key x))).
  - intros x y Hx Hy. unfold compare_score. rewrite Hx, Hy.
    apply num_pos_sub_of_Z.
  - apply Forall_forall. intros x Hx.
    apply list_elem_of_In, filter_In in Hx as [Hx _].
    apply in_map_iff in Hx as (j & <- & _). apply score_job_integer.
Qed.

(** With another [sortBy] and posting dates that all are dates, they
    are in descending order of date. *)
Lemma getMatchedJobs_by_date (all : list Job) (p : UserProfile)
    (min : number) (k : nat) (by_ : string) :
  String.eqb by_ "score" = false ->
  Forall (fun j => exists t, Date_getTime (postedDate j) = of_Z t) all ->
  let r := getMatchedJobs Date_getTime all p
             {| minScore := Some min; maxResults := Some (of_nat k);
                sortBy := Some by_ |} in
  let passed :=
    List.filter (fun x => suitable x && num_ge (matchScore x) min)
      (map (score_job p) all) in
  exists sorted,
    Permutation sorted passed
    /\ StronglySorted
         (fun a b => date_key Date_getTime b <= date_key Date_getTime a) sorted
    /\ jobs r = take k sorted.
Proof.
  intros Hby Hdates. cbv zeta. unfold getMatchedJobs. cbv zeta.
  cbn [jobs sortBy minScore maxResults].
  change (default "score" (Some by_)) with by_. rewrite Hby.
  eexists. split; [apply Array_sort_Permutation|].
  split; [|apply Array_slice0_nat].
  apply (Array_sort_sorted (date_key Date_getTime) (compare_date Date_getTime)
           (fun x => Date_getTime (postedDate (job_of x))
                     = of_Z (date_key Date_getTime x))).
  - intros x y Hx Hy. unfold compare_date. rewrite Hx, Hy.
    apply num_pos_sub_of_Z.
  - apply Forall_forall. intros x Hx.
    apply list_elem_of_In, filter_In in Hx as [Hx _].
    apply in_map_iff in Hx as (j & <- & Hj).
    rewrite Forall_forall in Hdates.
    destruct (Hdates j (proj2 (list_elem_of_In _ _) Hj)) as (t & Ht).
    unfold date_key, score_job. cbn [job_of]. rewrite Ht, number_key_of_Z.
    reflexivity.
Qed.

(** C10: for an empty job collection the result has no jobs, both
    counts are 0, and the match rate is NaN: the division 0 / 0 is not
    guarded. *)
Theorem getMatchedJobs_empty (p : UserProfile) (options : Options) :
  getMatchedJobs Date_getTime [] p options
  = {| jobs := []; totalMatches := of_Z 0; totalJobs := of_Z 0;
       matchRate := NaN |}.
Proof.
  unfold getMatchedJobs. cbv zeta. cbn [map List.filter Array_sort].
  assert (E : forall n : number, Array_slice0 (@nil ScoredJob) n = []).
  { intros n. unfold Array_slice0. apply take_nil. }
  destruct (String.eqb _ _); rewrite E; reflexivity.
Qed.

(** The counts of the result are those of the list it returns. *)
Lemma getMatchedJobs_counts (all : list Job) (p : UserProfile)
    (options : Options) :
  let r := getMatchedJobs Date_getTime all p options in
  totalMatches r = of_nat (length (jobs r))
  /\ totalJobs r = of_nat (length all).
Proof. split; reflexivity. Qed.
End GetMatchedJobsFacts.

(** C3 at two matching jobs and [maxResults = 1]: both jobs pass the
    filter, one is returned, and [totalMatches] is 1 and [matchRate] 50
    where the number of jobs that passed gives 2 and 100. *)
Theorem getMatchedJobs_counts_after_slice :
  let r := getMatchedJobs no_dates [jobA; jobA2] profileA options_one in
  length (List.filter
            (fun job => suitable job && num_ge (matchScore job) (of_Z 40))
            (map (score_job profileA) [jobA; jobA2])) = 2%nat
  /\ length (jobs r) = 1%nat
  /\ totalMatches r = of_Z 1
  /\ totalJobs r = of_Z 2
  /\ matchRate r = of_Z 50.
Proof. vm_compute. repeat split. Qed.

(** ** The scenarios of the specification *)

(** Scenario A: a frontend profile and a matching frontend job. *)
Example scenario_A :
  score (calculateJobCategoryMatch profileA jobA) = of_Z 20
  /\ score (calculateLocationMatch profileA jobA) = of_Z 25
  /\ matchedSkills (calculateSkillsMatch profileA jobA) = ["react"; "javascript"]
  /\ skills_score (calculateSkillsMatch profileA jobA) = of_Z 25
  /\ score (calculateExperienceMatch profileA jobA) = of_Z 15
  /\ calculateJobMatchScore profileA jobA
     = {| mr_score := of_Z 100;
          mr_reasons :=
            [Some "Frontend position matches your career path";
             Some "Location Bratislava, Slovakia is in your preferred areas";
             Some "✨ Flexible with work arrangement";
             Some "2 of your primary skills match: React, JavaScript";
             Some "Experience level matches (Mid position, you're mid)";
             Some "Frontend matches your interests"];
          mr_issues := [];
          mr_suitable := true |}.
Proof. vm_compute. repeat split. Qed.

(** Scenario B: the same profile and a payroll job. *)
Example scenario_B :
  calculateJobMatchScore profileA job_payroll
  = {| mr_score := of_Z 0; mr_reasons := [];
       mr_issues :=
         [Some "Job category (finance) doesn't match your desired field (tech)"];
       mr_suitable := false |}.
Proof. vm_compute. reflexivity. Qed.

(** Scenario C: a remote-only profile and an on-site job elsewhere. *)
Example scenario_C :
  match_ (calculateLocationMatch profile_remote job_vienna) = false
  /\ calculateJobMatchScore profile_remote job_vienna
     = {| mr_score := of_Z 0;
          mr_reasons := [Some "Frontend position matches your career path"];
          mr_issues :=
            [Some "Job requires on-site presence in Vienna, Austria, but you prefer remote work"];
          mr_suitable := false |}.
Proof. vm_compute. repeat split. Qed.

(** Scenario D: without skills the skills score is 0. *)
Lemma scenario_D (p : UserProfile) (j : Job) :
  skill_list p = [] -> skills_score (calculateSkillsMatch p j) = of_Z 0.
Proof.
  intros H. rewrite skills_score_counts, H. apply score_of_counts_zero.
Qed.

(** Scenario E: a senior profile and a junior job: 5 points, no match,
    and the result is still suitable. *)
Example scenario_E :
  calculateExperienceMatch profile_onsite job_remote
  = {| score := of_Z 5; match_ := false;
       reason := Some overqualified_reason; issue := undefined |}
  /\ calculateJobMatchScore profile_onsite job_remote
     = {| mr_score := of_Z 68;
          mr_reasons :=
            [Some "Frontend position matches your career path";
             Some "1 of your primary skills match: React";
             Some "Frontend matches your interests"];
          mr_issues := [];
          mr_suitable := true |}.
Proof. vm_compute. repeat split. Qed.

(** * Further properties of the matchers *)

(** ** The aggregate score *)

(** X1: no result has a score from 1 to 39: after a rejection the score
    is 0 with exactly one issue, and a job that passes both filters is
    suitable with a score between 40 and 100. *)
Theorem score_zero_or_at_least_40 (p : UserProfile) (j : Job) :
  let r := calculateJobMatchScore p j in
  (mr_suitable r = false /\ mr_score r = of_Z 0
   /\ exists i, mr_issues r = [Some i])
  \/ (mr_suitable r = true /\ mr_issues r = []
      /\ exists z, mr_score r = of_Z z /\ 40 <= z <= 100).
Proof.
  cbv zeta.
  destruct (aggregate_cases p j) as [(Hc & ->)|[(_ & _ & Hi & ->)|(Hc & Hl & ->)]].
  - left. cbn. repeat split.
    destruct (category_cases p j) as [(_ & _ & _ & H)|(H & _)]; [|congruence].
    destruct (issue (calculateJobCategoryMatch p j)) as [i|]; [|discriminate].
    exists i. reflexivity.
  - left. cbn. repeat split.
    destruct (issue (calculateLocationMatch p j)) as [i|]; [|discriminate].
    exists i. reflexivity.
  - right. cbn [score_remaining mr_suitable mr_issues mr_score].
    destruct (passed_sum_fin p j Hc Hl) as (q & Hq & Hq1 & _).
    unfold remaining_sum in Hq. rewrite Hq.
    split; [apply Qle_bool_iff; exact Hq1|]. split; [reflexivity|].
    destruct (round_min_100 40 q Hq1) as (z & Hz & Hb); [lia|].
    exists z. split; [exact Hz|lia].
Qed.

(** X2: every reason and every issue of a result is a string, never
    [undefined]; there are at most seven reasons. *)
Theorem reasons_defined (p : UserProfile) (j : Job) :
  let r := calculateJobMatchScore p j in
  (forall v, In v (mr_reasons r ++ mr_issues r) -> exists s, v = Some s)
  /\ (length (mr_reasons r) <= 7)%nat.
Proof.
  cbv zeta.
  assert (Hcat : forall v, In v (category_reasons (calculateJobCategoryMatch p j))
                           -> exists s, v = Some s).
  { intros v Hv. unfold category_reasons in Hv.
    destruct (reason (calculateJobCategoryMatch p j)) as [s|]; [|destruct Hv].
    destruct (truthy (Some s)); [|destruct Hv].
    destruct Hv as [<-|[]]. exists s. reflexivity. }
  assert (Hiss : forall m : SubMatch, truthy (issue m) = true
                                      -> exists s, issue m = Some s).
  { intros m H. destruct (issue m) as [s|]; [exists s; reflexivity|discriminate]. }
  assert (Hpush : forall m : SubMatch,
             (match_ m = true -> exists s, reason m = Some s) ->
             forall v, In v (pushed m) -> exists s, v = Some s).
  { intros m Hm v Hv. apply in_pushed in Hv as [Ht ->]. exact (Hm Ht). }
  assert (Hlen : forall m : SubMatch, (length (pushed m) <= 1)%nat).
  { intros m. unfold pushed. destruct (match_ m); cbn; lia. }
  assert (Hclen : (length (category_reasons (calculateJobCategoryMatch p j)) <= 1)%nat).
  { unfold category_reasons. destruct (truthy _); cbn; lia. }
  assert (Hsk : (length (skills_reasons (calculateSkillsMatch p j)) <= 2)%nat).
  { unfold calculateSkillsMatch. cbv zeta. cbn [skills_reasons].
    split_ifs; cbn; lia. }
  destruct (result_lists p j)
    as [(Hc & -> & ->)|[(_ & _ & Hi & -> & ->)|(_ & -> & ->)]].
  - split; [|cbn; lia]. intros v [<-|[]].
    destruct (category_cases p j) as [(_ & _ & _ & H)|(H & _)]; [|congruence].
    exact (Hiss _ H).
  - split; [|lia]. intros v Hv. apply in_app_iff in Hv as [Hv|[<-|[]]].
    + exact (Hcat v Hv).
    + exact (Hiss _ Hi).
  - split.
    + intros v Hv. rewrite app_nil_r in Hv.
      rewrite !in_app_iff in Hv.
      destruct Hv as [Hv|[Hv|[Hv|[Hv|[Hv|Hv]]]]].
      * exact (Hcat v Hv).
      * revert v Hv. apply Hpush. intros Hm.
        destruct (location_cases p j) as [(_ & _ & _ & H)|[(H & _)|(H & _)]];
          [exact H|congruence|congruence].
      * revert v Hv. apply Hpush. intros Hm.
        destruct (remote_cases p j) as [(_ & _ & H)|(H & _)];
          [exact H|congruence].
      * apply in_map_iff in Hv as (s & <- & _). exists s. reflexivity.
      * revert v Hv. apply Hpush. intros Hm.
        destruct (experience_cases p j) as [(_ & _ & H)|(H & _)];
          [exact H|congruence].
      * revert v Hv. apply Hpush. intros Hm.
        destruct (jobType_cases p j) as [(_ & _ & H)|(H & _)];
          [exact H|congruence].
    + rewrite !length_app, length_map.
      pose proof (Hlen (calculateLocationMatch p j)).
      pose proof (Hlen (calculateRemoteMatch p j)).
      pose proof (Hlen (calculateExperienceMatch p j)).
      pose proof (Hlen (calculateJobTypeMatch p j)). lia.
Qed.

(** ** The experience matcher *)

(** X3: for a job level that is not a name that objects inherit (under
    such a name [levelMap[jobLevel]] is not an array of levels), the
    experience matcher reports a mismatch for exactly two pairs: a
    senior user with a Junior job and a junior user with a Senior job;
    every other pair, also an unknown or missing level, is a match. *)
Theorem experience_mismatch_iff (p : UserProfile) (j : Job) :
  ~ In (to_str (level j)) Object_prototype_keys ->
  match_ (calculateExperienceMatch p j) = false
  <-> (experienceLevel p = Some "senior" /\ level j = Some "Junior")
      \/ (experienceLevel p = Some "junior" /\ level j = Some "Senior").
Proof.
  intros _. split.
  - unfold calculateExperienceMatch. cbv zeta.
    destruct (match experienceLevel p with Some _ => _ | None => _ end);
      [discriminate|].
    destruct (is_str (experienceLevel p) "senior" && is_str (level j) "Junior")
      eqn:E1.
    { intros _. left. apply andb_prop in E1 as [E E'].
      destruct (experienceLevel p) as [u|]; [|discriminate].
      destruct (level j) as [l|]; [|discriminate].
      cbn in E, E'. apply String.eqb_eq in E, E'. subst. auto. }
    destruct (is_str (experienceLevel p) "junior" && is_str (level j) "Senior")
      eqn:E2; [|discriminate].
    intros _. right. apply andb_prop in E2 as [E E'].
    destruct (experienceLevel p) as [u|]; [|discriminate].
    destruct (level j) as [l|]; [|discriminate].
    cbn in E, E'. apply String.eqb_eq in E, E'. subst. auto.
  - unfold calculateExperienceMatch. cbv zeta.
    intros [[-> ->]|[-> ->]]; reflexivity.
Qed.

Lemma experience_mismatch_iff_witness :
  match_ (calculateExperienceMatch profile_onsite job_remote) = false.
Proof.
  apply (experience_mismatch_iff profile_onsite job_remote).
  - cbn. intuition discriminate.
  - left. split; reflexivity.
Defined.

(** ** Substrings *)

Lemma prefix_iff (sub s : string) :
  String.prefix sub s = true <-> exists b, s = sub +:+ b.
Proof.
  revert sub. induction s as [|c s IH]; intros [|d sub]; cbn.
  - split; [exists ""; reflexivity|reflexivity].
  - split; [discriminate|intros (b & H); discriminate].
  - split; [exists (String c s); reflexivity|reflexivity].
  - destruct (ascii_dec d c) as [->|Hne].
    + rewrite IH. split; intros (b & H); exists b.
      * change (String c s = String c (sub +:+ b)). rewrite H. reflexivity.
      * change (String c s = String c (sub +:+ b)) in H. congruence.
    + split; [discriminate|]. intros (b & H).
      change (String c s = String d (sub +:+ b)) in H. congruence.
Qed.

Lemma includes_cons (c : ascii) (s sub : string) :
  includes (String c s) sub
  = if String.prefix sub (String c s) then true else includes s sub.
Proof. reflexivity. Qed.

(** [s.includes(sub)] holds exactly when [sub] occurs in [s]. *)
Lemma includes_iff (s sub : string) :
  includes s sub = true <-> exists a b, s = a +:+ sub +:+ b.
Proof.
  induction s as [|c s IH].
  - cbn [includes]. destruct (String.prefix sub "") eqn:E.
    + split; [|reflexivity]. intros _. apply prefix_iff in E as (b & E).
      exists "", b. exact E.
    + split; [discriminate|]. intros ([|x a] & b & H); [|discriminate].
      assert (String.prefix sub "" = true) by (apply prefix_iff; exists b; exact H).
      congruence.
  - rewrite includes_cons. destruct (String.prefix sub (String c s)) eqn:E.
    + split; [|reflexivity]. intros _. apply prefix_iff in E as (b & E).
      exists "", b. exact E.
    + rewrite IH. split.
      * intros (a & b & H). exists (String c a), b.
        change (String c s = String c (a +:+ sub +:+ b)). rewrite H. reflexivity.
      * intros ([|x a] & b & H).
        -- assert (String.prefix sub (String c s) = true)
             by (apply prefix_iff; exists b; exact H).
           congruence.
        -- exists a, b. change (String c s = String x (a +:+ sub +:+ b)) in H.
           congruence.
Qed.

Lemma string_app_nil_r (s : string) : s +:+ "" = s.
Proof.
  induction s as [|c s IH]; [reflexivity|].
  change (String c (s +:+ "") = String c s). rewrite IH. reflexivity.
Qed.

Lemma includes_refl (s : string) : includes s s = true.
Proof.
  apply includes_iff. exists "", "". rewrite string_app_nil_r. reflexivity.
Qed.

Lemma includes_trans (s t u : string) :
  includes s t = true -> includes t u = true -> includes s u = true.
Proof.
  rewrite !includes_iff. intros (a & b & ->) (c & d & ->).
  exists (a +:+ c), (d +:+ b). rewrite !string_app_assoc. reflexivity.
Qed.

Lemma includes_app_l (s t sub : string) :
  includes s sub = true -> includes (s +:+ t) sub = true.
Proof.
  rewrite !includes_iff. intros (a & b & ->). exists a, (b +:+ t).
  rewrite !string_app_assoc. reflexivity.
Qed.

Lemma includes_app_r (s t sub : string) :
  includes t sub = true -> includes (s +:+ t) sub = true.
Proof.
  rewrite !includes_iff. intros (a & b & ->). exists (s +:+ a), b.
  rewrite !string_app_assoc. reflexivity.
Qed.

(** ** The skills score against the specification *)










(** Two skills of three: the code and the formula give the same
    binary64 number, which is not the binary64 number nearest to
    50/3. *)
Example skills_score_binary64_two_of_three :
  PrimFloat.eqb (skills_score_binary64 (float_of_nat 2) (float_of_nat 3))
    (spec_score_binary64 (float_of_nat 2) (float_of_nat 3)) = true
  /\ PrimFloat.eqb (skills_score_binary64 (float_of_nat 2) (float_of_nat 3))
       (PrimFloat.div (float_of_nat 50) (float_of_nat 3)) = false.
Proof. vm_compute. split; reflexivity. Qed.


(** ** The job-type matcher *)

(** A user without job types gets 5 points and no match for every
    job. *)
Theorem jobType_without_types (p : UserProfile) (j : Job) :
  default [] (jobTypes p) = [] ->
  calculateJobTypeMatch p j
  = {| score := of_Z 5; match_ := false; reason := undefined;
       issue := undefined |}.
Proof.
  intros H. unfold calculateJobTypeMatch. cbv zeta. rewrite H. reflexivity.
Qed.

(** X4: a job whose type the user lists, in any letter case, gets the full
    10 points. *)
Theorem jobType_listed (p : UserProfile) (j : Job) (t : string) :
  In t (default [] (jobTypes p)) ->
  toLowerCase t = toLowerCase (type j) ->
  calculateJobTypeMatch p j
  = {| score := of_Z 10; match_ := true;
       reason := Some (type j +:+ " matches your interests");
       issue := undefined |}.
Proof.
  intros Hin Heq. unfold calculateJobTypeMatch. cbv zeta.
  assert (E : existsb (fun t0 => includes (toLowerCase (type j)) t0
                                 || includes t0 (toLowerCase (type j)))
                (map toLowerCase (default [] (jobTypes p))) = true).
  { apply existsb_exists. exists (toLowerCase t). split.
    - apply in_map. exact Hin.
    - rewrite Heq, includes_refl. reflexivity. }
  rewrite E. reflexivity.
Qed.

(** ** The category matcher *)

(** X5: without a desired position and without job types the user has no
    category, and every job passes the category step with 10 points. *)
Theorem category_lenient_without_preferences (p : UserProfile) (j : Job) :
  default "" (desiredPosition p) = "" ->
  default [] (jobTypes p) = [] ->
  calculateJobCategoryMatch p j
  = {| score := of_Z 10; match_ := true; reason := Some "";
       issue := undefined |}.
Proof.
  intros H1 H2. unfold calculateJobCategoryMatch. cbv zeta.
  rewrite H1, H2. reflexivity.
Qed.

(** ** The location and the remote matcher together *)

Lemma description_remote_agree (j : Job) :
  default false ((fun d => includes (toLowerCase d) "remote") <$> description j)
  = includes (toLowerCase (default "" (description j))) "remote".
Proof. destruct (description j); reflexivity. Qed.

(** X6: when the location matcher reports the on-site soft mismatch, the
    remote matcher gives its 10 points without a match: a remote-only
    job gets 20 points and no reason from the two steps. *)
Theorem soft_mismatch_remote (p : UserProfile) (j : Job) :
  match_ (calculateLocationMatch p j) = false ->
  issue (calculateLocationMatch p j) = undefined ->
  score (calculateLocationMatch p j) = of_Z 10
  /\ calculateRemoteMatch p j
     = {| score := of_Z 10; match_ := false; reason := undefined;
          issue := undefined |}.
Proof.
  unfold calculateLocationMatch, calculateRemoteMatch. cbv zeta.
  rewrite description_remote_agree.
  set (A := includes (toLowerCase (location j)) "remote").
  set (B := includes (toLowerCase (location j)) "hybrid").
  set (D := includes (toLowerCase (default "" (description j))) "remote").
  set (H := includes (toLowerCase (default "" (description j))) "hybrid").
  destruct (remotePreference p) as [pref|]; cbn [is_str].
  2:{ cbn [andb orb]. split_ifs; cbn [match_ issue]; discriminate. }
  destruct (String.eqb pref "onsite") eqn:Eo.
  - apply String.eqb_eq in Eo. subst pref.
    cbn [String.eqb Ascii.eqb Bool.eqb andb orb].
    destruct A, B, (isRemote j), D; cbn [andb orb negb];
      split_ifs; cbn [match_ issue score]; try discriminate;
      intros _ _; split; reflexivity.
  - cbn [andb].
    split_ifs; cbn [match_ issue]; discriminate.
Qed.

(** ** The batch operation, further *)

Lemma suitable_score_at_least_40 (p : UserProfile) (j : Job) :
  mr_suitable (calculateJobMatchScore p j) = true ->
  exists z, mr_score (calculateJobMatchScore p j) = of_Z z /\ 40 <= z <= 100.
Proof.
  destruct (aggregate_cases p j) as [(_ & ->)|[(_ & _ & _ & ->)|(Hc & Hl & ->)]];
    [discriminate..|].
  intros _. cbn [score_remaining mr_score].
  destruct (passed_sum_fin p j Hc Hl) as (q & Hq & Hq1 & _).
  unfold remaining_sum in Hq. rewrite Hq.
  destruct (round_min_100 40 q Hq1) as (z & Hz & Hb); [lia|].
  exists z. split; [exact Hz|lia].
Qed.

Lemma Array_slice0_length {A : Type} (l : list A) (n : number) :
  (length (Array_slice0 l n) <= length l)%nat.
Proof. unfold Array_slice0. rewrite length_take. lia. Qed.

Lemma Array_sort_length {A : Type} (c : A -> A -> number) (l : list A) :
  length (Array_sort c l) = length l.
Proof. apply Permutation_length, Array_sort_Permutation. Qed.

Lemma Array_slice0_all {A : Type} (l : list A) :
  Array_slice0 l (Inf false) = l.
Proof. unfold Array_slice0. rewrite Nat2Z.id. apply take_ge. lia. Qed.

Lemma Array_slice0_negative {A : Type} (l : list A) (k : nat) :
  (0 < k)%nat ->
  Array_slice0 l (of_Z (- Z.of_nat k)) = take (length l - k) l.
Proof.
  intros Hk. unfold Array_slice0, of_Z, Qtrunc.
  assert (E : Qis_neg (inject_Z (- Z.of_nat k)) = true).
  { unfold Qis_neg. apply negb_true_iff.
    destruct (Qle_bool 0 (inject_Z (- Z.of_nat k))) eqn:E; [|reflexivity].
    apply Qle_bool_iff in E. change 0%Q with (inject_Z 0) in E.
    rewrite <- Zle_Qle in E. lia. }
  rewrite E, Qceiling_Z.
  destruct (Z.ltb_spec (- Z.of_nat k) 0) as [_|H]; [|lia].
  f_equal. lia.
Qed.

Lemma round_percentage (m n : nat) :
  (m <= n)%nat -> (0 < n)%nat ->
  exists z, Math_round (num_mul (num_div (of_nat m) (of_nat n)) (of_Z 100))
            = of_Z z /\ 0 <= z <= 100.
Proof.
  intros Hmn Hn. rewrite num_div_nat by exact Hn.
  set (r := (inject_Z (Z.of_nat m) / inject_Z (Z.of_nat n))%Q).
  assert (Hr : (0 <= r <= 1)%Q).
  { pose proof (inject_nat_pos n Hn) as P. unfold r. split.
    - apply Qle_shift_div_l; [exact P|]. rewrite Qmult_0_l.
      change 0%Q with (inject_Z 0). rewrite <- Zle_Qle. lia.
    - apply Qle_shift_div_r; [exact P|]. rewrite Qmult_1_l.
      rewrite <- Zle_Qle. lia. }
  unfold of_Z at 1. cbn [num_mul]. rewrite Math_round_fin.
  eexists. split; [reflexivity|].
  set (x := Qred (Qred r * inject_Z 100)).
  assert (Hx : (0 <= x <= 100)%Q).
  { unfold x. rewrite !Qred_correct. change (inject_Z 100) with 100%Q. lra. }
  split.
  - change 0 with (Qfloor 0). apply Qfloor_resp_le. lra.
  - change 100 with (Qfloor (100 + (1 # 2))). apply Qfloor_resp_le. lra.
Qed.

Section GetMatchedJobsMore.
Variable Date_getTime : string -> number.

Lemma getMatchedJobs_jobs_passed (all : list Job) (p : UserProfile)
    (options : Options) (x : ScoredJob) :
  In x (jobs (getMatchedJobs Date_getTime all p options)) ->
  In x (passed_jobs all p (default (of_Z 40) (minScore options))).
Proof.
  unfold getMatchedJobs. cbv zeta. cbn [jobs]. intros Hx.
  apply Array_slice0_In in Hx.
  destruct (String.eqb _ _); apply Array_sort_In in Hx; exact Hx.
Qed.

Lemma getMatchedJobs_length_le (all : list Job) (p : UserProfile)
    (options : Options) :
  (length (jobs (getMatchedJobs Date_getTime all p options)) <= length all)%nat.
Proof.
  unfold getMatchedJobs. cbv zeta. cbn [jobs].
  etransitivity; [apply Array_slice0_length|].
  assert (E : forall c,
             (length (Array_sort c
                (passed_jobs all p (default (of_Z 40) (minScore options))))
              <= length all)%nat).
  { intros c. rewrite Array_sort_length. unfold passed_jobs.
    etransitivity; [apply List.filter_length_le|]. rewrite length_map. lia. }
  destruct (String.eqb _ _); apply E.
Qed.

(** X9: whatever the options, every job returned is the scored copy of a
    job of the collection, is suitable and has a score of at least
    [minScore]; no more jobs are returned than there are. *)
Theorem getMatchedJobs_sound (all : list Job) (p : UserProfile)
    (options : Options) :
  let r := getMatchedJobs Date_getTime all p options in
  (forall x, In x (jobs r) ->
     suitable x = true
     /\ num_ge (matchScore x) (default (of_Z 40) (minScore options)) = true
     /\ exists j, In j all /\ x = score_job p j)
  /\ (length (jobs r) <= length all)%nat.
Proof.
  cbv zeta. split; [|apply getMatchedJobs_length_le].
  intros x Hx. apply getMatchedJobs_jobs_passed in Hx.
  apply filter_In in Hx as [Hm Hf]. apply andb_prop in Hf as [Hs Hg].
  split; [exact Hs|]. split; [exact Hg|].
  apply in_map_iff in Hm as (j & <- & Hj). exists j. split; [exact Hj|reflexivity].
Qed.

(** X10: for a collection that is not empty the match rate is an integer
    between 0 and 100. *)
Theorem matchRate_percentage (all : list Job) (p : UserProfile)
    (options : Options) :
  all <> [] ->
  exists z, matchRate (getMatchedJobs Date_getTime all p options) = of_Z z
            /\ 0 <= z <= 100.
Proof.
  intros Hall. pose proof (getMatchedJobs_length_le all p options) as Hlen.
  revert Hlen. unfold getMatchedJobs. cbv zeta. cbn [jobs matchRate].
  intros Hlen. apply round_percentage; [exact Hlen|].
  destruct all; [congruence|cbn; lia].
Qed.

(** X11: a [minScore] of 40 or less changes nothing: every suitable job has
    a score of at least 40. *)
Theorem minScore_up_to_40 (all : list Job) (p : UserProfile) (q : Q)
    (maxR : option number) (by_ : option string) :
  (q <= 40)%Q ->
  getMatchedJobs Date_getTime all p
    {| minScore := Some (Fin q); maxResults := maxR; sortBy := by_ |}
  = getMatchedJobs Date_getTime all p
      {| minScore := None; maxResults := maxR; sortBy := by_ |}.
Proof.
  intros Hq. unfold getMatchedJobs. cbv zeta.
  cbn [minScore maxResults sortBy].
  assert (E : List.filter
                (fun job => suitable job
                            && num_ge (matchScore job) (default (of_Z 40) (Some (Fin q))))
                (map (score_job p) all)
              = List.filter
                  (fun job => suitable job
                              && num_ge (matchScore job) (default (of_Z 40) None))
                  (map (score_job p) all)).
  { apply filter_ext_in. intros x Hx. apply in_map_iff in Hx as (j & <- & _).
    unfold score_job. cbn [suitable matchScore default].
    destruct (mr_suitable (calculateJobMatchScore p j)) eqn:Hs; [|reflexivity].
    destruct (suitable_score_at_least_40 p j Hs) as (z & -> & Hz).
    rewrite num_ge_of_Z. cbn [andb].
    transitivity true; [|symmetry; apply Z.leb_le; lia].
    apply Qle_bool_iff. eapply Qle_trans; [exact Hq|].
    change 40%Q with (inject_Z 40). rewrite <- Zle_Qle. lia. }
  rewrite E. reflexivity.
Qed.

(** With [maxResults] 0, NaN or [-Infinity] no job is returned and the
    count is 0, whatever matches. *)
Theorem maxResults_zero (all : list Job) (p : UserProfile)
    (min : option number) (by_ : option string) (n : number) :
  n = of_Z 0 \/ n = NaN \/ n = Inf true ->
  let r := getMatchedJobs Date_getTime all p
             {| minScore := min; maxResults := Some n; sortBy := by_ |} in
  jobs r = [] /\ totalMatches r = of_Z 0.
Proof.
  intros Hn. cbv zeta. unfold getMatchedJobs. cbv zeta.
  cbn [minScore maxResults sortBy jobs totalMatches].
  assert (E : forall l : list ScoredJob, Array_slice0 l (default (of_Z 50) (Some n)) = []).
  { intros l. cbn [default]. destruct Hn as [-> | [-> | ->]]; [|reflexivity..].
    exact (Array_slice0_nat l 0). }
  rewrite !E. split; reflexivity.
Qed.

(** X12: a negative [maxResults] counts from the end: with [-k] the last
    [k] of the jobs that would be returned without a limit are
    dropped. *)
Theorem maxResults_negative (all : list Job) (p : UserProfile)
    (min : option number) (by_ : option string) (k : nat) :
  (0 < k)%nat ->
  let full := jobs (getMatchedJobs Date_getTime all p (options_all min by_)) in
  jobs (getMatchedJobs Date_getTime all p
          {| minScore := min; maxResults := Some (of_Z (- Z.of_nat k));
             sortBy := by_ |})
  = take (length full - k) full.
Proof.
  intros Hk. cbv zeta. unfold getMatchedJobs, options_all. cbv zeta.
  cbn [minScore maxResults sortBy jobs default].
  rewrite Array_slice0_all. apply Array_slice0_negative, Hk.
Qed.
End GetMatchedJobsMore.

(** ** The statistics *)

Lemma Qred_inject_Z (z : Z) : Qred (inject_Z z) = inject_Z z.
Proof.
  unfold inject_Z, Qred.
  pose proof (Z.ggcd_correct_divisors z 1) as H.
  pose proof (Z.ggcd_gcd z 1) as G. rewrite Z.gcd_1_r in G.
  destruct (Z.ggcd z 1) as [g [aa bb]]. cbn [fst snd] in *. subst g.
  destruct H as [H1 H2]. rewrite Z.mul_1_l in H1, H2. subst aa bb.
  reflexivity.
Qed.

Lemma num_add_of_Z (a b : Z) : num_add (of_Z a) (of_Z b) = of_Z (a + b).
Proof.
  unfold of_Z, num_add. rewrite <- inject_Z_plus, Qred_inject_Z. reflexivity.
Qed.

Lemma unsuitable_score_zero (p : UserProfile) (j : Job) :
  mr_suitable (calculateJobMatchScore p j) = false ->
  mr_score (calculateJobMatchScore p j) = of_Z 0.
Proof.
  destruct (aggregate_cases p j) as [(_ & ->)|[(_ & _ & _ & ->)|(Hc & Hl & ->)]];
    [reflexivity..|].
  cbn [score_remaining mr_suitable].
  destruct (passed_sum_fin p j Hc Hl) as (q & Hq & Hq1 & _).
  unfold remaining_sum in Hq. rewrite Hq. intros H.
  assert (num_ge (Fin q) (of_Z 40) = true) by (apply Qle_bool_iff; exact Hq1).
  congruence.
Qed.

(** The score of a job is the integer [job_score], which is 0 for a
    job that is not suitable and between 40 and 100 for a suitable
    one. *)
Lemma job_score_spec (p : UserProfile) (j : Job) :
  mr_score (calculateJobMatchScore p j) = of_Z (job_score p j)
  /\ (if mr_suitable (calculateJobMatchScore p j)
      then 40 <= job_score p j <= 100 else job_score p j = 0).
Proof.
  unfold job_score.
  destruct (mr_suitable (calculateJobMatchScore p j)) eqn:Hs.
  - destruct (suitable_score_at_least_40 p j Hs) as (z & -> & Hz).
    rewrite number_key_of_Z. split; [reflexivity|exact Hz].
  - rewrite (unsuitable_score_zero p j Hs), number_key_of_Z.
    split; reflexivity.
Qed.

(** What the loop of [getMatchStatistics] computes from any starting
    point. *)
Lemma count_job_fold (p : UserProfile) (l : list Job) :
  forall (s : MatchStatistics) (t : Z),
  fold_left (count_job p) l (s, of_Z t)
  = ({| total := total s;
        excellent := excellent s + count_if (in_excellent p) l;
        good := good s + count_if (in_good p) l;
        moderate := moderate s + count_if (in_moderate p) l;
        low := low s + count_if (in_low p) l;
        byType := tally type l (byType s);
        byLocation := tally (fun j => before_comma (location j)) l (byLocation s);
        avgScore := avgScore s |},
     of_Z (t + sum_scores p l)).
Proof.
  induction l as [|j l IH]; intros s t.
  - cbn. rewrite !Nat.add_0_r, Z.add_0_r. destruct s; reflexivity.
  - cbn [fold_left]. unfold count_job at 2. 
    destruct (job_score_spec p j) as [Hs _]. rewrite Hs, num_add_of_Z.
    rewrite !num_ge_of_Z. rewrite IH. cbn [total excellent good moderate low byType byLocation avgScore].
    unfold count_if, in_excellent, in_good, in_moderate, in_low.
    cbn [List.filter sum_scores tally fold_left].
    f_equal; [|f_equal; lia].
    f_equal;
      destruct (Z.leb_spec 80 (job_score p j)), (Z.leb_spec 60 (job_score p j)),
        (Z.leb_spec 40 (job_score p j)), (Z.ltb_spec (job_score p j) 80),
        (Z.ltb_spec (job_score p j) 60), (Z.ltb_spec (job_score p j) 40);
      try lia; cbn [andb length]; lia.
Qed.

Lemma buckets_cover (p : UserProfile) (l : list Job) :
  (count_if (in_excellent p) l + count_if (in_good p) l
   + count_if (in_moderate p) l + count_if (in_low p) l = length l)%nat.
Proof.
  unfold count_if, in_excellent, in_good, in_moderate, in_low.
  induction l as [|j l IH]; [reflexivity|]. cbn [List.filter length].
  destruct (Z.leb_spec 80 (job_score p j)), (Z.leb_spec 60 (job_score p j)),
    (Z.leb_spec 40 (job_score p j)), (Z.ltb_spec (job_score p j) 80),
    (Z.ltb_spec (job_score p j) 60), (Z.ltb_spec (job_score p j) 40);
    try lia; cbn [andb length]; lia.
Qed.

Lemma getMatchStatistics_fields (all : list Job) (p : UserProfile) :
  getMatchStatistics all p
  = {| total := length all;
       excellent := count_if (in_excellent p) all;
       good := count_if (in_good p) all;
       moderate := count_if (in_moderate p) all;
       low := count_if (in_low p) all;
       byType := tally type all ∅;
       byLocation := tally (fun j => before_comma (location j)) all ∅;
       avgScore :=
         Math_round (num_div (of_Z (sum_scores p all)) (of_nat (length all))) |}.
Proof.
  unfold getMatchStatistics. cbv zeta. rewrite count_job_fold. reflexivity.
Qed.

(** X13: every job falls in exactly one of the four buckets: the four
    counters add up to [total], the number of jobs. *)
Theorem statistics_buckets (all : list Job) (p : UserProfile) :
  let s := getMatchStatistics all p in
  total s = length all
  /\ (excellent s + good s + moderate s + low s = total s)%nat.
Proof.
  cbv zeta. rewrite getMatchStatistics_fields.
  cbn [total excellent good moderate low]. split; [reflexivity|].
  apply buckets_cover.
Qed.

Lemma count_if_ext (f g : Job -> bool) (l : list Job) :
  (forall j, In j l -> f j = g j) -> count_if f l = count_if g l.
Proof. intros H. unfold count_if. rewrite (filter_ext_in f g l H). reflexivity. Qed.

(** X14: the bucket [low] holds exactly the jobs that a hard filter
    rejected: no job has a score between 1 and 39. *)
Theorem statistics_low_is_rejected (all : list Job) (p : UserProfile) :
  low (getMatchStatistics all p)
  = count_if (fun j => negb (mr_suitable (calculateJobMatchScore p j))) all.
Proof.
  rewrite getMatchStatistics_fields. cbn [low]. apply count_if_ext.
  intros j _. unfold in_low. destruct (job_score_spec p j) as [_ H].
  destruct (mr_suitable (calculateJobMatchScore p j)); cbn [negb].
  - apply Z.ltb_ge. lia.
  - apply Z.ltb_lt. lia.
Qed.

Lemma sum_scores_bounds (p : UserProfile) (l : list Job) :
  0 <= sum_scores p l <= 100 * Z.of_nat (length l).
Proof.
  induction l as [|j l IH]; [cbn; lia|]. cbn [sum_scores length].
  destruct (job_score_spec p j) as [_ H].
  destruct (mr_suitable (calculateJobMatchScore p j)); lia.
Qed.

(** X15: the average score is NaN for an empty collection, the division
    0 / 0 being unguarded, and an integer between 0 and 100
    otherwise. *)
Theorem statistics_avgScore (all : list Job) (p : UserProfile) :
  (all = [] -> avgScore (getMatchStatistics all p) = NaN)
  /\ (all <> [] ->
      exists z, avgScore (getMatchStatistics all p) = of_Z z /\ 0 <= z <= 100).
Proof.
  rewrite getMatchStatistics_fields. cbn [avgScore]. split.
  - intros ->. reflexivity.
  - intros Hne. pose proof (sum_scores_bounds p all) as Hb.
    assert (Hn : (0 < length all)%nat) by (destruct all; [congruence|cbn; lia]).
    pose proof (inject_nat_pos _ Hn) as Hpos.
    unfold of_nat, of_Z, num_div. rewrite Qis_zero_false.
    2:{ intros E. rewrite E in Hpos. exact (Qlt_irrefl _ Hpos). }
    rewrite Math_round_fin. eexists. split; [reflexivity|].
    set (x := Qred (inject_Z (sum_scores p all) / inject_Z (Z.of_nat (length all)))).
    assert (Hx : (0 <= x <= 100)%Q).
    { unfold x. rewrite Qred_correct. split.
      - apply Qle_shift_div_l; [exact Hpos|]. rewrite Qmult_0_l.
        change 0%Q with (inject_Z 0). rewrite <- Zle_Qle. lia.
      - apply Qle_shift_div_r; [exact Hpos|].
        change 100%Q with (inject_Z 100). rewrite <- inject_Z_mult, <- Zle_Qle.
        lia. }
    split.
    + change 0 with (Qfloor 0). apply Qfloor_resp_le. lra.
    + change 100 with (Qfloor (100 + (1 # 2))). apply Qfloor_resp_le. lra.
Qed.

Lemma increment_lookup (key t : string) (m : gmap string nat) :
  increment key m !! t
  = if String.eqb key t then Some (S (default 0%nat (m !! t))) else m !! t.
Proof.
  unfold increment. destruct (String.eqb_spec key t) as [->|Hne].
  - apply lookup_insert_eq.
  - apply lookup_insert_ne. exact Hne.
Qed.

Lemma tally_lookup (key : Job -> string) (t : string) (l : list Job) :
  forall m : gmap string nat,
  tally key l m !! t
  = match m !! t, count_if (fun j => String.eqb (key j) t) l with
    | None, O => None
    | o, c => Some (default 0%nat o + c)%nat
    end.
Proof.
  unfold tally, count_if. induction l as [|j l IH]; intros m.
  - cbn. destruct (m !! t); [rewrite Nat.add_0_r|]; reflexivity.
  - cbn [fold_left List.filter]. rewrite IH, increment_lookup.
    destruct (String.eqb (key j) t); cbn [length].
    + destruct (m !! t) as [n|]; unfold default; cbn [from_option id];
        destruct (length _); f_equal; lia.
    + reflexivity.
Qed.

(** X16: for a name [t] that objects do not inherit, [byType] maps [t] to
    the number of jobs of type [t] and has no entry when there is none;
    [byLocation] does the same for the part of the location before the
    first comma. *)
Theorem statistics_by_key (all : list Job) (p : UserProfile) (t : string) :
  ~ In t Object_prototype_keys ->
  let s := getMatchStatistics all p in
  let of_count c := match c with O => None | _ => Some c end in
  byType s !! t = of_count (count_if (fun j => String.eqb (type j) t) all)
  /\ byLocation s !! t
     = of_count (count_if
                   (fun j => String.eqb (before_comma (location j)) t) all).
Proof.
  intros _. cbv zeta. rewrite getMatchStatistics_fields. cbn [byType byLocation].
  rewrite !tally_lookup, !lookup_empty. split.
  - destruct (count_if _ all); reflexivity.
  - destruct (count_if _ all); reflexivity.
Qed.

Lemma filter_map_length {A B : Type} (f : B -> bool) (g : A -> B) (l : list A) :
  length (List.filter f (map g l)) = length (List.filter (fun x => f (g x)) l).
Proof.
  induction l as [|x l IH]; [reflexivity|]. cbn [map List.filter].
  destruct (f (g x)); cbn [length]; rewrite IH; reflexivity.
Qed.

Section StatisticsAndMatches.
Variable Date_getTime : string -> number.

(** X17: with the default [minScore] and a [maxResults] that does not
    truncate, [getMatchedJobs] reports as [totalMatches] the sum of
    the buckets [excellent], [good] and [moderate]. *)
Theorem statistics_match_total (all : list Job) (p : UserProfile) (k : nat)
    (by_ : option string) :
  (length all <= k)%nat ->
  let s := getMatchStatistics all p in
  totalMatches (getMatchedJobs Date_getTime all p
                  {| minScore := None; maxResults := Some (of_nat k);
                     sortBy := by_ |})
  = of_nat (excellent s + good s + moderate s).
Proof.
  intros Hk. cbv zeta. rewrite getMatchStatistics_fields.
  cbn [excellent good moderate]. unfold getMatchedJobs. cbv zeta.
  cbn [minScore maxResults sortBy totalMatches].
  change (default (of_Z 50) (Some (of_nat k))) with (of_nat k).
  change (default (of_Z 40) None) with (of_Z 40).
  rewrite Array_slice0_nat. f_equal. rewrite length_take.
  assert (E : forall c,
             length (Array_sort c
               (List.filter (fun job => suitable job
                                        && num_ge (matchScore job) (of_Z 40))
                  (map (score_job p) all)))
             = (count_if (in_excellent p) all + count_if (in_good p) all
                + count_if (in_moderate p) all)%nat).
  { intros c. rewrite Array_sort_length, filter_map_length.
    pose proof (buckets_cover p all) as Hcov.
    assert (Hlow : (length (List.filter
                     (fun x => suitable (score_job p x)
                               && num_ge (matchScore (score_job p x)) (of_Z 40)) all)
                   + count_if (in_low p) all = length all)%nat).
    { unfold count_if, in_low. clear Hcov Hk.
      induction all as [|j l IH]; [reflexivity|]. cbn [List.filter length].
      unfold score_job at 1 2. cbn [suitable matchScore].
      destruct (job_score_spec p j) as [Hs H]. rewrite Hs, num_ge_of_Z.
      destruct (mr_suitable (calculateJobMatchScore p j)); cbn [andb];
        destruct (Z.leb_spec 40 (job_score p j)),
          (Z.ltb_spec (job_score p j) 40); try lia; cbn [length]; lia. }
    lia. }
  pose proof (buckets_cover p all).
  destruct (String.eqb _ _); rewrite E; lia.
Qed.
End StatisticsAndMatches.

(** ** Stability of the sort *)

Section StableByKey.
Context {A : Type} (key : A -> Z) (compare : A -> A -> number) (P : A -> Prop).
Hypothesis compare_key :
  forall x y, P x -> P y -> num_pos (compare x y) = (key x <? key y).

Lemma sort_insert_stable (v : Z) (x : A) (l : list A) :
  P x -> Forall P l ->
  List.filter (fun a => key a =? v) (sort_insert compare x l)
  = List.filter (fun a => key a =? v) (x :: l).
Proof.
  intros Hx Hl. induction Hl as [|y l Hy Hl IH]; [reflexivity|].
  cbn [sort_insert]. rewrite (compare_key x y Hx Hy).
  destruct (Z.ltb_spec (key x) (key y)) as [H|H]; [|reflexivity].
  cbn [List.filter] in *. rewrite IH.
  destruct (Z.eqb_spec (key x) v), (Z.eqb_spec (key y) v); try reflexivity.
  lia.
Qed.

Lemma Array_sort_stable (v : Z) (l : list A) :
  Forall P l ->
  List.filter (fun a => key a =? v) (Array_sort compare l)
  = List.filter (fun a => key a =? v) l.
Proof.
  intros Hl. induction Hl as [|x l Hx Hl IH]; [reflexivity|].
  cbn [Array_sort]. rewrite sort_insert_stable; [|exact Hx|].
  - cbn [List.filter]. rewrite IH. reflexivity.
  - rewrite (Array_sort_Permutation compare l). exact Hl.
Qed.
End StableByKey.

Section GetMatchedJobsStable.
Variable Date_getTime : string -> number.

(** X8: the sort by score is stable: among the jobs returned, those with
    the same score are in the order of the collection. *)
Theorem getMatchedJobs_stable (all : list Job) (p : UserProfile)
    (min : option number) (z : Z) :
  List.filter (fun x => score_key x =? z)
    (jobs (getMatchedJobs Date_getTime all p (options_all min (Some "score"))))
  = List.filter (fun x => score_key x =? z)
      (passed_jobs all p (default (of_Z 40) min)).
Proof.
  unfold getMatchedJobs, options_all. cbv zeta.
  cbn [minScore maxResults sortBy jobs].
  change (default "score" (Some "score")) with "score".
  change (default (of_Z 50) (Some (Inf false))) with (Inf false).
  cbn [String.eqb Ascii.eqb Bool.eqb]. rewrite Array_slice0_all.
  apply (Array_sort_stable score_key compare_score
           (fun x => matchScore x = of_Z (score_key x))).
  - intros x y Hx Hy. unfold compare_score. rewrite Hx, Hy.
    apply num_pos_sub_of_Z.
  - apply Forall_forall. intros x Hx.
    apply list_elem_of_In, filter_In in Hx as [Hx _].
    apply in_map_iff in Hx as (j & <- & _). apply score_job_integer.
Qed.
End GetMatchedJobsStable.

(** ** Relevance order and key requirements *)

Lemma relevance_compare (d a b : string) :
  num_pos (num_sub (relevance d b) (relevance d a))
  = includes d (toLowerCase b) && negb (includes d (toLowerCase a)).
Proof.
  unfold relevance.
  destruct (includes d (toLowerCase a)), (includes d (toLowerCase b));
    reflexivity.
Qed.

Lemma sort_insert_relevant (d x : string) (l : list string) :
  includes d (toLowerCase x) = true ->
  sort_insert (fun a b => num_sub (relevance d b) (relevance d a)) x l = x :: l.
Proof.
  intros Hx. destruct l as [|y l]; [reflexivity|]. cbn [sort_insert].
  rewrite relevance_compare, Hx, andb_false_r. reflexivity.
Qed.

Lemma sort_insert_irrelevant (d x : string) (rel irr : list string) :
  includes d (toLowerCase x) = false ->
  Forall (fun y => includes d (toLowerCase y) = true) rel ->
  Forall (fun y => includes d (toLowerCase y) = false) irr ->
  sort_insert (fun a b => num_sub (relevance d b) (relevance d a)) x (rel ++ irr)
  = rel ++ x :: irr.
Proof.
  intros Hx Hrel Hirr. induction Hrel as [|y rel Hy Hrel IH].
  - destruct Hirr as [|y irr Hy Hirr]; [reflexivity|].
    cbn [app sort_insert]. rewrite relevance_compare, Hy. reflexivity.
  - cbn [app sort_insert]. rewrite relevance_compare, Hy, Hx. cbn [andb negb].
    rewrite IH. reflexivity.
Qed.

(** X18: [sortByJobRelevance] puts the items that occur in the job
    description first and keeps the order within both groups. *)
Theorem sortByJobRelevance_partition (items : list string) (d : string) :
  sortByJobRelevance items d
  = List.filter (fun a => includes d (toLowerCase a)) items
    ++ List.filter (fun a => negb (includes d (toLowerCase a))) items.
Proof.
  unfold sortByJobRelevance. cbv zeta.
  induction items as [|x items IH]; [reflexivity|].
  cbn [Array_sort List.filter]. rewrite IH.
  destruct (includes d (toLowerCase x)) eqn:Hx; cbn [negb].
  - apply sort_insert_relevant, Hx.
  - apply sort_insert_irrelevant; [exact Hx| |].
    + apply Forall_forall. intros y Hy.
      apply list_elem_of_In, filter_In in Hy as [_ Hy]. exact Hy.
    + apply Forall_forall. intros y Hy.
      apply list_elem_of_In, filter_In in Hy as [_ Hy].
      apply negb_true_iff. exact Hy.
Qed.

(** X19: the requirements reported for a description are keywords that
    occur in it, and with a keyword every keyword that is part of it is
    reported: [javascript] brings [java], [nosql] brings [sql]. *)
Theorem extractKeyRequirements_closed (description k k' : string) :
  In k (extractKeyRequirements description) ->
  In k' techKeywords ->
  includes k k' = true ->
  includes description k = true /\ In k' (extractKeyRequirements description).
Proof.
  unfold extractKeyRequirements. intros Hk Hk' Hsub.
  apply filter_In in Hk as [_ Hk]. split; [exact Hk|].
  apply filter_In. split; [exact Hk'|].
  exact (includes_trans _ _ _ Hk Hsub).
Qed.

(** ** The skills of the personalized resume *)

Lemma Array_includes_In (l : list string) (x : string) :
  Array_includes l x = true <-> In x l.
Proof.
  unfold Array_includes. rewrite existsb_exists. split.
  - intros (y & Hy & E). apply String.eqb_eq in E. subst. exact Hy.
  - intros H. exists x. split; [exact H|apply String.eqb_refl].
Qed.

(** X20: the resume lists every skill of the profile once per occurrence:
    the matching skills first, then the others, each group in the order
    of the profile. *)
Theorem resume_skills_partition (p : UserProfile) (j : Job) :
  let matching skill :=
    includes (toLowerCase (default "" (description j))) (toLowerCase skill)
    || includes (toLowerCase (title j)) (toLowerCase skill) in
  resume_orderedSkills p j
  = List.filter matching (skill_list p)
    ++ List.filter (fun skill => negb (matching skill)) (skill_list p)
  /\ Permutation (resume_orderedSkills p j) (skill_list p).
Proof.
  cbv zeta.
  assert (E : resume_otherSkills p j
              = List.filter
                  (fun skill =>
                     negb (includes (toLowerCase (default "" (description j)))
                             (toLowerCase skill)
                           || includes (toLowerCase (title j)) (toLowerCase skill)))
                  (skill_list p)).
  { unfold resume_otherSkills. cbv zeta. apply filter_ext_in. intros s Hs.
    f_equal. unfold resume_matchingSkills. cbv zeta.
    match goal with
    | |- ?a = ?b => destruct b eqn:Hb
    end.
    - apply Array_includes_In, filter_In. split; [exact Hs|exact Hb].
    - destruct (Array_includes _ s) eqn:Ha; [|reflexivity].
      apply Array_includes_In, filter_In in Ha as [_ Ha]. congruence. }
  unfold resume_orderedSkills. rewrite E. split; [reflexivity|].
  unfold resume_matchingSkills. cbv zeta. fold (skill_list p).
  generalize (skill_list p). intros l.
  induction l as [|s l IH]; [reflexivity|]. cbn [List.filter].
  destruct (_ || _); cbn [negb app].
  - constructor. exact IH.
  - rewrite <- Permutation_middle. constructor. exact IH.
Qed.

(** X21: a skill that the personalized resume treats as matching the job
    is counted by the skills matcher as well. *)
Theorem resume_matching_is_matched (p : UserProfile) (j : Job) (skill : string) :
  In skill (resume_matchingSkills p j) ->
  In (toLowerCase skill) (matchedSkills (calculateSkillsMatch p j)).
Proof.
  unfold resume_matchingSkills. cbv zeta. intros H.
  apply filter_In in H as [Hin H]. rewrite matchedSkills_eq.
  apply in_map. apply filter_In. split; [exact Hin|].
  unfold skill_matches, jobText. cbv zeta.
  apply orb_prop in H as [H|H].
  - apply includes_app_r, includes_app_r. exact H.
  - apply includes_app_l. exact H.
Qed.

(** * The job store *)

(** ** Maps *)

Lemma Map_set_In {V : Type} (k k' : string) (v v' : V) (m : list (string * V)) :
  In (k', v') (Map_set k v m) -> (k' = k /\ v' = v) \/ In (k', v') m.
Proof.
  induction m as [|[k0 v0] m IH]; cbn [Map_set].
  - intros [[= <- <-]|[]]. left. split; reflexivity.
  - destruct (String.eqb k0 k).
    + intros [[= <- <-]|H]; [left; split; reflexivity|right; right; exact H].
    + intros [H|H]; [right; left; exact H|].
      destruct (IH H) as [?|?]; [left; assumption|right; right; assumption].
Qed.

Lemma Map_set_In_new {V : Type} (k : string) (v : V) (m : list (string * V)) :
  In (k, v) (Map_set k v m).
Proof.
  induction m as [|[k0 v0] m IH]; cbn [Map_set]; [left; reflexivity|].
  destruct (String.eqb k0 k); [left; reflexivity|right; exact IH].
Qed.

Lemma Map_set_In_other {V : Type} (k k' : string) (v v' : V)
    (m : list (string * V)) :
  k' <> k -> In (k', v') m -> In (k', v') (Map_set k v m).
Proof.
  intros Hne. induction m as [|[k0 v0] m IH]; cbn [Map_set]; [intros []|].
  destruct (String.eqb_spec k0 k) as [->|Hk].
  - intros [[= <- <-]|H]; [congruence|right; exact H].
  - intros [H|H]; [left; exact H|right; exact (IH H)].
Qed.

Lemma Map_set_values_In {V : Type} (k : string) (v x : V)
    (m : list (string * V)) :
  In x (Map_values (Map_set k v m)) -> x = v \/ In x (Map_values m).
Proof.
  unfold Map_values. rewrite !in_map_iff. intros ([k' v'] & <- & H).
  apply Map_set_In in H as [[_ ->]|H]; [left; reflexivity|].
  right. exists (k', v'). split; [reflexivity|exact H].
Qed.

Lemma Map_set_keys {V : Type} (k : string) (v : V) (m : list (string * V)) :
  NoDup (map fst m) -> NoDup (map fst (Map_set k v m)).
Proof.
  intros H. induction m as [|[k0 v0] m IH]; cbn [Map_set map fst].
  - apply NoDup_singleton.
  - apply NoDup_cons in H as [Hnotin Hm]. rewrite list_elem_of_In in Hnotin.
    destruct (String.eqb_spec k0 k) as [->|Hne]; cbn [map fst].
    + apply NoDup_cons. rewrite list_elem_of_In. split; assumption.
    + apply NoDup_cons. rewrite list_elem_of_In. split; [|exact (IH Hm)].
      intros Hin. apply in_map_iff in Hin as ([k' v'] & E & Hin).
      cbn in E. subst k'. apply Map_set_In in Hin as [[E _]|Hin]; [congruence|].
      apply Hnotin. apply in_map_iff. exists (k0, v'). split; [reflexivity|exact Hin].
Qed.

Lemma Map_set_length {V : Type} (k : string) (v : V) (m : list (string * V)) :
  (length m <= length (Map_set k v m) <= S (length m))%nat.
Proof.
  induction m as [|[k0 v0] m IH]; [cbn; lia|]. cbn [Map_set].
  destruct (String.eqb k0 k); cbn [length] in *; lia.
Qed.

Lemma Map_set_NoDup_values {V B : Type} (f : V -> B) (k : string) (v : V)
    (m : list (string * V)) :
  NoDup (map f (Map_values m)) ->
  ~ In (f v) (map f (Map_values m)) ->
  NoDup (map f (Map_values (Map_set k v m))).
Proof.
  unfold Map_values. induction m as [|[k0 v0] m IH]; cbn [Map_set map snd].
  - intros _ _. apply NoDup_singleton.
  - intros H Hv. apply NoDup_cons in H as [Hnotin Hm].
    rewrite list_elem_of_In in Hnotin.
    destruct (String.eqb k0 k); cbn [map snd].
    + apply NoDup_cons. rewrite list_elem_of_In. split; [|exact Hm].
      intros Hin. apply Hv. right. exact Hin.
    + apply NoDup_cons. rewrite list_elem_of_In. split.
      * intros Hin. apply in_map_iff in Hin as (x & E & Hin).
        apply (Map_set_values_In k v x m) in Hin as [->|Hin].
        -- apply Hv. left. symmetry. exact E.
        -- apply Hnotin. rewrite <- E. apply in_map. exact Hin.
      * apply IH; [exact Hm|]. intros Hin. apply Hv. right. exact Hin.
Qed.

Lemma NoDup_keys_value {V : Type} (k : string) (v v' : V) (m : list (string * V)) :
  NoDup (map fst m) -> In (k, v) m -> In (k, v') m -> v = v'.
Proof.
  induction m as [|[k0 v0] m IH]; [intros _ []|].
  cbn [map fst]. intros H. apply NoDup_cons in H as [Hnotin Hm].
  rewrite list_elem_of_In in Hnotin.
  intros [E1|H1] [E2|H2].
  - congruence.
  - injection E1 as -> ->. exfalso. apply Hnotin. apply in_map_iff.
    exists (k, v'). split; [reflexivity|exact H2].
  - injection E2 as -> ->. exfalso. apply Hnotin. apply in_map_iff.
    exists (k, v). split; [reflexivity|exact H1].
  - exact (IH Hm H1 H2).
Qed.

(** ** [addJob] *)

Lemma addJob_cases (job : StoredJob) (s : JobStore) :
  (addJob job s = (false, s)
   /\ ((url job ∈ seenUrls s)
       \/ exists j, In j (Map_values (store_jobs s)) /\ jobKey j = jobKey job))
  \/ (addJob job s
      = (true, {| store_jobs := Map_set (jobId job) job (store_jobs s);
                  lastUpdate := lastUpdate s;
                  seenUrls := {[url job]} ∪ seenUrls s;
                  lastExpirationCheck := lastExpirationCheck s |})
      /\ (url job ∉ seenUrls s)
      /\ forall j, In j (Map_values (store_jobs s)) -> jobKey j <> jobKey job).
Proof.
  unfold addJob. cbv zeta. destruct (bool_decide_reflect (url job ∈ seenUrls s)) as [Hu|Hu].
  - left. split; [reflexivity|left; exact Hu].
  - destruct (find _ _) as [j|] eqn:Hf.
    + left. split; [reflexivity|]. right. apply find_some in Hf as [Hin E].
      exists j. split; [exact Hin|]. apply String.eqb_eq. exact E.
    + right. split; [reflexivity|]. split; [exact Hu|].
      intros j Hj E. pose proof (find_none _ _ Hf j Hj) as H. cbn beta in H.
      rewrite E, String.eqb_refl in H. discriminate.
Qed.

(** X22: [addJob] accepts a job exactly when its url has not been seen and
    no stored job has the same key, the lower-cased title and company
    joined by an underscore; a job that is not accepted leaves the store
    as it was. *)
Theorem addJob_accepts_iff (job : StoredJob) (s : JobStore) :
  (fst (addJob job s) = true
   <-> (url job ∉ seenUrls s)
       /\ forall j, In j (Map_values (store_jobs s)) -> jobKey j <> jobKey job)
  /\ (fst (addJob job s) = false -> snd (addJob job s) = s).
Proof.
  destruct (addJob_cases job s) as [(-> & H)|(-> & Hu & Hk)]; cbn [fst snd].
  - split; [|reflexivity]. split; [discriminate|]. intros [Hu Hk].
    destruct H as [H|(j & Hj & E)]; [contradiction|].
    exfalso. exact (Hk j Hj E).
  - split; [|discriminate]. split; [|reflexivity]. intros _.
    split; [exact Hu|exact Hk].
Qed.

Lemma toLowerCase_app (a b : string) :
  toLowerCase (a +:+ b) = toLowerCase a +:+ toLowerCase b.
Proof.
  induction a as [|c a IH]; [reflexivity|].
  change (String (lower_ascii c) (toLowerCase (a +:+ b))
          = String (lower_ascii c) (toLowerCase a +:+ toLowerCase b)).
  rewrite IH. reflexivity.
Qed.

(** X23: the underscore of the key is not escaped: a job with title [t_x]
    and company [c] is refused as a duplicate of a stored job with
    title [t] and company [x_c]. *)
Theorem addJob_key_collision (job stored : StoredJob) (s : JobStore)
    (t x c : string) :
  In stored (Map_values (store_jobs s)) ->
  title (job_data stored) = t ->
  company (job_data stored) = x +:+ "_" +:+ c ->
  title (job_data job) = t +:+ "_" +:+ x ->
  company (job_data job) = c ->
  addJob job s = (false, s).
Proof.
  intros Hin Ht Hc Ht' Hc'.
  destruct (addJob_cases job s) as [(-> & _)|(_ & _ & Hk)]; [reflexivity|].
  exfalso. apply (Hk stored Hin). unfold jobKey.
  rewrite Ht, Hc, Ht', Hc', !toLowerCase_app, !string_app_assoc. reflexivity.
Qed.

(** X24: an accepted job is stored under its id, its url is seen from then
    on, the entries under other ids stay, and the store grows by at most
    one job. *)
Theorem addJob_stores (job : StoredJob) (s : JobStore) :
  fst (addJob job s) = true ->
  let s' := snd (addJob job s) in
  In (jobId job, job) (store_jobs s')
  /\ (url job ∈ seenUrls s')
  /\ (forall k j, k <> jobId job ->
        (In (k, j) (store_jobs s') <-> In (k, j) (store_jobs s)))
  /\ (length (store_jobs s) <= length (store_jobs s')
      <= S (length (store_jobs s)))%nat.
Proof.
  destruct (addJob_cases job s) as [(-> & _)|(-> & _ & _)]; [discriminate|].
  intros _. cbv zeta. cbn [snd store_jobs seenUrls].
  split; [apply Map_set_In_new|].
  split; [apply elem_of_union; left; apply elem_of_singleton; reflexivity|].
  split; [|apply Map_set_length].
  intros k j Hne. split.
  - intros H. apply Map_set_In in H as [[E _]|H]; [congruence|exact H].
  - apply Map_set_In_other, Hne.
Qed.

(** ** The invariant of the store *)

Lemma store_ok_new : store_ok JobStore_new.
Proof.
  unfold store_ok, JobStore_new. cbn.
  repeat split; try apply NoDup_nil_2; intros; contradiction.
Qed.

Lemma clearJobs_ok (s : JobStore) : store_ok (clearJobs s).
Proof.
  unfold store_ok, clearJobs. cbn.
  repeat split; try apply NoDup_nil_2; intros; contradiction.
Qed.

Lemma addJob_ok (job : StoredJob) (s : JobStore) :
  store_ok s -> store_ok (snd (addJob job s)).
Proof.
  intros (Hkeys & Hid & Hk & Hu & Hseen).
  destruct (addJob_cases job s) as [(-> & _)|(-> & Hnew & Hkey)]; cbn [snd].
  { repeat split; assumption. }
  unfold store_ok. cbn [store_jobs seenUrls].
  split; [apply Map_set_keys, Hkeys|].
  split.
  { intros k j H. apply Map_set_In in H as [[-> ->]|H]; [reflexivity|].
    exact (Hid k j H). }
  split.
  { apply Map_set_NoDup_values; [exact Hk|]. intros Hin.
    apply in_map_iff in Hin as (j & E & Hj). exact (Hkey j Hj E). }
  split.
  { apply Map_set_NoDup_values; [exact Hu|]. intros Hin.
    apply in_map_iff in Hin as (j & E & Hj). apply Hnew. rewrite <- E.
    exact (Hseen j Hj). }
  intros j Hj. apply elem_of_union.
  apply Map_set_values_In in Hj as [->|Hj].
  - left. apply elem_of_singleton. reflexivity.
  - right. exact (Hseen j Hj).
Qed.

Lemma reload_ok (l : list StoredJob) (s : JobStore) : store_ok (reload l s).
Proof.
  unfold reload. generalize (clearJobs_ok s). generalize (clearJobs s).
  induction l as [|j l IH]; intros s0 H0; [exact H0|].
  cbn [fold_left]. apply IH, addJob_ok, H0.
Qed.

Section RemoveExpired.
Variable Date_getTime : string -> number.
Variable Date_toISOString : Z -> string.

Lemma remove_fold (now : Z) (es : list (string * StoredJob)) :
  forall (s : JobStore) (c : nat),
  fold_left (remove_if_expired Date_getTime now) es (s, c)
  = ({| store_jobs :=
          List.filter
            (fun e => negb (existsb (String.eqb (fst e)) (removed_keys Date_getTime now es)))
            (store_jobs s);
        lastUpdate := lastUpdate s;
        seenUrls := seenUrls s ∖ removed_urls Date_getTime now es;
        lastExpirationCheck := lastExpirationCheck s |},
     (c + length (removed_keys Date_getTime now es))%nat).
Proof.
  induction es as [|[k j] es IH]; intros s c.
  - cbn. rewrite Nat.add_0_r. f_equal. destruct s as [m lu seen le]. cbn.
    f_equal.
    + induction m as [|e m IHm]; [reflexivity|]. cbn. rewrite <- IHm. reflexivity.
    + unfold removed_urls. cbn. rewrite difference_empty_L. reflexivity.
  - cbn [fold_left]. unfold remove_if_expired at 2.
    unfold removed_keys, removed_urls. cbn [List.filter snd].
    destruct (shouldRemove Date_getTime now j) eqn:Hr.
    + rewrite IH. cbn [store_jobs lastUpdate seenUrls lastExpirationCheck].
      f_equal; [|cbn [map length]; fold (removed_keys Date_getTime now es); lia].
      f_equal.
      * unfold Map_delete. cbn [map fst existsb].
        fold (removed_keys Date_getTime now es).
        induction (store_jobs s) as [|e m IHm]; [reflexivity|].
        cbn [List.filter]. rewrite String.eqb_sym.
        destruct (String.eqb k (fst e)); cbn [negb orb List.filter];
          [exact IHm|]. 
        destruct (existsb _ _); cbn [negb]; rewrite IHm; reflexivity.
      * cbn [andb]. fold (removed_urls Date_getTime now es).
        destruct (truthy (url j)); cbn [map list_to_set snd];
          fold (removed_urls Date_getTime now es);
          [rewrite difference_difference_l_L|]; reflexivity.
    + cbn [andb]. rewrite IH. reflexivity.
Qed.

Lemma removed_key_iff (now : Z) (m : list (string * StoredJob))
    (k : string) (j : StoredJob) :
  NoDup (map fst m) -> In (k, j) m ->
  existsb (String.eqb k) (removed_keys Date_getTime now m) = shouldRemove Date_getTime now j.
Proof.
  intros Hnd Hin. unfold removed_keys.
  destruct (shouldRemove Date_getTime now j) eqn:Hr.
  - apply existsb_exists. exists k. split; [|apply String.eqb_refl].
    apply in_map_iff. exists (k, j). split; [reflexivity|].
    apply filter_In. split; [exact Hin|exact Hr].
  - destruct (existsb _ _) eqn:E; [|reflexivity].
    apply existsb_exists in E as (k' & Hk' & E). apply String.eqb_eq in E.
    subst k'. apply in_map_iff in Hk' as ([k' j'] & E & Hf). cbn in E. subst k'.
    apply filter_In in Hf as [Hin' Hr']. cbn in Hr'.
    rewrite (NoDup_keys_value k j j' m Hnd Hin Hin') in Hr. congruence.
Qed.

Lemma removeExpiredJobs_fields (now : Z) (s : JobStore) :
  NoDup (map fst (store_jobs s)) ->
  removeExpiredJobs Date_getTime Date_toISOString now s
  = (length (removed_keys Date_getTime now (store_jobs s)),
     {| store_jobs :=
          List.filter
            (fun e => negb (shouldRemove Date_getTime now (snd e)))
            (store_jobs s);
        lastUpdate := lastUpdate s;
        seenUrls := seenUrls s ∖ removed_urls Date_getTime now (store_jobs s);
        lastExpirationCheck := Some (Date_toISOString now) |}).
Proof.
  intros Hnd. unfold removeExpiredJobs. rewrite remove_fold.
  cbn [store_jobs lastUpdate seenUrls lastExpirationCheck Nat.add].
  f_equal. f_equal. apply filter_ext_in. intros [k j] Hin. cbn [fst snd].
  rewrite (removed_key_iff now _ k j Hnd Hin). reflexivity.
Qed.
End RemoveExpired.

Lemma NoDup_map_filter {A B : Type} (f : A -> B) (p : A -> bool) (l : list A) :
  NoDup (map f l) -> NoDup (map f (List.filter p l)).
Proof.
  induction l as [|a l IH]; [intros; apply NoDup_nil_2|].
  cbn [map List.filter]. intros H. apply NoDup_cons in H as [Hn H].
  destruct (p a); [|exact (IH H)].
  cbn [map]. apply NoDup_cons. split; [|exact (IH H)].
  intros Hin. apply Hn. apply list_elem_of_In. apply list_elem_of_In in Hin.
  apply in_map_iff in Hin as (x & E & Hx). apply filter_In in Hx as [Hx _].
  apply in_map_iff. exists x. tauto.
Qed.

Lemma forallb_false {A : Type} (p : A -> bool) (l : list A) :
  forallb p l = false -> exists x, In x l /\ p x = false.
Proof.
  induction l as [|a l IH]; [discriminate|]. cbn [forallb].
  destruct (p a) eqn:E; cbn [andb].
  - intros H. destruct (IH H) as (x & Hx & Ex). exists x. split; [right|]; assumption.
  - intros _. exists a. split; [left; reflexivity|exact E].
Qed.

Section JobStoreFacts.
Variable Date_getTime : string -> number.
Variable Date_toISOString : Z -> string.

Lemma removeExpiredJobs_ok (now : Z) (s : JobStore) :
  store_ok s ->
  store_ok (snd (removeExpiredJobs Date_getTime Date_toISOString now s)).
Proof.
  intros (Hkeys & Hid & Hk & Hu & Hseen).
  rewrite (removeExpiredJobs_fields _ _ now s Hkeys). cbn [snd].
  unfold store_ok. cbn [store_jobs seenUrls].
  set (keep := fun e : string * StoredJob =>
                 negb (shouldRemove Date_getTime now (snd e))).
  split; [apply NoDup_map_filter, Hkeys|].
  split.
  { intros k j H. apply filter_In in H as [H _]. exact (Hid k j H). }
  split.
  { unfold Map_values in *. rewrite map_map in *.
    apply (NoDup_map_filter (fun e => jobKey (snd e))), Hk. }
  split.
  { unfold Map_values in *. rewrite map_map in *.
    apply (NoDup_map_filter (fun e => url (snd e))), Hu. }
  intros j Hj. unfold Map_values in Hj.
  apply in_map_iff in Hj as ([k j'] & E & Hj). cbn in E. subst j'.
  apply filter_In in Hj as [Hin Hkeep]. unfold keep in Hkeep. cbn in Hkeep.
  apply elem_of_difference. split.
  { apply Hseen. unfold Map_values. apply in_map_iff. exists (k, j). tauto. }
  unfold removed_urls. rewrite elem_of_list_to_set, list_elem_of_In.
  intros Hr. apply in_map_iff in Hr as ([k' j'] & E & Hr). cbn in E.
  apply filter_In in Hr as [Hin' Hrem]. cbn in Hrem.
  apply andb_true_iff in Hrem as [Hrem _].
  assert (j' = j) as ->.
  { clear - Hu Hin Hin' E. unfold Map_values in Hu.
    induction (store_jobs s) as [|[k0 j0] m IH]; [contradiction|].
    cbn [map] in Hu. apply NoDup_cons in Hu as [Hn Hu].
    rewrite list_elem_of_In in Hn.
    destruct Hin as [Hin|Hin], Hin' as [Hin'|Hin'].
    - congruence.
    - injection Hin as -> ->. exfalso. apply Hn. cbn [snd]. rewrite <- E.
      apply in_map_iff. exists j'. split; [reflexivity|].
      apply in_map_iff. exists (k', j'). tauto.
    - injection Hin' as -> ->. exfalso. apply Hn. cbn [snd]. rewrite E.
      apply in_map_iff. exists j. split; [reflexivity|].
      apply in_map_iff. exists (k, j). tauto.
    - exact (IH Hu Hin Hin'). }
  rewrite Hrem in Hkeep. discriminate.
Qed.

(** X25: every store that the operations of [JobStore] produce from the
    empty one has at most one job per id, per key and per url, each
    under its own id, and has seen the url of each job it holds. *)
Theorem reachable_store_ok (s : JobStore) :
  reachable Date_getTime Date_toISOString s -> store_ok s.
Proof.
  induction 1 as [|job s _ IH|s _ _|now s _ IH|t s _ IH].
  - apply store_ok_new.
  - apply addJob_ok, IH.
  - apply clearJobs_ok.
  - apply removeExpiredJobs_ok, IH.
  - exact IH.
Qed.

(** X26: [removeExpiredJobs] keeps the jobs that are not expired, in their
    order, and returns the number of the others; it records the time of
    the check; run again at the same time it removes nothing. *)
Theorem removeExpiredJobs_removes_expired (now : Z) (s : JobStore) :
  NoDup (map fst (store_jobs s)) ->
  let r := removeExpiredJobs Date_getTime Date_toISOString now s in
  store_jobs (snd r)
  = List.filter (fun e => negb (shouldRemove Date_getTime now (snd e)))
      (store_jobs s)
  /\ (fst r + length (store_jobs (snd r)) = length (store_jobs s))%nat
  /\ lastExpirationCheck (snd r) = Some (Date_toISOString now)
  /\ lastUpdate (snd r) = lastUpdate s
  /\ removeExpiredJobs Date_getTime Date_toISOString now (snd r) = (0%nat, snd r).
Proof.
  intros Hnd. cbv zeta.
  rewrite (removeExpiredJobs_fields _ _ now s Hnd).
  cbn [fst snd store_jobs lastExpirationCheck lastUpdate].
  split; [reflexivity|].
  split.
  { unfold removed_keys. rewrite length_map. clear Hnd.
    induction (store_jobs s) as [|e m IH]; [reflexivity|].
    cbn [List.filter]. destruct (shouldRemove Date_getTime now (snd e));
      cbn [negb length]; lia. }
  split; [reflexivity|]. split; [reflexivity|].
  set (m' := List.filter _ (store_jobs s)).
  assert (Hm' : forall e, In e m' ->
            shouldRemove Date_getTime now (snd e) = false).
  { intros e He. apply filter_In in He as [_ He].
    apply negb_true_iff in He. exact He. }
  assert (Hnd' : NoDup (map fst m')) by apply NoDup_map_filter, Hnd.
  rewrite removeExpiredJobs_fields; [|exact Hnd'].
  cbn [store_jobs lastUpdate seenUrls lastExpirationCheck].
  assert (Hnone : List.filter
            (fun e => shouldRemove Date_getTime now (snd e)) m' = []).
  { clear - Hm'. induction m' as [|e m IH]; [reflexivity|].
    cbn [List.filter]. rewrite (Hm' e (or_introl eq_refl)).
    apply IH. intros e' He'. apply Hm'. right. exact He'. }
  assert (Hall : List.filter
            (fun e => negb (shouldRemove Date_getTime now (snd e))) m' = m').
  { clear - Hm'. induction m' as [|e m IH]; [reflexivity|].
    cbn [List.filter]. rewrite (Hm' e (or_introl eq_refl)). cbn [negb].
    f_equal. apply IH. intros e' He'. apply Hm'. right. exact He'. }
  unfold removed_keys, removed_urls. rewrite Hnone, Hall.
  assert (Hnone' : List.filter
            (fun e => shouldRemove Date_getTime now (snd e)
                      && truthy (url (snd e))) m' = []).
  { clear - Hm'. induction m' as [|e m IH]; [reflexivity|].
    cbn [List.filter]. rewrite (Hm' e (or_introl eq_refl)). cbn [andb].
    apply IH. intros e' He'. apply Hm'. right. exact He'. }
  rewrite Hnone'. cbn [map length list_to_set].
  rewrite difference_empty_L. reflexivity.
Qed.

(** X27: [getAllJobs] returns the stored jobs, each once; when every
    [scrapedAt] is a date they are ordered from the last scraped to the
    first, jobs scraped at the same time in the order of the store. *)
Theorem getAllJobs_newest_first (s : JobStore) :
  Permutation (getAllJobs Date_getTime s) (Map_values (store_jobs s))
  /\ (Forall (fun j => exists t, Date_getTime (scrapedAt j) = of_Z t)
        (Map_values (store_jobs s)) ->
      StronglySorted
        (fun a b => scraped_key Date_getTime b <= scraped_key Date_getTime a)
        (getAllJobs Date_getTime s)
      /\ forall t,
           List.filter (fun j => scraped_key Date_getTime j =? t)
             (getAllJobs Date_getTime s)
           = List.filter (fun j => scraped_key Date_getTime j =? t)
               (Map_values (store_jobs s))).
Proof.
  unfold getAllJobs. split; [apply Array_sort_Permutation|].
  intros Hdates.
  set (P := fun j => Date_getTime (scrapedAt j)
                     = of_Z (scraped_key Date_getTime j)).
  assert (Hcmp : forall x y, P x -> P y ->
            num_pos (num_sub (Date_getTime (scrapedAt y))
                       (Date_getTime (scrapedAt x)))
            = (scraped_key Date_getTime x <? scraped_key Date_getTime y)).
  { intros x y Hx Hy. unfold P in Hx, Hy. rewrite Hx, Hy.
    apply num_pos_sub_of_Z. }
  assert (HP : Forall P (Map_values (store_jobs s))).
  { eapply Forall_impl; [exact Hdates|]. cbn. intros j (t & Ht).
    unfold P, scraped_key. rewrite Ht, number_key_of_Z. reflexivity. }
  split.
  - exact (Array_sort_sorted (scraped_key Date_getTime) _ P Hcmp _ HP).
  - intros t.
    exact (Array_sort_stable (scraped_key Date_getTime) _ P Hcmp t _ HP).
Qed.

(** X28: [getJobsByCategory] fails exactly when some stored job has no
    category; otherwise it returns the stored jobs whose category
    contains the one asked for, letter case apart. *)
Theorem getJobsByCategory_error (c : string) (s : JobStore) :
  (getJobsByCategory Date_getTime c s = None
   <-> exists j, In j (Map_values (store_jobs s))
                 /\ category (job_data j) = undefined)
  /\ forall l, getJobsByCategory Date_getTime c s = Some l ->
       forall j, In j l
         <-> In j (Map_values (store_jobs s))
             /\ exists cat, category (job_data j) = Some cat
                  /\ includes (toLowerCase cat) (toLowerCase c) = true.
Proof.
  unfold getJobsByCategory.
  assert (Hin : forall j, In j (getAllJobs Date_getTime s)
                          <-> In j (Map_values (store_jobs s))).
  { intros j. unfold getAllJobs. split; intros H.
    - rewrite <- list_elem_of_In in *.
      rewrite Array_sort_Permutation in H. exact H.
    - rewrite <- list_elem_of_In in *.
      rewrite Array_sort_Permutation. exact H. }
  destruct (forallb _ _) eqn:Hall.
  - rewrite forallb_forall in Hall. split.
    + split; [discriminate|]. intros (j & Hj & E). exfalso.
      apply Hin in Hj. specialize (Hall j Hj).
      apply bool_decide_eq_true in Hall. rewrite E in Hall.
      destruct Hall as [x Hx]. discriminate.
    + intros l [= <-] j. rewrite filter_In, Hin. split.
      * intros [Hj Hinc]. split; [exact Hj|].
        apply Hin in Hj. specialize (Hall j Hj).
        apply bool_decide_eq_true in Hall. destruct Hall as [cat Hcat].
        exists cat. split; [exact Hcat|]. rewrite Hcat in Hinc. exact Hinc.
      * intros [Hj (cat & Hcat & Hinc)]. split; [exact Hj|].
        rewrite Hcat. exact Hinc.
  - split; [|discriminate]. split; [|reflexivity]. intros _.
    destruct (forallb_false _ _ Hall) as (j & Hj & E).
    exists j. split; [apply Hin, Hj|].
    apply bool_decide_eq_false in E. destruct (category (job_data j)); [|reflexivity].
    exfalso. apply E. eexists. reflexivity.
Qed.
End JobStoreFacts.

(** ** Reloading the store *)

Lemma addJob_values_In (job j : StoredJob) (s : JobStore) :
  In j (Map_values (store_jobs (snd (addJob job s)))) ->
  j = job \/ In j (Map_values (store_jobs s)).
Proof.
  destruct (addJob_cases job s) as [(-> & _)|(-> & _ & _)]; cbn [snd store_jobs].
  - right. assumption.
  - apply Map_set_values_In.
Qed.

Lemma addJob_length (job : StoredJob) (s : JobStore) :
  (length (store_jobs (snd (addJob job s))) <= S (length (store_jobs s)))%nat.
Proof.
  destruct (addJob_cases job s) as [(-> & _)|(-> & _ & _)]; cbn [snd store_jobs].
  - lia.
  - apply Map_set_length.
Qed.

Lemma addJob_others (job : StoredJob) (s : JobStore) :
  lastUpdate (snd (addJob job s)) = lastUpdate s
  /\ lastExpirationCheck (snd (addJob job s)) = lastExpirationCheck s.
Proof.
  destruct (addJob_cases job s) as [(-> & _)|(-> & _ & _)]; cbn; tauto.
Qed.

Lemma add_all_facts (l : list StoredJob) :
  forall s : JobStore,
  let s' := fold_left (fun s job => snd (addJob job s)) l s in
  (forall j, In j (Map_values (store_jobs s')) ->
     In j (Map_values (store_jobs s)) \/ In j l)
  /\ (length (store_jobs s') <= length (store_jobs s) + length l)%nat
  /\ lastUpdate s' = lastUpdate s
  /\ lastExpirationCheck s' = lastExpirationCheck s.
Proof.
  induction l as [|job l IH]; intros s; cbv zeta; cbn [fold_left].
  - repeat split; [tauto|cbn; lia].
  - destruct (IH (snd (addJob job s))) as (H1 & H2 & H3 & H4). cbv zeta in *.
    pose proof (addJob_length job s) as Hlen.
    pose proof (addJob_others job s) as [E1 E2].
    split; [|split; [cbn [length]; lia|split; congruence]].
    intros j Hj. destruct (H1 j Hj) as [H|H].
    + apply addJob_values_In in H as [->|H]; [right; left; reflexivity|tauto].
    + right. right. exact H.
Qed.

(** X29: reloading gives a store that holds only jobs of the new
    collection, at most as many as the collection has, with one job per
    id, key and url, whatever the store held before. *)
Theorem reload_result (l : list StoredJob) (s : JobStore) :
  let s' := reload l s in
  store_ok s'
  /\ (forall j, In j (Map_values (store_jobs s')) -> In j l)
  /\ (length (store_jobs s') <= length l)%nat.
Proof.
  cbv zeta. split; [apply reload_ok|]. unfold reload.
  destruct (add_all_facts l (clearJobs s)) as (H1 & H2 & _).
  cbv zeta in *. cbn [clearJobs store_jobs length Nat.add] in *.
  split; [|exact H2]. intros j Hj. destruct (H1 j Hj) as [[]|H]. exact H.
Qed.

Lemma Map_set_fresh {V : Type} (k : string) (v : V) (m : list (string * V)) :
  ~ In k (map fst m) -> Map_set k v m = m ++ [(k, v)].
Proof.
  induction m as [|[k' v'] m IH]; intros Hk; [reflexivity|].
  cbn [Map_set]. destruct (String.eqb_spec k' k) as [->|Hne].
  - exfalso. apply Hk. left. reflexivity.
  - cbn [app]. f_equal. apply IH. intros H. apply Hk. right. exact H.
Qed.

Lemma add_all_distinct (l : list StoredJob) :
  forall (l0 : list StoredJob) (s : JobStore),
  store_jobs s = map (fun j => (jobId j, j)) l0 ->
  seenUrls s = list_to_set (map url l0) ->
  NoDup (map jobId (l0 ++ l)) ->
  NoDup (map url (l0 ++ l)) ->
  NoDup (map jobKey (l0 ++ l)) ->
  let s' := fold_left (fun s job => snd (addJob job s)) l s in
  store_jobs s' = map (fun j => (jobId j, j)) (l0 ++ l)
  /\ seenUrls s' = list_to_set (map url (l0 ++ l)).
Proof.
  induction l as [|job l IH]; intros l0 s Hs Hseen Hid Hu Hk; cbv zeta;
    cbn [fold_left].
  - rewrite app_nil_r. tauto.
  - replace (l0 ++ job :: l) with ((l0 ++ [job]) ++ l) in *
      by (rewrite <- app_assoc; reflexivity).
    assert (Hfresh : forall (B : Type) (f : StoredJob -> B),
              NoDup (map f ((l0 ++ [job]) ++ l)) -> ~ In (f job) (map f l0)).
    { intros B f Hnd Hin. rewrite !map_app in Hnd.
      apply NoDup_app in Hnd as [Hnd _]. apply NoDup_app in Hnd as (_ & Hnd & _).
      apply (Hnd (f job)); [apply list_elem_of_In, Hin|]. cbn. left. }
    apply IH; try assumption.
    + destruct (addJob_cases job s) as [(_ & [H|(j & Hj & E)])|(-> & _ & _)].
      * exfalso. rewrite Hseen in H. apply elem_of_list_to_set in H.
        apply (Hfresh _ url Hu). apply list_elem_of_In, H.
      * exfalso. rewrite Hs in Hj. unfold Map_values in Hj.
        rewrite map_map in Hj. cbn [snd] in Hj. rewrite map_id in Hj.
        apply (Hfresh _ jobKey Hk). rewrite <- E. apply in_map, Hj.
      * cbn [snd store_jobs]. rewrite Map_set_fresh.
        { rewrite Hs, map_app. reflexivity. }
        rewrite Hs, map_map. cbn [fst]. apply (Hfresh _ jobId Hid).
    + destruct (addJob_cases job s) as [(_ & [H|(j & Hj & E)])|(-> & _ & _)].
      * exfalso. rewrite Hseen in H. apply elem_of_list_to_set in H.
        apply (Hfresh _ url Hu). apply list_elem_of_In, H.
      * exfalso. rewrite Hs in Hj. unfold Map_values in Hj.
        rewrite map_map in Hj. cbn [snd] in Hj. rewrite map_id in Hj.
        apply (Hfresh _ jobKey Hk). rewrite <- E. apply in_map, Hj.
      * cbn [snd seenUrls]. rewrite Hseen, map_app. cbn [map].
        rewrite list_to_set_app_L. cbn [list_to_set].
        rewrite union_empty_r_L. apply union_comm_L.
Qed.

(** X30: when the ids, the urls and the keys of the new collection are
    pairwise different, reloading stores all of its jobs, in its
    order. *)
Theorem reload_distinct (l : list StoredJob) (s : JobStore) :
  NoDup (map jobId l) -> NoDup (map url l) -> NoDup (map jobKey l) ->
  Map_values (store_jobs (reload l s)) = l
  /\ seenUrls (reload l s) = list_to_set (map url l).
Proof.
  intros Hid Hu Hk. unfold reload.
  destruct (add_all_distinct l [] (clearJobs s) eq_refl eq_refl Hid Hu Hk)
    as [E1 E2]. cbv zeta in *. cbn [app] in *.
  split; [|exact E2]. rewrite E1. unfold Map_values. rewrite map_map.
  cbn [snd]. apply map_id.
Qed.

(** ** The further properties on the samples *)

Lemma jobType_without_types_witness :
  score (calculateJobTypeMatch profile_blank jobA) = of_Z 5.
Proof.
  rewrite (jobType_without_types profile_blank jobA eq_refl). reflexivity.
Defined.

Lemma jobType_listed_witness :
  score (calculateJobTypeMatch profileA jobA) = of_Z 10.
Proof.
  rewrite (jobType_listed profileA jobA "Frontend" (or_introl eq_refl) eq_refl).
  reflexivity.
Defined.

Lemma category_lenient_without_preferences_witness :
  match_ (calculateJobCategoryMatch profile_blank job_payroll) = true.
Proof.
  rewrite (category_lenient_without_preferences profile_blank job_payroll
             eq_refl eq_refl).
  reflexivity.
Defined.

Lemma soft_mismatch_remote_witness :
  score (calculateLocationMatch profile_onsite job_remote) = of_Z 10
  /\ calculateRemoteMatch profile_onsite job_remote
     = {| score := of_Z 10; match_ := false; reason := undefined;
          issue := undefined |}.
Proof.
  apply (soft_mismatch_remote profile_onsite job_remote); reflexivity.
Defined.

Lemma getMatchedJobs_by_date_witness :
  exists sorted,
    Permutation sorted
      (List.filter (fun x => suitable x && num_ge (matchScore x) (of_Z 40))
         (map (score_job profileA) [jobA; jobA2]))
    /\ StronglySorted
         (fun a b => date_key sample_dates b <= date_key sample_dates a) sorted
    /\ jobs (getMatchedJobs sample_dates [jobA; jobA2] profileA
               {| minScore := Some (of_Z 40); maxResults := Some (of_nat 5);
                  sortBy := Some "date" |})
       = take 5 sorted.
Proof.
  apply (getMatchedJobs_by_date sample_dates [jobA; jobA2] profileA (of_Z 40)
           5 "date").
  - reflexivity.
  - repeat constructor; eexists; reflexivity.
Defined.

Lemma matchRate_percentage_witness :
  exists z,
    matchRate (getMatchedJobs no_dates [jobA; job_payroll] profileA options_one)
    = of_Z z
    /\ 0 <= z <= 100.
Proof.
  apply (matchRate_percentage no_dates [jobA; job_payroll] profileA options_one).
  discriminate.
Defined.

Lemma minScore_up_to_40_witness :
  getMatchedJobs no_dates [jobA; job_payroll] profileA
    {| minScore := Some (Fin 30); maxResults := None; sortBy := None |}
  = getMatchedJobs no_dates [jobA; job_payroll] profileA
      {| minScore := None; maxResults := None; sortBy := None |}.
Proof.
  apply (minScore_up_to_40 no_dates [jobA; job_payroll] profileA 30 None None).
  unfold Qle. cbn. lia.
Defined.

Lemma maxResults_zero_witness :
  jobs (getMatchedJobs no_dates [jobA; jobA2] profileA
          {| minScore := None; maxResults := Some NaN; sortBy := None |})
  = [].
Proof.
  apply (maxResults_zero no_dates [jobA; jobA2] profileA None None NaN).
  right. left. reflexivity.
Defined.

Lemma maxResults_negative_witness :
  jobs (getMatchedJobs no_dates [jobA; jobA2] profileA
          {| minScore := None; maxResults := Some (of_Z (- 1));
             sortBy := None |})
  = take (length (jobs (getMatchedJobs no_dates [jobA; jobA2] profileA
                          (options_all None None))) - 1)
      (jobs (getMatchedJobs no_dates [jobA; jobA2] profileA
               (options_all None None))).
Proof.
  apply (maxResults_negative no_dates [jobA; jobA2] profileA None None 1). lia.
Defined.

Lemma statistics_avgScore_witness :
  avgScore (getMatchStatistics [] profileA) = NaN
  /\ exists z, avgScore (getMatchStatistics [jobA; job_payroll] profileA) = of_Z z
               /\ 0 <= z <= 100.
Proof.
  split.
  - apply (proj1 (statistics_avgScore [] profileA)). reflexivity.
  - apply (proj2 (statistics_avgScore [jobA; job_payroll] profileA)).
    discriminate.
Defined.

Lemma statistics_by_key_witness :
  byType (getMatchStatistics [jobA; job_payroll; jobA2] profileA) !! "Frontend"
  = Some 2%nat.
Proof.
  rewrite (proj1 (statistics_by_key [jobA; job_payroll; jobA2] profileA
                    "Frontend"
                    ltac:(cbn; intuition discriminate))).
  reflexivity.
Defined.

Lemma statistics_match_total_witness :
  totalMatches (getMatchedJobs no_dates [jobA; job_payroll] profileA
                  {| minScore := None; maxResults := Some (of_nat 5);
                     sortBy := None |})
  = of_nat (excellent (getMatchStatistics [jobA; job_payroll] profileA)
            + good (getMatchStatistics [jobA; job_payroll] profileA)
            + moderate (getMatchStatistics [jobA; job_payroll] profileA)).
Proof.
  apply (statistics_match_total no_dates [jobA; job_payroll] profileA 5 None).
  cbn. lia.
Defined.

Lemma extractKeyRequirements_closed_witness :
  includes "javascript and nosql" "javascript" = true
  /\ In "java" (extractKeyRequirements "javascript and nosql").
Proof.
  apply (extractKeyRequirements_closed "javascript and nosql" "javascript"
           "java").
  - vm_compute. tauto.
  - vm_compute. tauto.
  - reflexivity.
Defined.

Lemma resume_matching_is_matched_witness :
  In "react" (matchedSkills (calculateSkillsMatch profileA jobA)).
Proof.
  apply (resume_matching_is_matched profileA jobA "React").
  vm_compute. tauto.
Defined.

Lemma addJob_key_collision_witness : addJob stored_D store_C = (false, store_C).
Proof.
  apply (addJob_key_collision stored_D stored_C store_C "Dev" "Ops" "Acme");
    try reflexivity.
  left. reflexivity.
Defined.

Lemma addJob_stores_witness :
  In (jobId stored_A, stored_A) (store_jobs (snd (addJob stored_A store_C))).
Proof.
  apply (proj1 (addJob_stores stored_A store_C eq_refl)).
Defined.

Lemma reachable_store_ok_witness : store_ok (snd (addJob stored_A JobStore_new)).
Proof.
  apply (reachable_store_ok sample_dates sample_toISOString).
  apply reachable_addJob, reachable_new.
Defined.

Lemma removeExpiredJobs_removes_expired_witness :
  lastExpirationCheck
    (snd (removeExpiredJobs sample_dates sample_toISOString sample_now store_AB))
  = Some "2024-03-01T00:00:00.000Z".
Proof.
  apply (removeExpiredJobs_removes_expired sample_dates sample_toISOString
           sample_now store_AB).
  cbn. apply NoDup_cons. split; [|apply NoDup_singleton].
  rewrite list_elem_of_In. cbn. intuition discriminate.
Defined.

Lemma getAllJobs_newest_first_witness :
  StronglySorted
    (fun a b => scraped_key sample_dates b <= scraped_key sample_dates a)
    (getAllJobs sample_dates store_AB).
Proof.
  apply (proj2 (getAllJobs_newest_first sample_dates store_AB)).
  repeat constructor; eexists; reflexivity.
Defined.

Lemma getJobsByCategory_error_witness :
  getJobsByCategory sample_dates "tech" store_AB = None.
Proof.
  apply (proj1 (getJobsByCategory_error sample_dates "tech" store_AB)).
  exists stored_A. split; [left; reflexivity|reflexivity].
Defined.

Lemma reload_distinct_witness :
  Map_values (store_jobs (reload [stored_A; stored_B] store_C))
  = [stored_A; stored_B].
Proof.
  apply (reload_distinct [stored_A; stored_B] store_C).
  - cbn. apply NoDup_cons. split; [|apply NoDup_singleton].
    rewrite list_elem_of_In. cbn. intuition discriminate.
  - cbn. apply NoDup_cons. split; [|apply NoDup_singleton].
    rewrite list_elem_of_In. cbn. intuition discriminate.
  - vm_compute. apply NoDup_cons. split; [|apply NoDup_singleton].
    rewrite list_elem_of_In. cbn. intuition discriminate.
Defined.

